(** * UASC-M2M reference implementation: codec, registry, trust, interpreter

    A shallow embedding of the four core modules under
    [research/uasc-m2m/reference-implementation/core/] and the properties
    they are specified to have.

    Conventions of the embedding:
    - Python [int] is [Z]; [str] is [string]; [Dict[str, Any]] is an
      association list in insertion order; the typed stores of the
      registry and of the trust verifier are finite maps ([gmap]) and
      finite sets ([gset]).
    - [datetime] values are [Z] (microseconds on the UTC time line) and
      [datetime.utcnow()] reads the next value of a [clock].
    - A method that can raise returns an [outcome]; a method that mutates
      its object returns the new object next to the outcome. *)

From stdpp Require Import gmap strings list fin_maps pretty.
From Stdlib Require Import ZArith Lia Ascii String.
From Stdlib.Strings Require Import Byte.
From Stdlib Require Import Btauto.
From coqutil Require Import Z.bitblast.

#[local] Set Warnings "-register-all".

Local Open Scope string_scope.
Local Open Scope Z_scope.

(** ** Python runtime model *)

Module Py.

(** The exception classes the core can meet.  [BaseExc] stands for the
    classes outside [Exception] ([KeyboardInterrupt], [SystemExit],
    [GeneratorExit]), which [except Exception] does not catch. *)
Inductive exn : Type :=
| ValueError (msg : string)
| KeyError (msg : string)
| TypeError (msg : string)
| AttributeError (msg : string)
| OtherException (cls msg : string)
| BaseExc (cls msg : string).

Definition is_Exception (e : exn) : bool :=
  match e with BaseExc _ _ => false | _ => true end.

Definition is_ValueError (e : exn) : bool :=
  match e with ValueError _ => true | _ => false end.

(** [str(e)] *)
Definition str_exn (e : exn) : string :=
  match e with
  | ValueError m | TypeError m | AttributeError m => m
  | KeyError m => "'" +:+ m +:+ "'"
  | OtherException _ m | BaseExc _ m => m
  end.

Inductive outcome (A : Type) : Type :=
| Ret (a : A)
| Raise (e : exn).
Arguments Ret {A} a.
Arguments Raise {A} e.

(** The system clock: the n-th element is what the n-th call of
    [datetime.utcnow()] returns. *)
Definition clock : Type := nat -> Z.

Definition utcnow (k : clock) : Z * clock := (k 0%nat, fun n => k (S n)).

Definition const_clock (t : Z) : clock := fun _ => t.

(** The length of [d] days, in microseconds *)
Definition timedelta_days (d : Z) : Z := d * 86400000000.

(** [datetime.min] (0001-01-01 00:00:00) and [datetime.max]
    (9999-12-31 23:59:59.999999), in microseconds on the same time line *)
Definition datetime_min : Z := -62135596800000000.
Definition datetime_max : Z := 253402300799999999.

Definition OverflowError (msg : string) : exn := OtherException "OverflowError" msg.

(** [timedelta(days=d)] for an [int]: a timedelta holds fewer than 10^9
    days either way, and CPython reads the number of days as a C int. *)
Definition timedelta (d : Z) : outcome Z :=
  if (-999999999 <=? d) && (d <=? 999999999) then Ret (timedelta_days d)
  else if (-2147483648 <=? d) && (d <=? 2147483647) then
    Raise (OverflowError ("days=" +:+ pretty d +:+ "; must have magnitude <= 999999999"))
  else Raise (OverflowError "Python int too large to convert to C int").

(** [t + delta] for a datetime [t] and a timedelta [delta]: the sum has
    to be a datetime. *)
Definition datetime_add (t delta : Z) : outcome Z :=
  if (datetime_min <=? t + delta) && (t + delta <=? datetime_max) then Ret (t + delta)
  else Raise (OverflowError "date value out of range").

(** *** Values

    The values that flow through contexts, graph nodes and handler
    results: the JSON-like part of Python's object universe ([float] is
    left out; strings are ASCII). *)
Inductive value : Type :=
| VNone
| VBool (b : bool)
| VInt (z : Z)
| VStr (s : string)
| VList (l : list value)
| VDict (d : list (string * value)).

(** A [Dict[str, Any]]: items in insertion order, keys pairwise distinct. *)
Abbreviation dict := (list (string * value)) (only parsing).

Fixpoint dict_get (key : string) (d : dict) : option value :=
  match d with
  | [] => None
  | (k', v) :: d' => if String.eqb key k' then Some v else dict_get key d'
  end.

Definition dict_has (key : string) (d : dict) : bool :=
  match dict_get key d with Some _ => true | None => false end.

(** [d.get(key, default)] *)
Definition dict_get_default (key : string) (default : value) (d : dict) : value :=
  match dict_get key d with Some v => v | None => default end.

(** [d[key] = v]: an existing key keeps its position, a new key goes last. *)
Fixpoint dict_set (key : string) (v : value) (d : dict) : dict :=
  match d with
  | [] => [(key, v)]
  | (k', v') :: d' =>
      if String.eqb key k' then (k', v) :: d' else (k', v') :: dict_set key v d'
  end.

(** [d.update(other)] *)
Definition dict_update (d other : dict) : dict :=
  fold_left (fun acc kv => dict_set kv.1 kv.2 acc) other d.

Definition dict_keys (d : dict) : list string := map fst d.

(** *** Strings *)

Fixpoint startswith (prefix s : string) : bool :=
  match prefix, s with
  | EmptyString, _ => true
  | String a p', String b s' => if Ascii.eqb a b then startswith p' s' else false
  | String _ _, EmptyString => false
  end.

(** [s[n:]] *)
Fixpoint drop_chars (n : nat) (s : string) : string :=
  match n, s with
  | O, _ => s
  | S n', String _ s' => drop_chars n' s'
  | S _, EmptyString => EmptyString
  end.

(** [c in s] for a one-character [c] *)
Fixpoint contains_char (c : ascii) (s : string) : bool :=
  match s with
  | EmptyString => false
  | String a s' => if Ascii.eqb a c then true else contains_char c s'
  end.

(** [s.split(c)] for a one-character separator: never the empty list. *)
Fixpoint split_char (c : ascii) (s : string) : list string :=
  match s with
  | EmptyString => [EmptyString]
  | String a s' =>
      if Ascii.eqb a c then EmptyString :: split_char c s'
      else match split_char c s' with
           | [] => [String a EmptyString]
           | w :: ws => String a w :: ws
           end
  end.

(** [s.split(c, 1)] when [c] occurs in [s]: the parts around its first
    occurrence. *)
Fixpoint split_first (c : ascii) (s : string) : string * string :=
  match s with
  | EmptyString => (EmptyString, EmptyString)
  | String a s' =>
      if Ascii.eqb a c then (EmptyString, s')
      else let '(l, r) := split_first c s' in (String a l, r)
  end.

(** [sep.join(parts)] *)
Fixpoint join (sep : string) (parts : list string) : string :=
  match parts with
  | [] => EmptyString
  | [p] => p
  | p :: ps => p +:+ sep +:+ join sep ps
  end.

Fixpoint zeros (n : nat) : string :=
  match n with O => EmptyString | S n' => String "0" (zeros n') end.

Definition hex_digit (d : Z) : ascii :=
  match d with
  | 0 => "0" | 1 => "1" | 2 => "2" | 3 => "3" | 4 => "4" | 5 => "5"
  | 6 => "6" | 7 => "7" | 8 => "8" | 9 => "9" | 10 => "A" | 11 => "B"
  | 12 => "C" | 13 => "D" | 14 => "E" | _ => "F"
  end%char.

Fixpoint hex_go (fuel : nat) (n : Z) (acc : string) : string :=
  match fuel with
  | O => acc
  | S fuel' =>
      let acc' := String (hex_digit (n mod 16)) acc in
      if n <? 16 then acc' else hex_go fuel' (n / 16) acc'
  end.

(** The upper-case hexadecimal digits of a natural number, no prefix. *)
Definition hex_upper (n : Z) : string :=
  hex_go (S (Z.to_nat (Z.log2 n))) n EmptyString.

(** [format(z, "0wX")]: sign-aware zero padding to [width] characters. *)
Definition format_X (width : nat) (z : Z) : string :=
  let digits := hex_upper (Z.abs z) in
  let sign := if z <? 0 then "-" else "" in
  sign +:+ zeros (width - String.length sign - String.length digits) +:+ digits.

Definition is_space (c : ascii) : bool :=
  let n := nat_of_ascii c in
  (n =? 32)%nat || ((9 <=? n)%nat && (n <=? 13)%nat).

Fixpoint lstrip (s : string) : string :=
  match s with
  | String a s' => if is_space a then lstrip s' else s
  | EmptyString => EmptyString
  end.

Fixpoint rstrip (s : string) : string :=
  match s with
  | EmptyString => EmptyString
  | String a s' =>
      match rstrip s' with
      | EmptyString => if is_space a then EmptyString else String a EmptyString
      | r => String a r
      end
  end.

(** The value of a digit character in bases up to 36. *)
Definition digit_value (c : ascii) : option Z :=
  let n := Z.of_nat (nat_of_ascii c) in
  if (48 <=? n) && (n <=? 57) then Some (n - 48)
  else if (65 <=? n) && (n <=? 90) then Some (n - 55)
  else if (97 <=? n) && (n <=? 122) then Some (n - 87)
  else None.

(** Digits with single underscores between them.  [may_us]: an
    underscore may come next; [ended]: the text read so far ends in a
    digit. *)
Fixpoint parse_digits (base : Z) (s : string) (acc : Z) (may_us ended : bool)
  : option Z :=
  match s with
  | EmptyString => if ended then Some acc else None
  | String c s' =>
      if Ascii.eqb c "_" then
        if may_us then parse_digits base s' acc false false else None
      else
        match digit_value c with
        | Some v =>
            if v <? base then parse_digits base s' (acc * base + v) true true
            else None
        | None => None
        end
  end.

(** [int(s, base)] for base 10 and base 16; [None] is [ValueError]. *)
Definition int_of_str (base : Z) (s : string) : option Z :=
  let s := rstrip (lstrip s) in
  let '(neg, s) :=
    match s with
    | String "-" s' => (true, s')
    | String "+" s' => (false, s')
    | _ => (false, s)
    end in
  let '(prefixed, s) :=
    if base =? 16 then
      match s with
      | String "0" (String "x" s') | String "0" (String "X" s') => (true, s')
      | _ => (false, s)
      end
    else (false, s) in
  match parse_digits base s 0 prefixed false with
  | Some n => Some (if neg then - n else n)
  | None => None
  end.

(** [repr] of a [str]: single quotes unless the text has a single quote
    and no double quote; backslash, the quote and control characters are
    escaped. *)
Definition repr_char (quote c : ascii) : string :=
  let n := nat_of_ascii c in
  if Ascii.eqb c "\" then "\\"
  else if Ascii.eqb c quote then String "\" (String c EmptyString)
  else if (n =? 10)%nat then "\n"
  else if (n =? 13)%nat then "\r"
  else if (n =? 9)%nat then "\t"
  else if (n <? 32)%nat || (n =? 127)%nat then
    "\x" +:+ String (hex_digit (Z.of_nat n / 16)) (String (hex_digit (Z.of_nat n mod 16)) EmptyString)
  else String c EmptyString.

Fixpoint concat_map_chars (f : ascii -> string) (s : string) : string :=
  match s with
  | EmptyString => EmptyString
  | String c s' => f c +:+ concat_map_chars f s'
  end.

(** The double quote character *)
Definition double_quote : ascii := "034"%char.

Definition repr_str (s : string) : string :=
  let quote : ascii :=
    if contains_char "'" s && negb (contains_char double_quote s) then double_quote
    else "'"%char in
  String quote (concat_map_chars (repr_char quote) s) +:+ String quote EmptyString.

Fixpoint py_repr (v : value) : string :=
  match v with
  | VNone => "None"
  | VBool true => "True"
  | VBool false => "False"
  | VInt z => pretty z
  | VStr s => repr_str s
  | VList l => "[" +:+ join ", " (map py_repr l) +:+ "]"
  | VDict d =>
      "{" +:+ join ", " (map (fun kv => repr_str kv.1 +:+ ": " +:+ py_repr kv.2) d) +:+ "}"
  end.

(** [str(v)], which is also [format(v, "")] *)
Definition py_str (v : value) : string :=
  match v with
  | VStr s => s
  | _ => py_repr v
  end.

(** [int(v)] *)
Definition py_int (v : value) : outcome Z :=
  match v with
  | VInt z => Ret z
  | VBool b => Ret (if b then 1 else 0)
  | VStr s =>
      match int_of_str 10 s with
      | Some z => Ret z
      | None => Raise (ValueError ("invalid literal for int() with base 10: " +:+ repr_str s))
      end
  | VNone | VList _ | VDict _ =>
      Raise (TypeError "int() argument must be a string, a bytes-like object or a real number")
  end.

(** Truth value of an object *)
Definition truthy (v : value) : bool :=
  match v with
  | VNone => false
  | VBool b => b
  | VInt z => negb (z =? 0)
  | VStr s => negb (String.eqb s "")
  | VList l => match l with [] => false | _ => true end
  | VDict d => match d with [] => false | _ => true end
  end.

(** Lists and dicts cannot be dictionary keys or set members. *)
Definition hashable (v : value) : bool :=
  match v with VList _ | VDict _ => false | _ => true end.

(** [v == s] for a string literal [s] *)
Definition eq_str (v : value) (s : string) : bool :=
  match v with VStr t => String.eqb t s | _ => false end.

(** [type(v).__name__] *)
Definition type_name (v : value) : string :=
  match v with
  | VNone => "NoneType"
  | VBool _ => "bool"
  | VInt _ => "int"
  | VStr _ => "str"
  | VList _ => "list"
  | VDict _ => "dict"
  end.

(** The message of the [AttributeError] for a missing attribute *)
Definition no_attribute (v : value) (attr : string) : string :=
  "'" +:+ type_name v +:+ "' object has no attribute '" +:+ attr +:+ "'".

(** The message of the [TypeError] for an unhashable key *)
Definition unhashable (v : value) : string :=
  "unhashable type: '" +:+ type_name v +:+ "'".

End Py.
Export Py.

(** ** trust.py *)

Module Trust.

Record Certificate : Type := {
  authority_id : Z;
  domain : Z;
  name : string;
  public_key : string;
  valid_from : Z;
  valid_until : Z;
  issuer_id : Z;
  signature : string
}.

(** [Certificate.is_valid]: [valid_from <= now <= valid_until] *)
Definition is_valid (c : Certificate) (k : clock) : bool * clock :=
  let '(now, k) := utcnow k in
  ((valid_from c <=? now) && (now <=? valid_until c), k).

(** [Certificate.is_expired]: [utcnow() > valid_until] *)
Definition is_expired (c : Certificate) (k : clock) : bool * clock :=
  let '(now, k) := utcnow k in
  (valid_until c <? now, k).

Record VerificationResult : Type := {
  valid : bool;
  reason : string;
  authority_name : string;
  chain_length : Z
}.

(** The dataclass defaults: [reason=""], [authority_name=""],
    [chain_length=0]. *)
Definition invalid (why : string) : VerificationResult :=
  {| valid := false; reason := why; authority_name := ""; chain_length := 0 |}.

Record TrustVerifier : Type := {
  root_key : string;
  domain_certs : gmap Z Certificate;
  authority_certs : gmap (Z * Z) Certificate;
  revoked_authorities : gset (Z * Z)
}.

Definition new_verifier : TrustVerifier :=
  {| root_key := "ROOT_PUBLIC_KEY"; domain_certs := ∅;
     authority_certs := ∅; revoked_authorities := ∅ |}.

Definition add_domain_certificate (tv : TrustVerifier) (cert : Certificate)
  : TrustVerifier :=
  {| root_key := root_key tv;
     domain_certs := <[domain cert := cert]> (domain_certs tv);
     authority_certs := authority_certs tv;
     revoked_authorities := revoked_authorities tv |}.

Definition add_authority_certificate (tv : TrustVerifier) (cert : Certificate)
  : TrustVerifier :=
  {| root_key := root_key tv;
     domain_certs := domain_certs tv;
     authority_certs := <[(domain cert, authority_id cert) := cert]> (authority_certs tv);
     revoked_authorities := revoked_authorities tv |}.

Definition revoke_authority (tv : TrustVerifier) (d a : Z) : TrustVerifier :=
  {| root_key := root_key tv;
     domain_certs := domain_certs tv;
     authority_certs := authority_certs tv;
     revoked_authorities := {[ (d, a) ]} ∪ revoked_authorities tv |}.

Definition unknown_authority_reason (d a : Z) : string :=
  "Unknown authority: domain=" +:+ pretty d +:+ ", authority=" +:+ pretty a.

Definition unknown_domain_reason (d : Z) : string :=
  "Unknown domain: " +:+ pretty d.

(** [TrustVerifier.verify] *)
Definition verify (tv : TrustVerifier) (d a : Z) (binding_signature : string)
    (k : clock) : VerificationResult * clock :=
  if decide ((d, a) ∈ revoked_authorities tv) then
    (invalid "Authority has been revoked", k)
  else
    match authority_certs tv !! (d, a) with
    | None => (invalid (unknown_authority_reason d a), k)
    | Some auth_cert =>
      let '(ok, k) := is_valid auth_cert k in
      if negb ok then
        let '(expired, k) := is_expired auth_cert k in
        if expired then (invalid "Authority certificate expired", k)
        else (invalid "Authority certificate not yet valid", k)
      else
        match domain_certs tv !! d with
        | None => (invalid (unknown_domain_reason d), k)
        | Some domain_cert =>
          let '(ok, k) := is_valid domain_cert k in
          if negb ok then
            (invalid "Domain certificate expired or not valid", k)
          else if negb (issuer_id auth_cert =? authority_id domain_cert) then
            (invalid "Authority not certified by domain authority", k)
          else if negb (issuer_id domain_cert =? 0) then
            (invalid "Domain not certified by root authority", k)
          else if String.eqb binding_signature "" then
            (invalid "Glyph binding signature missing", k)
          else
            ({| valid := true; reason := "Trust chain verified";
                authority_name := name auth_cert; chain_length := 2 |}, k)
        end
    end.

(** [create_mock_trust_chain], with the calendar dates of the source as
    microseconds since 1970-01-01. *)
Definition date_2024_01_01 : Z := 1704067200000000.
Definition date_2028_12_31 : Z := 1861833600000000.
Definition date_2030_12_31 : Z := 1924905600000000.

Definition domain_names (d : Z) : string :=
  if d =? 1 then "International Smart City Consortium"
  else if d =? 2 then "International Aerospace Authority"
  else if d =? 3 then "International Maritime Organization"
  else if d =? 4 then "Allied Defense Authority"
  else if d =? 5 then "Global Medical AI Consortium"
  else "Domain " +:+ pretty d +:+ " Authority".

Definition create_mock_trust_chain (d a : Z) (authority_name : string)
  : TrustVerifier :=
  let verifier := new_verifier in
  let domain_cert :=
    {| authority_id := 0; domain := d; name := domain_names d;
       public_key := "DOMAIN_PUBLIC_KEY_PLACEHOLDER";
       valid_from := date_2024_01_01; valid_until := date_2030_12_31;
       issuer_id := 0; signature := "ROOT_SIGNATURE_PLACEHOLDER" |} in
  let verifier := add_domain_certificate verifier domain_cert in
  let auth_cert :=
    {| authority_id := a; domain := d; name := authority_name;
       public_key := "AUTHORITY_PUBLIC_KEY_PLACEHOLDER";
       valid_from := date_2024_01_01; valid_until := date_2028_12_31;
       issuer_id := 0; signature := "DOMAIN_SIGNATURE_PLACEHOLDER" |} in
  add_authority_certificate verifier auth_cert.

(** The eight checks of the verification, as the specification numbers
    them. *)
Inductive check : Type :=
| NotRevoked | AuthorityKnown | AuthorityWindow | DomainKnown
| DomainWindow | ChainLinkage | RootIssued | SignaturePresent.

Definition checks_in_order : list check :=
  [NotRevoked; AuthorityKnown; AuthorityWindow; DomainKnown;
   DomainWindow; ChainLinkage; RootIssued; SignaturePresent].

Definition in_window (c : Certificate) (now : Z) : bool :=
  (valid_from c <=? now) && (now <=? valid_until c).

(** Whether a check holds, written from the specification's list.  A
    check on a certificate that does not exist does not hold.  [t_auth]
    and [t_dom] are the clock readings at which the two windows are
    examined. *)
Definition passes (tv : TrustVerifier) (d a : Z) (sig : string)
    (t_auth t_dom : Z) (c : check) : bool :=
  match c with
  | NotRevoked => bool_decide ((d, a) ∉ revoked_authorities tv)
  | AuthorityKnown => bool_decide (is_Some (authority_certs tv !! (d, a)))
  | AuthorityWindow =>
      match authority_certs tv !! (d, a) with
      | Some ac => in_window ac t_auth | None => false end
  | DomainKnown => bool_decide (is_Some (domain_certs tv !! d))
  | DomainWindow =>
      match domain_certs tv !! d with
      | Some dc => in_window dc t_dom | None => false end
  | ChainLinkage =>
      match authority_certs tv !! (d, a), domain_certs tv !! d with
      | Some ac, Some dc => issuer_id ac =? authority_id dc
      | _, _ => false end
  | RootIssued =>
      match domain_certs tv !! d with
      | Some dc => issuer_id dc =? 0 | None => false end
  | SignaturePresent => negb (String.eqb sig "")
  end.

Definition first_failure (tv : TrustVerifier) (d a : Z) (sig : string)
    (t_auth t_dom : Z) : option check :=
  List.find (fun c => negb (passes tv d a sig t_auth t_dom c)) checks_in_order.

(** The reason strings a failed check can produce. *)
Inductive failure_reason (d a : Z) : check -> string -> Prop :=
| fr_revoked : failure_reason d a NotRevoked "Authority has been revoked"
| fr_auth_unknown :
    failure_reason d a AuthorityKnown (unknown_authority_reason d a)
| fr_auth_expired :
    failure_reason d a AuthorityWindow "Authority certificate expired"
| fr_auth_early :
    failure_reason d a AuthorityWindow "Authority certificate not yet valid"
| fr_dom_unknown :
    failure_reason d a DomainKnown (unknown_domain_reason d)
| fr_dom_window :
    failure_reason d a DomainWindow "Domain certificate expired or not valid"
| fr_linkage :
    failure_reason d a ChainLinkage "Authority not certified by domain authority"
| fr_root :
    failure_reason d a RootIssued "Domain not certified by root authority"
| fr_signature :
    failure_reason d a SignaturePresent "Glyph binding signature missing".

(** [TrustVerifier.get_authority_chain]: the local certificate, then the
    domain certificate, each only if present *)
Definition get_authority_chain (tv : TrustVerifier) (d a : Z) : list Certificate :=
  let chain := [] in
  let chain :=
    match authority_certs tv !! (d, a) with
    | Some local_cert => (chain ++ [local_cert])%list
    | None => chain
    end in
  match domain_certs tv !! d with
  | Some domain_cert => (chain ++ [domain_cert])%list
  | None => chain
  end.

(** [TrustVerifier.verify_signature]: the placeholder accepts everything. *)
Definition verify_signature (tv : TrustVerifier) (data : list byte)
    (signature public_key : string) : bool := true.

(** The mutating operations of a verifier *)
Inductive operation : Type :=
| AddDomainCertificate (cert : Certificate)
| AddAuthorityCertificate (cert : Certificate)
| RevokeAuthority (d a : Z).

Definition apply_operation (tv : TrustVerifier) (o : operation) : TrustVerifier :=
  match o with
  | AddDomainCertificate cert => add_domain_certificate tv cert
  | AddAuthorityCertificate cert => add_authority_certificate tv cert
  | RevokeAuthority d a => revoke_authority tv d a
  end.

Definition apply_operations (tv : TrustVerifier) (os : list operation)
  : TrustVerifier :=
  fold_left apply_operation os tv.

End Trust.

(** ** glyph.py *)

Module Glyph.

(** [Domain.__members__], in definition order *)
Definition Domain_members : list (string * Z) :=
  [("RESERVED", 0); ("SMART_CITY", 1); ("AEROSPACE", 2); ("MARITIME", 3);
   ("MILITARY", 4); ("MEDICAL", 5); ("INDUSTRIAL", 6); ("FINANCIAL", 7);
   ("ENERGY", 8); ("TRANSPORT", 9); ("TELECOM", 10); ("AGRICULTURE", 11);
   ("CUSTOM", 15)].

Definition Domain_RESERVED : Z := 0.

Definition GLYPH_TOKENS : list (Z * string) :=
  [(0x8001, "@A1"); (0x8002, "@A2"); (0x8003, "@C3"); (0x8004, "@N4");
   (0x8005, "@X5"); (0x8006, "@I6"); (0x8007, "@S7")].

Definition GLYPH_NAMES : list (Z * string) :=
  [(0x8001, "SEQ"); (0x8002, "COND"); (0x8003, "CTRL"); (0x8004, "NET");
   (0x8005, "XFER"); (0x8006, "AI"); (0x8007, "SYS")].

Record GlyphFrame : Type := {
  domain : Z;
  authority : Z;
  glyph_code : Z;
  context : option dict
}.

(** Lookup in a table keyed by integers / by strings *)
Fixpoint table_get {A : Type} (key : Z) (t : list (Z * A)) : option A :=
  match t with
  | [] => None
  | (k', v) :: t' => if key =? k' then Some v else table_get key t'
  end.

Fixpoint name_get {A : Type} (key : string) (t : list (string * A)) : option A :=
  match t with
  | [] => None
  | (k', v) :: t' => if String.eqb key k' then Some v else name_get key t'
  end.

(** [str.lower] on the ASCII letters *)
Definition lower_char (c : ascii) : ascii :=
  let n := nat_of_ascii c in
  if (65 <=? n)%nat && (n <=? 90)%nat then ascii_of_nat (n + 32) else c.

Fixpoint lower (s : string) : string :=
  match s with
  | EmptyString => EmptyString
  | String c s' => String (lower_char c) (lower s')
  end.

(** [GlyphFrame.full_address] *)
Definition full_address (f : GlyphFrame) : string :=
  format_X 1 (domain f) +:+ "." +:+ format_X 3 (authority f) +:+ "."
    +:+ format_X 4 (glyph_code f).

(** [GlyphFrame.to_token] *)
Definition to_token (f : GlyphFrame) : string :=
  match table_get (glyph_code f) GLYPH_TOKENS with
  | Some t => t
  | None => "@" +:+ format_X 4 (glyph_code f)
  end.

(** [GlyphFrame.to_name] *)
Definition to_name (f : GlyphFrame) : string :=
  match table_get (glyph_code f) GLYPH_NAMES with
  | Some t => t
  | None => "G" +:+ format_X 4 (glyph_code f)
  end.

(** [if frame.context:] -- neither [None] nor an empty dict *)
Definition has_context (f : GlyphFrame) : option dict :=
  match context f with
  | Some (kv :: d) => Some (kv :: d)
  | _ => None
  end.

(** A byte of a [bytes] object *)
Definition byte_of_Z (z : Z) : byte :=
  match Byte.of_N (Z.to_N (z mod 256)) with
  | Some b => b
  | None => Byte.x00
  end.

Definition Z_of_byte (b : byte) : Z := Z.of_N (Byte.to_N b).

(** [struct.pack('>I', x)]: four bytes, most significant first;
    [struct.error] outside the unsigned 32-bit range. *)
Definition pack_I (x : Z) : outcome (list byte) :=
  if (0 <=? x) && (x <=? 4294967295) then
    Ret [byte_of_Z (Z.shiftr x 24); byte_of_Z (Z.shiftr x 16);
         byte_of_Z (Z.shiftr x 8); byte_of_Z x]
  else Raise (OtherException "struct.error" "'I' format requires 0 <= number <= 4294967295").

(** [struct.unpack('>I', data)[0]] for a four-byte [data] *)
Definition unpack_I (b0 b1 b2 b3 : byte) : Z :=
  Z.lor (Z.shiftl (Z_of_byte b0) 24)
    (Z.lor (Z.shiftl (Z_of_byte b1) 16)
       (Z.lor (Z.shiftl (Z_of_byte b2) 8) (Z_of_byte b3))).

(** The [modes] table of [_encode_context]; the key is any object. *)
Definition mode_code (v : value) : outcome Z :=
  match v with
  | VStr s =>
      Ret (if String.eqb s "normal" then 0
           else if String.eqb s "emergency" then 1
           else if String.eqb s "maintenance" then 2
           else if String.eqb s "test" then 3
           else 0)
  | VList _ | VDict _ => Raise (TypeError (unhashable v))
  | _ => Ret 0
  end.

(** The [modes] table of [_decode_context] *)
Definition mode_name (code : Z) : string :=
  if code =? 0 then "normal"
  else if code =? 1 then "emergency"
  else if code =? 2 then "maintenance"
  else if code =? 3 then "test"
  else "normal".

(** [GlyphCodec._encode_context] *)
Definition _encode_context (ctx : dict) : outcome Z :=
  let packed := 0 in
  match
    match dict_get "zone" ctx with
    | Some v =>
        match py_int v with
        | Ret z => Ret (Z.lor packed (Z.shiftl (Z.land z 0xFF) 24))
        | Raise e => Raise e
        end
    | None => Ret packed
    end
  with
  | Raise e => Raise e
  | Ret packed =>
    match
      match dict_get "priority" ctx with
      | Some v =>
          match py_int v with
          | Ret p => Ret (Z.lor packed (Z.shiftl (Z.land p 0xFF) 16))
          | Raise e => Raise e
          end
      | None => Ret packed
      end
    with
    | Raise e => Raise e
    | Ret packed =>
      match dict_get "mode" ctx with
      | Some v =>
          match mode_code v with
          | Ret m => Ret (Z.lor packed (Z.shiftl (Z.land m 0xFF) 8))
          | Raise e => Raise e
          end
      | None => Ret packed
      end
    end
  end.

(** [GlyphCodec._decode_context] *)
Definition _decode_context (packed : Z) : dict :=
  [("zone", VInt (Z.land (Z.shiftr packed 24) 0xFF));
   ("priority", VInt (Z.land (Z.shiftr packed 16) 0xFF));
   ("mode", VStr (mode_name (Z.land (Z.shiftr packed 8) 0xFF)))].

(** [GlyphCodec.encode] *)
Definition encode (f : GlyphFrame) : outcome (list byte) :=
  let packed := Z.shiftl (Z.land (domain f) 0xF) 28 in
  let packed := Z.lor packed (Z.shiftl (Z.land (authority f) 0xFFF) 16) in
  let packed := Z.lor packed (Z.land (glyph_code f) 0xFFFF) in
  match has_context f with
  | Some ctx =>
      match _encode_context ctx with
      | Raise e => Raise e
      | Ret context_packed =>
          match pack_I packed, pack_I context_packed with
          | Ret hd, Ret tl => Ret (hd ++ tl)%list
          | Raise e, _ | _, Raise e => Raise e
          end
      end
  | None => pack_I packed
  end.

(** [GlyphCodec.decode] *)
Definition decode (data : list byte) : outcome GlyphFrame :=
  match data with
  | b0 :: b1 :: b2 :: b3 :: rest =>
      let packed := unpack_I b0 b1 b2 b3 in
      let frame :=
        {| domain := Z.land (Z.shiftr packed 28) 0xF;
           authority := Z.land (Z.shiftr packed 16) 0xFFF;
           glyph_code := Z.land packed 0xFFFF;
           context := None |} in
      match rest with
      | b4 :: b5 :: b6 :: b7 :: _ =>
          let context_packed := unpack_I b4 b5 b6 b7 in
          Ret {| domain := domain frame; authority := authority frame;
                 glyph_code := glyph_code frame;
                 context := Some (_decode_context context_packed) |}
      | _ => Ret frame
      end
  | _ => Raise (ValueError "Frame too short: minimum 4 bytes required")
  end.

(** [GlyphCodec.to_text] *)
Definition to_text (f : GlyphFrame) : string :=
  let domains := map (fun kv => (kv.2, lower kv.1)) Domain_members in
  let domain_name :=
    match table_get (domain f) domains with
    | Some n => n
    | None => "domain_" +:+ pretty (domain f)
    end in
  let authority_name := "auth_" +:+ format_X 3 (authority f) in
  let uri := "UASC://" +:+ domain_name +:+ "." +:+ authority_name +:+ "/" +:+ to_token f in
  match has_context f with
  | Some ctx =>
      let params := join "&" (map (fun kv => kv.1 +:+ "=" +:+ py_str kv.2) ctx) in
      uri +:+ "?" +:+ params
  | None => uri
  end.

(** The loop over [query.split('&')] in [from_text] *)
Fixpoint parse_params (params : list string) (ctx : dict) : outcome dict :=
  match params with
  | [] => Ret ctx
  | param :: rest =>
      match split_char "=" param with
      | [key; val] =>
          let v := match int_of_str 10 val with
                   | Some z => VInt z
                   | None => VStr val
                   end in
          parse_params rest (dict_set key v ctx)
      | [_] => Raise (ValueError "not enough values to unpack (expected 2, got 1)")
      | _ => Raise (ValueError "too many values to unpack (expected 2)")
      end
  end.

(** [from_text], the part that reads [path]: the domain, the authority
    and the glyph code *)
Definition parse_path (path : string) : outcome (Z * Z * Z) :=
  match split_char "/" path with
  | [domain_auth; glyph_char] =>
      match split_char "." domain_auth with
      | [domain_str; auth_str] =>
          let domain_map := map (fun kv => (lower kv.1, kv.2)) Domain_members in
          let domain :=
            match name_get domain_str domain_map with
            | Some d => d
            | None => Domain_RESERVED
            end in
          match
            if startswith "auth_" auth_str then
              match int_of_str 16 (drop_chars 5 auth_str) with
              | Some a => Ret a
              | None =>
                  Raise (ValueError ("invalid literal for int() with base 16: "
                                     +:+ repr_str (drop_chars 5 auth_str)))
              end
            else Ret 0
          with
          | Raise e => Raise e
          | Ret authority =>
              let token_to_code := map (fun kv => (kv.2, kv.1)) GLYPH_TOKENS in
              let glyph_code :=
                match name_get glyph_char token_to_code with
                | Some c => c
                | None => 0xFFFF
                end in
              Ret (domain, authority, glyph_code)
          end
      | [_] => Raise (ValueError "not enough values to unpack (expected 2, got 1)")
      | _ => Raise (ValueError "too many values to unpack (expected 2)")
      end
  | _ => Raise (ValueError "Invalid UASC URI path")
  end.

(** [from_text], the part that reads [query]: [if query:] skips both
    [None] and the empty string *)
Definition parse_query (query : option string) : outcome (option dict) :=
  match query with
  | Some (String c q) =>
      match parse_params (split_char "&" (String c q)) [] with
      | Ret ctx => Ret (Some ctx)
      | Raise e => Raise e
      end
  | _ => Ret None
  end.

(** [GlyphCodec.from_text] *)
Definition from_text (uri : string) : outcome GlyphFrame :=
  if negb (startswith "UASC://" uri) then
    Raise (ValueError "Invalid UASC URI format")
  else
    let path := drop_chars 7 uri in
    let '(path, query) :=
      if contains_char "?" path then
        let '(p, q) := split_first "?" path in (p, Some q)
      else (path, None) in
    match parse_path path with
    | Raise e => Raise e
    | Ret (domain, authority, glyph_code) =>
        match parse_query query with
        | Raise e => Raise e
        | Ret context =>
            Ret {| domain := domain; authority := authority;
                   glyph_code := glyph_code; context := context |}
        end
    end.

(** [f == g] on frames: the dataclass compares field by field, and two
    dicts are equal when they hold the same items in any order. *)
Definition frame_eq (f g : GlyphFrame) : Prop :=
  domain f = domain g ∧ authority f = authority g ∧
  glyph_code f = glyph_code g ∧
  match context f, context g with
  | None, None => True
  | Some c1, Some c2 => c1 ≡ₚ c2
  | _, _ => False
  end.

End Glyph.
(** ** registry.py *)

Module Registry.

Record ExecutionGraph : Type := {
  graph_id : string;
  name : string;
  version : string;
  domain : string;
  inputs : list dict;
  outputs : list dict;
  nodes : list (string * dict);
  error_handling : dict;
  constraints : dict
}.

(** [key in self.nodes] for a string key *)
Fixpoint nodes_get (key : string) (ns : list (string * dict)) : option dict :=
  match ns with
  | [] => None
  | (k', n) :: ns' => if String.eqb key k' then Some n else nodes_get key ns'
  end.

(** [target in self.nodes] for an arbitrary object: the keys are strings,
    so only a string can be found; a list or a dict cannot be hashed. *)
Definition nodes_lookup (target : value) (ns : list (string * dict))
  : outcome (option dict) :=
  match target with
  | VStr s => Ret (nodes_get s ns)
  | VList _ | VDict _ => Raise (TypeError (unhashable target))
  | _ => Ret None
  end.

Definition unknown_reference (node_id : string) (ref_target : value) : string :=
  "Node '" +:+ node_id +:+ "' references unknown node '" +:+ py_str ref_target +:+ "'".

(** The reference keys [validate] looks at *)
Definition validated_ref_keys : list string := ["next"; "on_true"; "on_false"].

(** The inner loop of [validate]: the references of one node *)
Fixpoint check_refs (ns : list (string * dict)) (node_id : string) (node : dict)
    (ref_keys : list string) (errors : list string) : outcome (list string) :=
  match ref_keys with
  | [] => Ret errors
  | ref_key :: rest =>
      match dict_get ref_key node with
      | Some ref_target =>
          match nodes_lookup ref_target ns with
          | Raise e => Raise e
          | Ret (Some _) => check_refs ns node_id node rest errors
          | Ret None =>
              check_refs ns node_id node rest
                (errors ++ [unknown_reference node_id ref_target])%list
          end
      | None => check_refs ns node_id node rest errors
      end
  end.

(** The outer loop of [validate]: [for node_id, node in self.nodes.items()] *)
Fixpoint check_nodes (ns : list (string * dict)) (todo : list (string * dict))
    (errors : list string) : outcome (list string) :=
  match todo with
  | [] => Ret errors
  | (node_id, node) :: rest =>
      match check_refs ns node_id node validated_ref_keys errors with
      | Raise e => Raise e
      | Ret errors => check_nodes ns rest errors
      end
  end.

(** [any(n.get('type') == 'exit' for n in self.nodes.values())] *)
Definition has_exit (ns : list (string * dict)) : bool :=
  existsb (fun kn => match dict_get "type" kn.2 with
                     | Some t => eq_str t "exit"
                     | None => false
                     end) ns.

(** [ExecutionGraph.validate] *)
Definition validate (g : ExecutionGraph) : outcome (list string) :=
  let errors := [] in
  let errors :=
    match nodes_get "start" (nodes g) with
    | None => (errors ++ ["Missing 'start' node"])%list
    | Some _ => errors
    end in
  match check_nodes (nodes g) (nodes g) errors with
  | Raise e => Raise e
  | Ret errors =>
      if negb (has_exit (nodes g)) then Ret (errors ++ ["No exit node defined"])%list
      else Ret errors
  end.

Record GlyphBinding : Type := {
  glyph_code : Z;
  b_graph_id : string;
  b_authority : Z;
  valid_from : Z;
  valid_until : Z;
  signature : string
}.

(** [GlyphBinding.is_valid] *)
Definition is_valid (b : GlyphBinding) (k : clock) : bool * clock :=
  let '(now, k) := utcnow k in
  ((valid_from b <=? now) && (now <=? valid_until b), k).

Record Registry : Type := {
  registry_id : string;
  r_domain : Z;
  authority : Z;
  graphs : gmap string ExecutionGraph;
  bindings : gmap Z GlyphBinding;
  revocations : list Z
}.

Definition new_registry (registry_id : string) (domain authority : Z) : Registry :=
  {| registry_id := registry_id; r_domain := domain; authority := authority;
     graphs := ∅; bindings := ∅; revocations := [] |}.

Definition set_graphs (r : Registry) (gs : gmap string ExecutionGraph) : Registry :=
  {| registry_id := registry_id r; r_domain := r_domain r; authority := authority r;
     graphs := gs; bindings := bindings r; revocations := revocations r |}.

Definition set_bindings (r : Registry) (bs : gmap Z GlyphBinding) : Registry :=
  {| registry_id := registry_id r; r_domain := r_domain r; authority := authority r;
     graphs := graphs r; bindings := bs; revocations := revocations r |}.

Definition set_revocations (r : Registry) (rs : list Z) : Registry :=
  {| registry_id := registry_id r; r_domain := r_domain r; authority := authority r;
     graphs := graphs r; bindings := bindings r; revocations := rs |}.

Definition invalid_graph_message (errors : list string) : string :=
  "Invalid graph: " +:+ py_repr (VList (map VStr errors)).

(** [Registry.register_graph]: the outcome and the registry afterwards *)
Definition register_graph (r : Registry) (g : ExecutionGraph)
  : outcome string * Registry :=
  match validate g with
  | Raise e => (Raise e, r)
  | Ret errors =>
      match errors with
      | _ :: _ => (Raise (ValueError (invalid_graph_message errors)), r)
      | [] => (Ret (graph_id g), set_graphs r (<[graph_id g := g]> (graphs r)))
      end
  end.

Definition graph_not_found_message (graph_id : string) : string :=
  "Graph '" +:+ graph_id +:+ "' not found in registry".

Definition out_of_range_message (glyph_code : Z) : string :=
  "Glyph code 0x" +:+ format_X 4 glyph_code +:+ " outside valid range".

Definition no_binding_message (glyph_code : Z) : string :=
  "No binding for glyph 0x" +:+ format_X 4 glyph_code.

Section Signing.

(** [hashlib.sha256(text.encode()).hexdigest()] *)
Variable sha256_hexdigest : string -> string.

(** [s[:n]] *)
Fixpoint take_chars (n : nat) (s : string) : string :=
  match n, s with
  | S n', String c s' => String c (take_chars n' s')
  | _, _ => EmptyString
  end.

(** [Registry._sign_binding] *)
Definition _sign_binding (r : Registry) (glyph_code : Z) (graph_id : string) : string :=
  let content :=
    registry_id r +:+ ":" +:+ pretty glyph_code +:+ ":" +:+ graph_id +:+ ":"
      +:+ pretty (authority r) in
  take_chars 32 (sha256_hexdigest content).

(** [Registry.bind_glyph].  The arguments of [GlyphBinding(...)] are
    evaluated in order: the two clock readings, then
    [timedelta(days=validity_days)] and the sum, either of which can
    raise [OverflowError]; only then is the binding stored. *)
Definition bind_glyph (r : Registry) (glyph_code : Z) (graph_id : string)
    (validity_days : Z) (k : clock) : outcome GlyphBinding * Registry * clock :=
  match graphs r !! graph_id with
  | None => (Raise (ValueError (graph_not_found_message graph_id)), r, k)
  | Some _ =>
      if negb ((0x8000 <=? glyph_code) && (glyph_code <=? 0xFFFE)) then
        (Raise (ValueError (out_of_range_message glyph_code)), r, k)
      else
        let '(t_from, k) := utcnow k in
        let '(t_until, k) := utcnow k in
        match timedelta validity_days with
        | Raise e => (Raise e, r, k)
        | Ret delta =>
            match datetime_add t_until delta with
            | Raise e => (Raise e, r, k)
            | Ret t_end =>
                let binding :=
                  {| glyph_code := glyph_code;
                     b_graph_id := graph_id;
                     b_authority := authority r;
                     valid_from := t_from;
                     valid_until := t_end;
                     signature := _sign_binding r glyph_code graph_id |} in
                (Ret binding,
                 set_bindings r (<[glyph_code := binding]> (bindings r)), k)
            end
        end
  end.

End Signing.

(** [Registry.lookup] *)
Definition lookup (r : Registry) (glyph_code : Z) (k : clock)
  : option ExecutionGraph * clock :=
  if bool_decide (glyph_code ∈ revocations r) then (None, k)
  else
    match bindings r !! glyph_code with
    | None => (None, k)
    | Some binding =>
        let '(ok, k) := is_valid binding k in
        if negb ok then (None, k)
        else (graphs r !! b_graph_id binding, k)
    end.

(** [Registry.get_binding] *)
Definition get_binding (r : Registry) (glyph_code : Z) : option GlyphBinding :=
  bindings r !! glyph_code.

(** [Registry.revoke] *)
Definition revoke (r : Registry) (glyph_code : Z) (reason : string)
  : outcome unit * Registry :=
  match bindings r !! glyph_code with
  | None => (Raise (ValueError (no_binding_message glyph_code)), r)
  | Some _ => (Ret tt, set_revocations r (revocations r ++ [glyph_code])%list)
  end.

(** [Registry.is_revoked] *)
Definition is_revoked (r : Registry) (glyph_code : Z) : bool :=
  bool_decide (glyph_code ∈ revocations r).

(** The mutating operations of a registry, for reasoning about every
    later state of one instance. *)
Inductive operation : Type :=
| RegisterGraph (g : ExecutionGraph)
| BindGlyph (glyph_code : Z) (graph_id : string) (validity_days : Z)
| Revoke (glyph_code : Z) (reason : string).

Definition apply_operation (sha : string -> string) (st : Registry * clock)
    (o : operation) : Registry * clock :=
  let '(r, k) := st in
  match o with
  | RegisterGraph g => ((register_graph r g).2, k)
  | BindGlyph c gid days =>
      let '(_, r', k') := bind_glyph sha r c gid days k in (r', k')
  | Revoke c reason => ((revoke r c reason).2, k)
  end.

Definition apply_operations (sha : string -> string) (st : Registry * clock)
    (os : list operation) : Registry * clock :=
  fold_left (apply_operation sha) os st.

End Registry.
(** ** interpreter.py *)

Module Interp.

(** *** Dictionaries with arbitrary hashable keys

    [ExecutionContext.parameters] receives the frame context (string
    keys) and then one entry per input declaration, keyed by whatever
    object the declaration gives as its name. *)
Abbreviation params := (list (value * value)) (only parsing).

(** Key equality of Python dictionaries on hashable values:
    [True == 1] and [False == 0]. *)
Definition key_eqb (a b : value) : bool :=
  match a, b with
  | VNone, VNone => true
  | VStr s, VStr t => String.eqb s t
  | VInt x, VInt y => x =? y
  | VInt x, VBool c | VBool c, VInt x => x =? (if c then 1 else 0)
  | VBool c, VBool d => Bool.eqb c d
  | _, _ => false
  end.

Fixpoint params_get (key : value) (d : params) : option value :=
  match d with
  | [] => None
  | (k', v) :: d' => if key_eqb key k' then Some v else params_get key d'
  end.

Fixpoint params_set (key v : value) (d : params) : params :=
  match d with
  | [] => [(key, v)]
  | (k', v') :: d' =>
      if key_eqb key k' then (k', v) :: d' else (k', v') :: params_set key v d'
  end.

Definition params_update (d other : params) : params :=
  fold_left (fun acc kv => params_set kv.1 kv.2 acc) other d.

Definition params_of_dict (d : dict) : params :=
  map (fun kv => (VStr kv.1, kv.2)) d.

(** [s.replace(old, new)] for a non-empty [old] *)
Fixpoint replace_go (fuel : nat) (old new s : string) : string :=
  match fuel with
  | O => s
  | S fuel' =>
      match s with
      | EmptyString => EmptyString
      | String c s' =>
          if startswith old s then
            new +:+ replace_go fuel' old new (drop_chars (String.length old) s)
          else String c (replace_go fuel' old new s')
      end
  end.

Definition str_replace (old new s : string) : string :=
  replace_go (String.length s) old new s.

Record ExecutionContext : Type := {
  parameters : params;
  system : dict;
  node_results : dict
}.

Record ExecutionResult : Type := {
  status : string;
  outputs : dict;
  execution_time_ms : Z;
  node_trace : list string;
  error : option string
}.

Definition is_success (r : ExecutionResult) : bool :=
  String.eqb (status r) "success".

(** The dictionary [_execute_graph] returns: ['status'] and ['trace']
    always, ['outputs'] or ['error'] depending on the exit. *)
Record walk_result : Type := {
  w_status : string;
  w_outputs : option dict;
  w_error : option string;
  w_trace : list string
}.

Definition walk_failed (why : string) (trace : list string) : walk_result :=
  {| w_status := "failed"; w_outputs := None; w_error := Some why;
     w_trace := trace |}.

Definition walk_completed (outs : dict) (trace : list string) : walk_result :=
  {| w_status := "completed"; w_outputs := Some outs; w_error := None;
     w_trace := trace |}.

Definition max_iterations_message : string :=
  "Max iterations exceeded - possible infinite loop".

(** One entry of [Interpreter.execution_log] *)
Record log_entry : Type := {
  l_timestamp : string;
  l_glyph : string;
  l_glyph_code : string;
  l_authority : string;
  l_status : string;
  l_execution_time_ms : Z;
  l_node_count : nat;
  l_error : option string
}.

Section Interpreter.

(** The world the action handlers act on. *)
Variable W : Type.

(** [eval(expression, {"__builtins__": {}}, allowed)] on a string. *)
Variable py_eval : string -> params -> outcome value.

(** [datetime.isoformat] *)
Variable isoformat : Z -> string.

Definition handler : Type := dict -> W -> outcome value * W.

Record ActionRegistry : Type := {
  handlers : gmap string handler
}.

Definition register (a : ActionRegistry) (operation : string) (h : handler)
  : ActionRegistry :=
  {| handlers := <[operation := h]> (handlers a) |}.

(** [ActionRegistry.execute] *)
Definition actions_execute (a : ActionRegistry) (operation : value)
    (ps : dict) (w : W) : outcome value * W :=
  match operation with
  | VList _ | VDict _ => (Raise (TypeError (unhashable operation)), w)
  | VStr op =>
      match handlers a !! op with
      | Some h => h ps w
      | None => (Raise (ValueError ("Unknown operation: " +:+ op)), w)
      end
  | _ => (Raise (ValueError ("Unknown operation: " +:+ py_str operation)), w)
  end.

(** [ActionRegistry.has_handler] *)
Definition has_handler (a : ActionRegistry) (operation : string) : bool :=
  bool_decide (is_Some (handlers a !! operation)).

Record Interpreter : Type := {
  registry : Registry.Registry;
  trust : Trust.TrustVerifier;
  actions : ActionRegistry;
  execution_log : list log_entry;
  max_iterations : Z
}.

Definition new_interpreter (r : Registry.Registry) (t : Trust.TrustVerifier)
    (a : ActionRegistry) : Interpreter :=
  {| registry := r; trust := t; actions := a; execution_log := [];
     max_iterations := 100 |}.

(** [time.time()], read off the same clock; [_elapsed_ms] truncates. *)
Definition _elapsed_ms (start_time : Z) (k : clock) : Z * clock :=
  let '(now, k) := utcnow k in (Z.quot (now - start_time) 1000, k).

(** [Interpreter._reject] *)
Definition _reject (reason : string) (start_time : Z) (k : clock)
  : ExecutionResult * clock :=
  let '(ms, k) := _elapsed_ms start_time k in
  ({| status := "rejected"; outputs := []; execution_time_ms := ms;
      node_trace := []; error := Some reason |}, k).

(** The loop over [graph.inputs] in [_build_context] *)
Fixpoint apply_inputs (input_defs : list dict) (ps : params) : outcome params :=
  match input_defs with
  | [] => Ret ps
  | input_def :: rest =>
      match dict_get "name" input_def with
      | None => Raise (KeyError "name")
      | Some name =>
          if negb (hashable name) then
            Raise (TypeError (unhashable name))
          else
            match params_get name ps with
            | Some _ => apply_inputs rest ps
            | None =>
                match dict_get "default" input_def with
                | Some default => apply_inputs rest (params_set name default ps)
                | None =>
                    if truthy (dict_get_default "required" (VBool false) input_def)
                    then Raise (ValueError ("Missing required parameter: " +:+ py_str name))
                    else apply_inputs rest ps
                end
            end
      end
  end.

(** [Interpreter._build_context] *)
Definition _build_context (frame : Glyph.GlyphFrame)
    (graph : Registry.ExecutionGraph) (k : clock)
  : outcome ExecutionContext * clock :=
  let ps :=
    match Glyph.has_context frame with
    | Some ctx => params_update [] (params_of_dict ctx)
    | None => []
    end in
  match apply_inputs (Registry.inputs graph) ps with
  | Raise e => (Raise e, k)
  | Ret ps =>
      let '(now, k) := utcnow k in
      (Ret {| parameters := ps;
              system :=
                [("timestamp", VStr (isoformat now));
                 ("glyph", VStr (Glyph.to_token frame));
                 ("glyph_code", VStr ("0x" +:+ format_X 4 (Glyph.glyph_code frame)));
                 ("domain", VInt (Glyph.domain frame));
                 ("authority", VInt (Glyph.authority frame))];
              node_results := [] |}, k)
  end.

(** One value of [_resolve_params] *)
Definition resolve_value (v : value) (ctx : ExecutionContext) : value :=
  match v with
  | VStr s =>
      if startswith "inputs." s then
        match params_get (VStr (drop_chars 7 s)) (parameters ctx) with
        | Some x => x
        | None => VNone
        end
      else if contains_char "." s then
        let '(node_id, result_key) := split_first "." s in
        match dict_get_default node_id (VDict []) (node_results ctx) with
        | VDict d => match dict_get result_key d with Some x => x | None => VNone end
        | node_result => node_result
        end
      else VStr s
  | _ => v
  end.

(** [Interpreter._resolve_params]; an object without [items] raises. *)
Definition _resolve_params (ps : value) (ctx : ExecutionContext) : outcome dict :=
  match ps with
  | VDict d =>
      Ret (fold_left (fun resolved kv => dict_set kv.1 (resolve_value kv.2 ctx) resolved)
             d [])
  | _ => Raise (AttributeError (no_attribute ps "items"))
  end.

Definition _resolve_outputs (outs : value) (ctx : ExecutionContext) : outcome dict :=
  _resolve_params outs ctx.

(** [Interpreter._execute_action] *)
Definition _execute_action (self : Interpreter) (node : dict)
    (ctx : ExecutionContext) (w : W) : outcome value * W :=
  let operation := dict_get_default "operation" (VStr "") node in
  let raw_params := dict_get_default "params" (VDict []) node in
  match _resolve_params raw_params ctx with
  | Raise e => (Raise e, w)
  | Ret ps => actions_execute (actions self) operation ps w
  end.

(** The node results that are dicts, flattened into [eval_context] *)
Definition add_node_results (results : dict) (eval_context : params) : params :=
  fold_left
    (fun acc nr =>
       match nr.2 with
       | VDict result =>
           fold_left
             (fun acc kv => params_set (VStr (nr.1 +:+ "_" +:+ kv.1)) kv.2 acc)
             result acc
       | _ => acc
       end)
    results eval_context.

(** [expression.replace(f"inputs.{param}", repr(value))] for each
    parameter; only a [str] has [replace]. *)
Fixpoint replace_references (ps : params) (expression : value) : outcome value :=
  match ps with
  | [] => Ret expression
  | (param, v) :: rest =>
      match expression with
      | VStr e =>
          replace_references rest
            (VStr (str_replace ("inputs." +:+ py_str param) (py_repr v) e))
      | _ => Raise (AttributeError (no_attribute expression "replace"))
      end
  end.

(** [isinstance(v, (int, float, str, bool))] *)
Definition is_scalar (v : value) : bool :=
  match v with VBool _ | VInt _ | VStr _ => true | _ => false end.

(** [Interpreter._evaluate_condition] *)
Definition _evaluate_condition (node : dict) (ctx : ExecutionContext)
  : outcome bool :=
  let expression := dict_get_default "expression" (VStr "true") node in
  if eq_str expression "true" then Ret true
  else if eq_str expression "false" then Ret false
  else
    let eval_context := parameters ctx in
    let eval_context := add_node_results (node_results ctx) eval_context in
    match replace_references (parameters ctx) expression with
    | Raise e => Raise e
    | Ret expression =>
        (* try: ... except Exception: return False *)
        let allowed := [(VStr "True", VBool true); (VStr "False", VBool false)] in
        let allowed :=
          params_update allowed (filter (fun kv => is_scalar kv.2 = true) eval_context) in
        let evaluated :=
          match expression with
          | VStr e => py_eval e allowed
          | _ => Raise (TypeError "eval() arg 1 must be a string, bytes or code object")
          end in
        match evaluated with
        | Ret v => Ret (truthy v)
        | Raise e => if is_Exception e then Ret false else Raise e
        end
    end.

(** The state of the loop in [_execute_graph] *)
Record walk_state : Type := {
  current_node : value;
  trace : list string;
  context : ExecutionContext;
  world : W
}.

Inductive step_result : Type :=
| Continue (s : walk_state)
| Return (r : walk_result) (w : W)
| Throw (e : exn) (w : W).

Definition set_node_result (ctx : ExecutionContext) (node_id : string) (v : value)
  : ExecutionContext :=
  {| parameters := parameters ctx; system := system ctx;
     node_results := dict_set node_id v (node_results ctx) |}.

(** The body of the [for iteration in range(self.max_iterations)] loop *)
Definition loop_body (self : Interpreter) (graph : Registry.ExecutionGraph)
    (s : walk_state) : step_result :=
  match Registry.nodes_lookup (current_node s) (Registry.nodes graph) with
  | Raise e => Throw e (world s)
  | Ret None =>
      Return (walk_failed ("Unknown node: " +:+ py_str (current_node s)) (trace s))
             (world s)
  | Ret (Some node) =>
      let trace := (trace s ++ [py_str (current_node s)])%list in
      let node_type := dict_get_default "type" (VStr "action") node in
      if eq_str node_type "entry" then
        Continue {| current_node := dict_get_default "next" (VStr "end") node;
                    trace := trace; context := context s; world := world s |}
      else if eq_str node_type "exit" then
        match _resolve_outputs (dict_get_default "outputs" (VDict []) node) (context s) with
        | Raise e => Throw e (world s)
        | Ret outs => Return (walk_completed outs trace) (world s)
        end
      else if eq_str node_type "action" then
        match _execute_action self node (context s) (world s) with
        | (Ret result, w) =>
            Continue {| current_node := dict_get_default "next" (VStr "end") node;
                        trace := trace;
                        context := set_node_result (context s) (py_str (current_node s)) result;
                        world := w |}
        | (Raise e, w) =>
            if is_Exception e then
              match dict_get "on_error" node with
              | Some target =>
                  Continue {| current_node := target; trace := trace;
                              context := context s; world := w |}
              | None => Throw e w
              end
            else Throw e w
        end
      else if eq_str node_type "condition" then
        match _evaluate_condition node (context s) with
        | Raise e => Throw e (world s)
        | Ret true =>
            Continue {| current_node := dict_get_default "on_true" (VStr "end") node;
                        trace := trace; context := context s; world := world s |}
        | Ret false =>
            Continue {| current_node := dict_get_default "on_false" (VStr "end") node;
                        trace := trace; context := context s; world := world s |}
        end
      else
        Return (walk_failed ("Unknown node type: " +:+ py_str node_type) trace)
               (world s)
  end.

(** The loop, for the iterations that remain *)
Fixpoint walk (self : Interpreter) (graph : Registry.ExecutionGraph)
    (remaining : nat) (s : walk_state) : outcome walk_result * W :=
  match remaining with
  | O => (Ret (walk_failed max_iterations_message (trace s)), world s)
  | S remaining' =>
      match loop_body self graph s with
      | Continue s' => walk self graph remaining' s'
      | Return r w => (Ret r, w)
      | Throw e w => (Raise e, w)
      end
  end.

Definition initial_state (ctx : ExecutionContext) (w : W) : walk_state :=
  {| current_node := VStr "start"; trace := []; context := ctx; world := w |}.

(** [Interpreter._execute_graph] *)
Definition _execute_graph (self : Interpreter) (graph : Registry.ExecutionGraph)
    (ctx : ExecutionContext) (w : W) : outcome walk_result * W :=
  walk self graph (Z.to_nat (max_iterations self)) (initial_state ctx w).

(** The state after [n] iterations that all went on, if they did *)
Fixpoint iterate (self : Interpreter) (graph : Registry.ExecutionGraph)
    (n : nat) (s : walk_state) : option walk_state :=
  match n with
  | O => Some s
  | S n' =>
      match loop_body self graph s with
      | Continue s' => iterate self graph n' s'
      | _ => None
      end
  end.

(** [Interpreter._log_execution] *)
Definition _log_execution (self : Interpreter) (frame : Glyph.GlyphFrame)
    (result : ExecutionResult) (authority_name : string) (k : clock)
  : Interpreter * clock :=
  let '(now, k) := utcnow k in
  let entry :=
    {| l_timestamp := isoformat now;
       l_glyph := Glyph.to_token frame;
       l_glyph_code := "0x" +:+ format_X 4 (Glyph.glyph_code frame);
       l_authority := authority_name;
       l_status := status result;
       l_execution_time_ms := execution_time_ms result;
       l_node_count := List.length (node_trace result);
       l_error := error result |} in
  ({| registry := registry self; trust := trust self; actions := actions self;
      execution_log := (execution_log self ++ [entry])%list;
      max_iterations := max_iterations self |}, k).

(** [Interpreter.execute]: the outcome, the interpreter afterwards, and
    what is left of the clock and of the world. *)
Definition execute (self : Interpreter) (frame : Glyph.GlyphFrame)
    (k : clock) (w : W) : outcome ExecutionResult * Interpreter * clock * W :=
  let '(start_time, k) := utcnow k in
  match Registry.get_binding (registry self) (Glyph.glyph_code frame) with
  | None =>
      let '(r, k) :=
        _reject (Registry.no_binding_message (Glyph.glyph_code frame)) start_time k in
      (Ret r, self, k, w)
  | Some binding =>
      let '(trust_result, k) :=
        Trust.verify (trust self) (Glyph.domain frame) (Glyph.authority frame)
          (Registry.signature binding) k in
      if negb (Trust.valid trust_result) then
        let '(r, k) :=
          _reject ("Trust verification failed: " +:+ Trust.reason trust_result)
            start_time k in
        (Ret r, self, k, w)
      else
        match Registry.lookup (registry self) (Glyph.glyph_code frame) k with
        | (None, k) =>
            let '(r, k) := _reject "Execution graph not found or revoked" start_time k in
            (Ret r, self, k, w)
        | (Some graph, k) =>
            match _build_context frame graph k with
            | (Raise e, k) =>
                if is_ValueError e then
                  let '(r, k) := _reject (str_exn e) start_time k in
                  (Ret r, self, k, w)
                else (Raise e, self, k, w)
            | (Ret ctx, k) =>
                match _execute_graph self graph ctx w with
                | (Raise e, w) =>
                    if is_Exception e then
                      let '(ms, k) := _elapsed_ms start_time k in
                      (Ret {| status := "failed"; outputs := [];
                              execution_time_ms := ms; node_trace := [];
                              error := Some (str_exn e) |}, self, k, w)
                    else (Raise e, self, k, w)
                | (Ret result, w) =>
                    let '(ms, k) := _elapsed_ms start_time k in
                    let exec_result :=
                      {| status := if String.eqb (w_status result) "completed"
                                   then "success" else "failed";
                         outputs := match w_outputs result with
                                    | Some o => o | None => [] end;
                         execution_time_ms := ms;
                         node_trace := w_trace result;
                         error := w_error result |} in
                    let '(self, k) :=
                      _log_execution self frame exec_result
                        (Trust.authority_name trust_result) k in
                    (Ret exec_result, self, k, w)
                end
            end
        end
  end.

(** [Interpreter.get_execution_log] *)
Definition get_execution_log (self : Interpreter) : list log_entry :=
  execution_log self.

(** [Interpreter.clear_execution_log] *)
Definition clear_execution_log (self : Interpreter) : Interpreter :=
  {| registry := registry self; trust := trust self; actions := actions self;
     execution_log := []; max_iterations := max_iterations self |}.

End Interpreter.

End Interp.
(** ** Concrete inputs

    The registries, graphs and frames the examples below are run on. *)

Module Samples.
Import Registry.

(** A registry with one valid graph, as the demo builds it. *)
Definition sample_graph : ExecutionGraph :=
  {| graph_id := "g1"; name := "sample"; version := "1.0.0"; domain := "smart_city";
     inputs := []; outputs := [];
     nodes := [("start", [("type", VStr "entry"); ("next", VStr "done")]);
               ("done", [("type", VStr "exit")])];
     error_handling := []; constraints := [] |}.

Definition sample_registry : Registry :=
  (register_graph (new_registry "reg" 1 0x42) sample_graph).2.

(** A stand-in for [hashlib.sha256(...).hexdigest()]: some text of 64
    hexadecimal digits.  Only its being non-empty matters below. *)
Definition sample_sha (s : string) : string :=
  "0123456789abcdef0123456789abcdef0123456789abcdef0123456789abcdef".

Definition bound_registry : Registry :=
  (bind_glyph sample_sha sample_registry 0x8001 "g1" 365 (const_clock 0)).1.2.

(** A graph whose action node names an error target that is not a node. *)
Definition dangling_on_error_graph : ExecutionGraph :=
  {| graph_id := "g2"; name := "dangling"; version := "1.0.0"; domain := "smart_city";
     inputs := []; outputs := [];
     nodes := [("start", [("type", VStr "entry"); ("next", VStr "act")]);
               ("act", [("type", VStr "action"); ("operation", VStr "op");
                        ("next", VStr "done"); ("on_error", VStr "ghost")]);
               ("done", [("type", VStr "exit")])];
     error_handling := []; constraints := [] |}.

(** The wall clock stands at 2026-11-04, inside every certificate window
    of the mock trust chain. *)
Definition now_2026 : Z := 1793750400000000.

Definition sample_clock : clock := const_clock now_2026.

Definition sample_trust : Trust.TrustVerifier :=
  Trust.create_mock_trust_chain 1 0x42 "City Traffic Authority".

Definition make_graph (gid : string) (ins : list (list (string * value)))
    (ns : list (string * list (string * value))) : ExecutionGraph :=
  {| graph_id := gid; name := gid; version := "1.0.0"; domain := "smart_city";
     inputs := ins; outputs := []; nodes := ns;
     error_handling := []; constraints := [] |}.

(** Register [g] in a fresh registry and bind it to [code]. *)
Definition registry_with (g : ExecutionGraph) (code : Z) : Registry :=
  let r := (register_graph (new_registry "reg" 1 0x42) g).2 in
  (bind_glyph sample_sha r code (graph_id g) 365 sample_clock).1.2.

(** An input declaration without a name *)
Definition nameless_input_graph : ExecutionGraph :=
  make_graph "g4" [[("type", VStr "int"); ("default", VInt 1)]]
    [("start", [("type", VStr "entry"); ("next", VStr "done")]);
     ("done", [("type", VStr "exit")])].

(** A condition whose expression is the number 5 *)
Definition numeric_condition_node : list (string * value) :=
  [("type", VStr "condition"); ("expression", VInt 5);
   ("on_true", VStr "done"); ("on_false", VStr "done")].

Definition numeric_condition_graph : ExecutionGraph :=
  make_graph "g5" []
    [("start", [("type", VStr "entry"); ("next", VStr "check")]);
     ("check", numeric_condition_node);
     ("done", [("type", VStr "exit")])].

(** Two entry nodes that point at each other; the exit is never reached. *)
Definition cyclic_graph : ExecutionGraph :=
  make_graph "g6" []
    [("start", [("type", VStr "entry"); ("next", VStr "again")]);
     ("again", [("type", VStr "entry"); ("next", VStr "start")]);
     ("done", [("type", VStr "exit")])].

Definition frame_for (code : Z) (ctx : option (list (string * value)))
  : Glyph.GlyphFrame :=
  {| Glyph.domain := 1; Glyph.authority := 0x42; Glyph.glyph_code := code;
     Glyph.context := ctx |}.

Section WithWorld.

Variable W : Type.

Definition no_actions : Interp.ActionRegistry W :=
  {| Interp.handlers := ∅ |}.

Definition interpreter_for (g : ExecutionGraph) (code : Z) : Interp.Interpreter W :=
  Interp.new_interpreter W (registry_with g code) sample_trust no_actions.

End WithWorld.

(** An evaluator that knows no name, for running the interpreter on
    graphs without conditions. *)
Definition no_eval (expression : string) (allowed : list (value * value))
  : outcome value :=
  Raise (OtherException "NameError" "name is not defined").

End Samples.
(** ** Sets of frames and words of the codec

    The inputs the codec properties range over, and names for the two
    32-bit words [encode] builds. *)

Module GlyphSpec.
Import Glyph.

(** The header word of [encode] *)
Definition header (d a g : Z) : Z :=
  Z.lor (Z.lor (Z.shiftl (Z.land d 0xF) 28) (Z.shiftl (Z.land a 0xFFF) 16))
        (Z.land g 0xFFFF).

(** The context word of [_encode_context] on the three fixed fields *)
Definition context_word (z p m : Z) : Z :=
  Z.lor (Z.lor (Z.lor 0 (Z.shiftl (Z.land z 0xFF) 24)) (Z.shiftl (Z.land p 0xFF) 16))
        (Z.shiftl (Z.land m 0xFF) 8).

(** The four mode names and their codes *)
Definition mode_names : list string := ["normal"; "emergency"; "maintenance"; "test"].

(** A dict holding exactly the three fixed fields, in any order *)
Definition fixed_fields (z p : Z) (m : string) : dict :=
  [("zone", VInt z); ("priority", VInt p); ("mode", VStr m)].

(** The frames [to_text] and [from_text] agree on: the domain is a member
    of [Domain], the glyph code has a token of its own or is the default
    0xFFFF, and the context is absent or a non-empty dict of fixed
    fields. *)
Definition named_domains : list Z := map snd Domain_members.

Definition token_codes : list Z := (map fst GLYPH_TOKENS ++ [0xFFFF])%list.

Definition fixed_item (kv : string * value) : Prop :=
  (kv.1 ∈ ["zone"; "priority"; "reserved"] ∧ ∃ z, kv.2 = VInt z ∧ 0 <= z <= 255) ∨
  (kv.1 = "mode" ∧ ∃ m, kv.2 = VStr m ∧ m ∈ mode_names).

Definition fixed_context (ctx : option (list (string * value))) : Prop :=
  match ctx with
  | None => True
  | Some c => c ≠ [] ∧ NoDup (map fst c) ∧ Forall fixed_item c
  end.

Definition domain_name (d : Z) : string :=
  match table_get d (map (fun kv => (kv.2, lower kv.1)) Domain_members) with
  | Some n => n
  | None => "domain_" +:+ pretty d
  end.

Definition authority_name (a : Z) : string := "auth_" +:+ format_X 3 a.

Definition format_item (kv : string * value) : string :=
  kv.1 +:+ "=" +:+ py_str kv.2.

(** No character that [from_text] splits the path on *)
Definition path_safe (s : string) : bool :=
  negb (contains_char "?" s) && negb (contains_char "/" s)
  && negb (contains_char "." s).

Definition domain_ok (d : Z) : bool :=
  path_safe (domain_name d)
  && bool_decide (name_get (domain_name d)
                    (map (fun kv => (lower kv.1, kv.2)) Domain_members) = Some d).

Definition authority_ok (a : Z) : bool :=
  path_safe (authority_name a)
  && startswith "auth_" (authority_name a)
  && bool_decide (int_of_str 16 (drop_chars 5 (authority_name a)) = Some a).

Definition token_ok (g : Z) : bool :=
  let f := {| domain := 0; authority := 0; glyph_code := g; context := None |} in
  path_safe (to_token f)
  && bool_decide (match name_get (to_token f) (map (fun kv => (kv.2, kv.1)) GLYPH_TOKENS) with
                  | Some c => c
                  | None => 0xFFFF
                  end = g).

(** No character that [from_text] splits the query on, and the text
    reads back as the number *)
Definition number_ok (z : Z) : bool :=
  negb (contains_char "&" (pretty z)) && negb (contains_char "=" (pretty z))
  && bool_decide (int_of_str 10 (pretty z) = Some z).

End GlyphSpec.

(** ** Proof tactics *)

Module Tactics.

(** Equalities between bit-level expressions, bit by bit. *)
Ltac bits :=
  Z.bitblast; rewrite ?Z.testbit_neg_r by lia; try reflexivity; try btauto.

(** Closes a branch of [execute] that returns or raises without touching
    the log. *)
Ltac untouched :=
  cbn;
  do 4 (split; [reflexivity|]);
  split; [left; reflexivity|];
  let res := fresh "res" in
  let Hres := fresh "Hres" in
  intros res Hres;
  first [ discriminate Hres
        | inversion Hres; subst res; cbn;
          split; [auto|];
          split; [intros _; reflexivity | intros Hs; discriminate Hs] ].

End Tactics.

(** ** Reading tokens, names and addresses back

    What a token, a name or a full address says about the frame it was
    written for, and the digits [format_X] writes. *)

Module Readback.
Import Glyph.

(** Every character of [s] satisfies [p]. *)
Fixpoint all_chars (p : ascii -> bool) (s : string) : bool :=
  match s with
  | EmptyString => true
  | String c s' => p c && all_chars p s'
  end.

(** One of the digits [0-9A-F] *)
Definition is_upper_hex (c : ascii) : bool :=
  match digit_value c with
  | Some d => (d <? 16) && Ascii.eqb c (hex_digit d)
  | None => false
  end.

Definition hex_string (s : string) : bool := all_chars is_upper_hex s.

(** The number a string of hexadecimal digits stands for, after [a] *)
Fixpoint hex_value (s : string) (a : Z) : Z :=
  match s with
  | EmptyString => a
  | String c s' =>
      hex_value s' (a * 16 + match digit_value c with Some d => d | None => 0 end)
  end.

(** The glyph code of a token: its entry in [GLYPH_TOKENS], or the
    hexadecimal number after the [@]. *)
Definition token_code (t : string) : option Z :=
  match name_get t (map (fun kv => (kv.2, kv.1)) GLYPH_TOKENS) with
  | Some c => Some c
  | None => int_of_str 16 (drop_chars 1 t)
  end.

(** The glyph code of a name: its entry in [GLYPH_NAMES], or the
    hexadecimal number after the [G]. *)
Definition name_code (t : string) : option Z :=
  match name_get t (map (fun kv => (kv.2, kv.1)) GLYPH_NAMES) with
  | Some c => Some c
  | None => int_of_str 16 (drop_chars 1 t)
  end.

(** The three fields of an address [D.AAA.GGGG] *)
Definition address_fields (s : string) : option (Z * Z * Z) :=
  match split_char "." s with
  | [d; a; g] =>
      match int_of_str 16 d, int_of_str 16 a, int_of_str 16 g with
      | Some d, Some a, Some g => Some (d, a, g)
      | _, _, _ => None
      end
  | _ => None
  end.

(** What the digit [hex_digit d] is, for [d] in [0,15] *)
Definition digit_facts (d : Z) : bool :=
  let c := hex_digit d in
  is_upper_hex c && bool_decide (digit_value c = Some d)
  && negb (is_space c) && negb (Ascii.eqb c "-") && negb (Ascii.eqb c "+")
  && negb (Ascii.eqb c "_") && negb (Ascii.eqb c "x") && negb (Ascii.eqb c "X")
  && negb (Ascii.eqb c ".").

End Readback.

(** ** Graphs that validate, registries the operations build *)

Module RegistrySpec.
Import Registry.

(** Every [next], [on_true] and [on_false] of the node names a node of
    the graph. *)
Definition refs_resolve (ns : list (string * dict)) (node : dict)
    (ref_keys : list string) : Prop :=
  ∀ key target,
    key ∈ ref_keys -> dict_get key node = Some target ->
    ∃ s, target = VStr s ∧ is_Some (nodes_get s ns).

Definition well_formed (g : ExecutionGraph) : Prop :=
  is_Some (nodes_get "start" (nodes g)) ∧
  Forall (fun kn => refs_resolve (nodes g) kn.2 validated_ref_keys) (nodes g) ∧
  has_exit (nodes g) = true.

(** The end of a validity window that starts at the reading [t] and
    lasts [days] days is a datetime: the days fit a timedelta and the
    date lies between [datetime.min] and [datetime.max]. *)
Definition representable (t days : Z) : Prop :=
  -999999999 <= days <= 999999999 ∧
  datetime_min <= t + timedelta_days days <= datetime_max.

(** A binding sits under its own code, in the bindable range, carries
    the registry's authority and names a registered graph; a revoked
    code has a binding; a graph sits under its own id and validates. *)
Definition consistent (r : Registry) : Prop :=
  (∀ c b, bindings r !! c = Some b ->
          glyph_code b = c ∧ 0x8000 <= c <= 0xFFFE ∧
          b_authority b = authority r ∧ is_Some (graphs r !! b_graph_id b)) ∧
  (∀ c, c ∈ revocations r -> is_Some (bindings r !! c)) ∧
  (∀ gid g, graphs r !! gid = Some g -> graph_id g = gid ∧ validate g = Ret []).

End RegistrySpec.

(** ** Runs of the interpreter *)

Module InterpSpec.
Import Interp.

Section Runs.

Variable W : Type.
Variable py_eval : string -> list (value * value) -> outcome value.
Variable isoformat : Z -> string.

(** Two interpreters that differ in their logs at most *)
Definition same_but_log (a b : Interpreter W) : Prop :=
  registry W a = registry W b ∧ trust W a = trust W b ∧
  actions W a = actions W b ∧ max_iterations W a = max_iterations W b.

(** Frames executed one after the other by one interpreter; the run
    ends at the first call that raises. *)
Fixpoint run (self : Interpreter W) (frames : list Glyph.GlyphFrame)
    (k : clock) (w : W) : list ExecutionResult * Interpreter W * clock * W :=
  match frames with
  | [] => ([], self, k, w)
  | frame :: rest =>
      match execute W py_eval isoformat self frame k w with
      | (Ret r, self', k', w') =>
          let '(rs, self'', k'', w'') := run self' rest k' w' in
          (r :: rs, self'', k'', w'')
      | (Raise e, self', k', w') => ([], self', k', w')
      end
  end.

(** The parameters [_build_context] starts from: the frame context *)
Definition frame_parameters (frame : Glyph.GlyphFrame) : list (value * value) :=
  match Glyph.has_context frame with
  | Some ctx => params_update [] (params_of_dict ctx)
  | None => []
  end.

End Runs.

End InterpSpec.

(** * Properties *)

(** ** Strings *)

Module StringProps.

Lemma append_nil_l (s : string) : "" +:+ s = s.
Proof. reflexivity. Qed.

Lemma append_cons (a : ascii) (s t : string) :
  String a s +:+ t = String a (s +:+ t).
Proof. reflexivity. Qed.

Lemma append_assoc (a b c : string) : (a +:+ b) +:+ c = a +:+ (b +:+ c).
Proof.
  induction a as [|x a IH]; [reflexivity|].
  rewrite !append_cons, IH. reflexivity.
Qed.

Lemma append_nil_r (s : string) : s +:+ "" = s.
Proof.
  induction s as [|x s IH]; [reflexivity|].
  rewrite append_cons, IH. reflexivity.
Qed.

Lemma startswith_append (p s : string) : startswith p (p +:+ s) = true.
Proof.
  induction p as [|x p IH]; [reflexivity|].
  rewrite append_cons. cbn [startswith]. rewrite Ascii.eqb_refl. exact IH.
Qed.

Lemma drop_chars_append (p s : string) :
  drop_chars (String.length p) (p +:+ s) = s.
Proof.
  induction p as [|x p IH]; [reflexivity|].
  rewrite append_cons. cbn [String.length drop_chars]. exact IH.
Qed.

Lemma contains_char_append (c : ascii) (a b : string) :
  contains_char c (a +:+ b) = contains_char c a || contains_char c b.
Proof.
  induction a as [|x a IH]; [reflexivity|].
  rewrite append_cons. cbn [contains_char].
  destruct (Ascii.eqb x c); [reflexivity|exact IH].
Qed.

Lemma split_first_append (c : ascii) (a b : string) :
  contains_char c a = false ->
  split_first c (a +:+ String c b) = (a, b).
Proof.
  induction a as [|x a IH]; intros H.
  - rewrite append_nil_l. cbn [split_first]. rewrite Ascii.eqb_refl. reflexivity.
  - rewrite append_cons. cbn [contains_char] in H. cbn [split_first].
    destruct (Ascii.eqb x c); [discriminate|].
    rewrite (IH H). reflexivity.
Qed.

Lemma split_char_nonempty (c : ascii) (s : string) : split_char c s ≠ [].
Proof.
  induction s as [|x s IH]; cbn [split_char]; [discriminate|].
  destruct (Ascii.eqb x c); [discriminate|].
  destruct (split_char c s); [contradiction|discriminate].
Qed.

Lemma split_char_append (c : ascii) (a b : string) :
  contains_char c a = false ->
  split_char c (a +:+ String c b) = a :: split_char c b.
Proof.
  induction a as [|x a IH]; intros H.
  - rewrite append_nil_l. cbn [split_char]. rewrite Ascii.eqb_refl. reflexivity.
  - rewrite append_cons. cbn [contains_char] in H. cbn [split_char].
    destruct (Ascii.eqb x c); [discriminate|].
    rewrite (IH H). reflexivity.
Qed.

Lemma split_char_absent (c : ascii) (a : string) :
  contains_char c a = false -> split_char c a = [a].
Proof.
  induction a as [|x a IH]; intros H; [reflexivity|].
  cbn [contains_char] in H. cbn [split_char].
  destruct (Ascii.eqb x c); [discriminate|].
  rewrite (IH H). reflexivity.
Qed.

(** Splitting a joined list gives the list back when no part holds the
    separator. *)
Lemma split_char_join (c : ascii) (parts : list string) :
  parts ≠ [] ->
  Forall (fun p => contains_char c p = false) parts ->
  split_char c (join (String c "") parts) = parts.
Proof.
  induction parts as [|p ps IH]; intros Hne Hall; [contradiction|].
  inversion Hall as [|? ? Hp Hps]; subst.
  destruct ps as [|q ps].
  - cbn [join]. apply split_char_absent, Hp.
  - change (join (String c "") (p :: q :: ps))
      with (p +:+ String c "" +:+ join (String c "") (q :: ps)).
    rewrite append_cons, append_nil_l.
    rewrite split_char_append by exact Hp.
    rewrite IH by (discriminate || assumption). reflexivity.
Qed.

Lemma dict_get_app_absent (key : string) (v : value) (d : list (string * value)) :
  dict_get key d = None -> dict_set key v d = (d ++ [(key, v)])%list.
Proof.
  induction d as [|[k' v'] d IH]; intros H; [reflexivity|].
  cbn [dict_get] in H. cbn [dict_set app].
  destruct (String.eqb key k'); [discriminate|].
  rewrite (IH H). reflexivity.
Qed.

Lemma dict_get_app (key : string) (d1 d2 : list (string * value)) :
  dict_get key (d1 ++ d2)%list =
    match dict_get key d1 with Some v => Some v | None => dict_get key d2 end.
Proof.
  induction d1 as [|[k' v'] d1 IH]; [reflexivity|].
  cbn [dict_get app]. destruct (String.eqb key k'); [reflexivity|exact IH].
Qed.

Lemma dict_get_None_iff (key : string) (d : list (string * value)) :
  dict_get key d = None <-> key ∉ map fst d.
Proof.
  induction d as [|[k' v'] d IH]; cbn [dict_get map fst].
  - split; [intros _ H; inversion H|reflexivity].
  - rewrite not_elem_of_cons. destruct (String.eqb_spec key k').
    + split; [discriminate|intros [? _]; contradiction].
    + rewrite IH. tauto.
Qed.

End StringProps.


(** ** Trust verification *)

Module TrustProps.
Import Trust.

Lemma in_window_iff (c : Certificate) (now : Z) :
  in_window c now = true <-> valid_from c <= now <= valid_until c.
Proof. unfold in_window. rewrite andb_true_iff, !Z.leb_le. tauto. Qed.

Lemma eqb_empty_false (s : string) : String.eqb s "" = false <-> s ≠ "".
Proof. destruct (String.eqb_spec s ""); split; congruence. Qed.

(** Two different checks never produce the same reason string, whatever
    the domain and the authority that are printed into it. *)
Lemma failure_reason_distinct (d a d' a' : Z) (c1 c2 : check) (s : string) :
  failure_reason d a c1 s -> failure_reason d' a' c2 s -> c1 = c2.
Proof.
  intros H1 H2.
  destruct H1; inversion H2; try reflexivity;
    unfold unknown_authority_reason, unknown_domain_reason in *;
    cbv [String.append] in *; congruence.
Qed.

Lemma failure_reason_specific (d a : Z) (c : check) (s : string) :
  failure_reason d a c s -> s ≠ "" ∧ s ≠ "Trust chain verified".
Proof.
  intros H; destruct H;
    unfold unknown_authority_reason, unknown_domain_reason;
    cbv [String.append]; split; congruence.
Qed.

(** A valid result names the authority certificate of the pair. *)
Lemma verify_valid_name
    (tv : TrustVerifier) (d a : Z) (sig : string) (k : clock) :
  valid (verify tv d a sig k).1 = true ->
  ∃ ac, authority_certs tv !! (d, a) = Some ac ∧
        authority_name (verify tv d a sig k).1 = name ac.
Proof.
  unfold verify, is_valid, is_expired, utcnow.
  destruct (decide _); [discriminate|].
  destruct (authority_certs tv !! (d, a)) as [ac|]; [|discriminate].
  destruct (negb _).
  { destruct (valid_until ac <? _); discriminate. }
  destruct (domain_certs tv !! d) as [dc|]; [|discriminate].
  repeat (destruct (negb _); [discriminate|]).
  destruct (String.eqb sig ""); [discriminate|].
  intros _. exists ac. split; reflexivity.
Qed.

(** C1. [verify] accepts exactly when all eight conditions hold: the pair
    is not revoked, the authority certificate exists and its window
    contains the clock reading taken for it, the domain certificate
    exists and its window contains the next clock reading, the authority
    certificate is issued by the domain certificate's authority, the
    domain certificate is issued by root (0), and the signature is not
    empty.  On acceptance the result carries the authority certificate's
    name and chain length 2.  The checks run in the listed order: the
    result is decided by the first check that fails, it is invalid, and
    its reason is one that belongs to that check alone. *)
Theorem verify_accepts_iff_all_checks
    (tv : TrustVerifier) (d a : Z) (sig : string) (k : clock) :
  let r := (verify tv d a sig k).1 in
  let t_auth := k 0%nat in
  let t_dom := k 1%nat in
  (valid r = true <->
     ((d, a) ∉ revoked_authorities tv) ∧
     ∃ ac dc,
       authority_certs tv !! (d, a) = Some ac ∧
       valid_from ac <= t_auth <= valid_until ac ∧
       domain_certs tv !! d = Some dc ∧
       valid_from dc <= t_dom <= valid_until dc ∧
       issuer_id ac = authority_id dc ∧
       issuer_id dc = 0 ∧
       sig ≠ "") ∧
  (valid r = true ->
     ∃ ac, authority_certs tv !! (d, a) = Some ac ∧
           authority_name r = name ac ∧ chain_length r = 2) ∧
  match first_failure tv d a sig t_auth t_dom with
  | None => valid r = true
  | Some c =>
      valid r = false ∧ failure_reason d a c (reason r) ∧
      (∀ d' a' c', failure_reason d' a' c' (reason r) -> c' = c)
  end.
Proof.
  cbv zeta. unfold verify, first_failure, is_valid, is_expired, utcnow.
  cbn [List.find checks_in_order passes].
  destruct (decide ((d, a) ∈ revoked_authorities tv)) as [Hrev|Hrev].
  { rewrite bool_decide_eq_false_2 by tauto. cbn.
    repeat split; try discriminate; try tauto; [constructor|].
    intros d' a' c' H. apply (failure_reason_distinct d' a' d a _ _ _ H); constructor. }
  rewrite bool_decide_eq_true_2 by assumption. cbn [negb].
  destruct (authority_certs tv !! (d, a)) as [ac|] eqn:Hac.
  2:{ rewrite bool_decide_eq_false_2 by (intros [? ?]; discriminate). cbn.
      repeat split; try discriminate; [| constructor |].
      - intros (_ & ? & ? & ? & _); discriminate.
      - intros d' a' c' H. apply (failure_reason_distinct d' a' d a _ _ _ H); constructor. }
  rewrite bool_decide_eq_true_2 by eauto. cbn [negb].
  fold (in_window ac (k 0%nat)).
  destruct (in_window ac (k 0%nat)) eqn:Hwa; cbn [negb].
  2:{ assert (~ valid_from ac <= k 0%nat <= valid_until ac) as Hn
        by (rewrite <- in_window_iff; congruence).
      destruct (valid_until ac <? k 1%nat); cbn;
        (repeat split; try discriminate;
         [ intros (_ & ac' & ? & E & ? & _); inversion E; subst; tauto
         | constructor
         | intros d' a' c' H; apply (failure_reason_distinct d' a' d a _ _ _ H);
           constructor ]). }
  apply in_window_iff in Hwa.
  destruct (domain_certs tv !! d) as [dc|] eqn:Hdc.
  2:{ rewrite bool_decide_eq_false_2 by (intros [? ?]; discriminate). cbn.
      repeat split; try discriminate; [| constructor |].
      - intros (_ & ? & ? & _ & _ & ? & _); discriminate.
      - intros d' a' c' H. apply (failure_reason_distinct d' a' d a _ _ _ H); constructor. }
  rewrite bool_decide_eq_true_2 by eauto. cbn [negb].
  fold (in_window dc (k 1%nat)).
  destruct (in_window dc (k 1%nat)) eqn:Hwd; cbn [negb].
  2:{ assert (~ valid_from dc <= k 1%nat <= valid_until dc) as Hn
        by (rewrite <- in_window_iff; congruence).
      cbn. repeat split; try discriminate; [| constructor |].
      - intros (_ & ? & dc' & _ & _ & E & ? & _); inversion E; subst; tauto.
      - intros d' a' c' H. apply (failure_reason_distinct d' a' d a _ _ _ H); constructor. }
  apply in_window_iff in Hwd.
  destruct (issuer_id ac =? authority_id dc) eqn:Hlink; cbn [negb].
  2:{ apply Z.eqb_neq in Hlink.
      cbn. repeat split; try discriminate; [| constructor |].
      - intros (_ & ac' & dc' & E1 & _ & E2 & _ & ? & _).
        inversion E1; inversion E2; subst; tauto.
      - intros d' a' c' H. apply (failure_reason_distinct d' a' d a _ _ _ H); constructor. }
  apply Z.eqb_eq in Hlink.
  destruct (issuer_id dc =? 0) eqn:Hroot; cbn [negb].
  2:{ apply Z.eqb_neq in Hroot.
      cbn. repeat split; try discriminate; [| constructor |].
      - intros (_ & ac' & dc' & _ & _ & E2 & _ & _ & ? & _).
        inversion E2; subst; tauto.
      - intros d' a' c' H. apply (failure_reason_distinct d' a' d a _ _ _ H); constructor. }
  apply Z.eqb_eq in Hroot.
  destruct (String.eqb sig "") eqn:Hsig; cbn [negb].
  { apply String.eqb_eq in Hsig.
    cbn. repeat split; try discriminate; [| constructor |].
    - intros (_ & ? & ? & _ & _ & _ & _ & _ & _ & ?); tauto.
    - intros d' a' c' H. apply (failure_reason_distinct d' a' d a _ _ _ H); constructor. }
  apply eqb_empty_false in Hsig.
  cbn. split; [|split]; [|intros _; exists ac; auto|reflexivity].
  split; [intros _|reflexivity].
  split; [assumption|]. exists ac, dc. auto 10.
Qed.

(** The mock chain of the demo verifies, and stops verifying once the
    authority is revoked. *)
Example mock_chain_verifies :
  (verify (create_mock_trust_chain 1 0x42 "City Traffic Authority") 1 0x42 "sig"
     (const_clock 1793750400000000)).1
  = {| valid := true; reason := "Trust chain verified";
       authority_name := "City Traffic Authority"; chain_length := 2 |}.
Proof. vm_compute. reflexivity. Qed.

Example revoked_authority_is_refused :
  (verify (revoke_authority (create_mock_trust_chain 1 0x42 "City Traffic Authority")
             1 0x42) 1 0x42 "sig" (const_clock 1793750400000000)).1
  = invalid "Authority has been revoked".
Proof. vm_compute. reflexivity. Qed.

Example unknown_authority_is_refused :
  (verify (create_mock_trust_chain 1 0x42 "City Traffic Authority") 1 0x99 "sig"
     (const_clock 1793750400000000)).1
  = invalid "Unknown authority: domain=1, authority=153".
Proof. vm_compute. reflexivity. Qed.

End TrustProps.

(** ** Glyph codec *)

Module GlyphProps.
Import Glyph GlyphSpec Tactics.

Lemma Z_of_byte_of_Z (z : Z) : Z_of_byte (byte_of_Z z) = z mod 256.
Proof.
  unfold Z_of_byte, byte_of_Z.
  assert (Hr : 0 <= z mod 256 < 256) by (apply Z.mod_pos_bound; lia).
  destruct (Byte.of_N (Z.to_N (z mod 256))) as [b|] eqn:Hb.
  - apply Byte.to_of_N in Hb. rewrite Hb. lia.
  - apply Byte.of_N_None_iff in Hb. lia.
Qed.

Lemma unpack_pack_I (x : Z) :
  unpack_I (byte_of_Z (Z.shiftr x 24)) (byte_of_Z (Z.shiftr x 16))
           (byte_of_Z (Z.shiftr x 8)) (byte_of_Z x) = x mod 2 ^ 32.
Proof.
  unfold unpack_I. rewrite !Z_of_byte_of_Z. change 256 with (2 ^ 8). bits.
Qed.

Lemma header_range (d a g : Z) : 0 <= header d a g <= 4294967295.
Proof.
  assert (header d a g = header d a g mod 2 ^ 32) as E.
  { unfold header.
    change 0xF with (Z.ones 4). change 0xFFF with (Z.ones 12).
    change 0xFFFF with (Z.ones 16). rewrite !Z.land_ones by lia. bits. }
  pose proof (Z.mod_pos_bound (header d a g) (2 ^ 32) ltac:(lia)). lia.
Qed.

Lemma header_domain (d a g : Z) :
  Z.land (Z.shiftr (header d a g mod 2 ^ 32) 28) 0xF = d mod 16.
Proof.
  unfold header.
  change 0xF with (Z.ones 4). change 0xFFF with (Z.ones 12).
  change 0xFFFF with (Z.ones 16). rewrite !Z.land_ones by lia.
  change 16 with (2 ^ 4) at 3. bits.
Qed.

Lemma header_authority (d a g : Z) :
  Z.land (Z.shiftr (header d a g mod 2 ^ 32) 16) 0xFFF = a mod 4096.
Proof.
  unfold header.
  change 0xF with (Z.ones 4). change 0xFFF with (Z.ones 12).
  change 0xFFFF with (Z.ones 16). rewrite !Z.land_ones by lia.
  change 4096 with (2 ^ 12). bits.
Qed.

Lemma header_glyph_code (d a g : Z) :
  Z.land (header d a g mod 2 ^ 32) 0xFFFF = g mod 65536.
Proof.
  unfold header.
  change 0xF with (Z.ones 4). change 0xFFF with (Z.ones 12).
  change 0xFFFF with (Z.ones 16). rewrite !Z.land_ones by lia.
  change 65536 with (2 ^ 16). bits.
Qed.

Lemma pack_I_header (d a g : Z) :
  pack_I (header d a g) =
    Ret [byte_of_Z (Z.shiftr (header d a g) 24); byte_of_Z (Z.shiftr (header d a g) 16);
         byte_of_Z (Z.shiftr (header d a g) 8); byte_of_Z (header d a g)].
Proof.
  unfold pack_I. pose proof (header_range d a g) as [H1 H2].
  apply Z.leb_le in H1, H2. rewrite H1, H2. reflexivity.
Qed.

Lemma context_word_range (z p m : Z) : 0 <= context_word z p m <= 4294967295.
Proof.
  assert (context_word z p m = context_word z p m mod 2 ^ 32) as E.
  { unfold context_word. change 0xFF with (Z.ones 8).
    rewrite !Z.land_ones by lia. bits. }
  pose proof (Z.mod_pos_bound (context_word z p m) (2 ^ 32) ltac:(lia)). lia.
Qed.

Lemma context_word_zone (z p m : Z) :
  Z.land (Z.shiftr (context_word z p m mod 2 ^ 32) 24) 0xFF = z mod 256.
Proof.
  unfold context_word. change 0xFF with (Z.ones 8).
  rewrite !Z.land_ones by lia. change 256 with (2 ^ 8). bits.
Qed.

Lemma context_word_priority (z p m : Z) :
  Z.land (Z.shiftr (context_word z p m mod 2 ^ 32) 16) 0xFF = p mod 256.
Proof.
  unfold context_word. change 0xFF with (Z.ones 8).
  rewrite !Z.land_ones by lia. change 256 with (2 ^ 8). bits.
Qed.

Lemma context_word_mode (z p m : Z) :
  Z.land (Z.shiftr (context_word z p m mod 2 ^ 32) 8) 0xFF = m mod 256.
Proof.
  unfold context_word. change 0xFF with (Z.ones 8).
  rewrite !Z.land_ones by lia. change 256 with (2 ^ 8). bits.
Qed.

Lemma mode_name_code (m : string) :
  m ∈ mode_names ->
  ∃ c, mode_code (VStr m) = Ret c ∧ 0 <= c <= 3 ∧ mode_name c = m.
Proof.
  unfold mode_names. rewrite !elem_of_cons, elem_of_nil.
  intros [->|[->|[->|[->|[]]]]]; [exists 0|exists 1|exists 2|exists 3];
    (split; [reflexivity|split; [lia|reflexivity]]).
Qed.

Lemma dict_get_fixed_fields (ctx : dict) (z p : Z) (m : string) :
  ctx ≡ₚ fixed_fields z p m ->
  dict_get "zone" ctx = Some (VInt z) ∧
  dict_get "priority" ctx = Some (VInt p) ∧
  dict_get "mode" ctx = Some (VStr m) ∧
  ∃ kv rest, ctx = kv :: rest.
Proof.
  intros H.
  assert (Hlen : List.length ctx = 3%nat) by (rewrite H; reflexivity).
  destruct ctx as [|x1 [|x2 [|x3 [|x4 rest]]]]; try discriminate Hlen.
  assert (H1 : x1 ∈ fixed_fields z p m) by (rewrite <- H, !elem_of_cons; auto).
  assert (H2 : x2 ∈ fixed_fields z p m) by (rewrite <- H, !elem_of_cons; auto).
  assert (H3 : x3 ∈ fixed_fields z p m) by (rewrite <- H, !elem_of_cons; auto).
  assert (Hnd : NoDup (map fst [x1; x2; x3])).
  { rewrite H. cbn. repeat constructor; rewrite ?elem_of_cons, ?elem_of_nil; intuition discriminate. }
  unfold fixed_fields in H1, H2, H3.
  rewrite !elem_of_cons, elem_of_nil in H1, H2, H3.
  destruct H1 as [->|[->|[->|[]]]], H2 as [->|[->|[->|[]]]],
           H3 as [->|[->|[->|[]]]];
    cbn in Hnd;
    try (exfalso; apply NoDup_cons in Hnd as [Hn Hnd]; apply Hn;
         rewrite !elem_of_cons; auto; fail);
    try (exfalso; apply NoDup_cons in Hnd as [_ Hnd];
         apply NoDup_cons in Hnd as [Hn Hnd]; apply Hn;
         rewrite !elem_of_cons; auto; fail);
    repeat split; try reflexivity; eauto.
Qed.

(** *** The text form *)

Import StringProps.

Lemma domains_ok : forallb domain_ok named_domains = true.
Proof. vm_compute. reflexivity. Qed.

Lemma authorities_ok : forallb authority_ok (seqZ 0 4096) = true.
Proof. vm_compute. reflexivity. Qed.

Lemma tokens_ok : forallb token_ok token_codes = true.
Proof. vm_compute. reflexivity. Qed.

Lemma numbers_ok : forallb number_ok (seqZ 0 256) = true.
Proof. vm_compute. reflexivity. Qed.

Lemma forallb_elem_of {A : Type} (f : A -> bool) (l : list A) (x : A) :
  forallb f l = true -> x ∈ l -> f x = true.
Proof.
  intros H Hx. rewrite forallb_forall in H. apply H, list_elem_of_In, Hx.
Qed.

Lemma authority_in_range (a : Z) : 0 <= a <= 4095 -> authority_ok a = true.
Proof.
  intros H. apply (forallb_elem_of _ _ _ authorities_ok).
  apply elem_of_seqZ. lia.
Qed.

Lemma number_in_range (z : Z) : 0 <= z <= 255 -> number_ok z = true.
Proof.
  intros H. apply (forallb_elem_of _ _ _ numbers_ok).
  apply elem_of_seqZ. lia.
Qed.

Lemma path_safe_spec (s : string) :
  path_safe s = true ->
  contains_char "?" s = false ∧ contains_char "/" s = false ∧
  contains_char "." s = false.
Proof.
  unfold path_safe. rewrite !andb_true_iff, !negb_true_iff. tauto.
Qed.

(** C2. A frame with domain in [0,15], authority in [0,4095], glyph code
    in [0,65535] and no context encodes to four bytes that decode to the
    same frame; with a context that consists of exactly the fixed fields
    [zone] and [priority] in [0,255] and [mode] one of the four mode
    names, it encodes to eight bytes that decode to an equal frame. *)
Theorem decode_encode_roundtrip
    (d a g : Z)
    (Hd : 0 <= d <= 15) (Ha : 0 <= a <= 4095) (Hg : 0 <= g <= 65535) :
  (let f := {| domain := d; authority := a; glyph_code := g; context := None |} in
   ∃ data, encode f = Ret data ∧ List.length data = 4%nat ∧ decode data = Ret f) ∧
  (∀ (ctx : dict) (z p : Z) (m : string),
     ctx ≡ₚ fixed_fields z p m ->
     0 <= z <= 255 -> 0 <= p <= 255 -> m ∈ mode_names ->
     let f := {| domain := d; authority := a; glyph_code := g; context := Some ctx |} in
     ∃ data f',
       encode f = Ret data ∧ List.length data = 8%nat ∧
       decode data = Ret f' ∧ frame_eq f' f).
Proof.
  split.
  - cbv zeta. unfold encode. cbn [has_context context domain authority glyph_code].
    fold (header d a g). rewrite pack_I_header.
    eexists; split; [reflexivity|]. split; [reflexivity|].
    unfold decode. rewrite unpack_pack_I.
    rewrite header_domain, header_authority, header_glyph_code.
    rewrite !Z.mod_small by lia. reflexivity.
  - intros ctx z p m Hctx Hz Hp Hm. cbv zeta.
    destruct (dict_get_fixed_fields ctx z p m Hctx)
      as (Hgz & Hgp & Hgm & kv & rest & ->).
    destruct (mode_name_code m Hm) as (c & Hc & Hcr & Hcm).
    unfold encode. cbn [has_context context domain authority glyph_code].
    fold (header d a g).
    unfold _encode_context. rewrite Hgz, Hgp, Hgm. cbn [py_int]. rewrite Hc.
    fold (context_word z p c).
    rewrite pack_I_header.
    unfold pack_I at 1. pose proof (context_word_range z p c) as [H1 H2].
    apply Z.leb_le in H1, H2. rewrite H1, H2. cbn [andb app].
    eexists _, _. split; [reflexivity|]. split; [reflexivity|].
    unfold decode. rewrite !unpack_pack_I.
    cbn [domain authority glyph_code context].
    rewrite header_domain, header_authority, header_glyph_code.
    unfold _decode_context.
    rewrite context_word_zone, context_word_priority, context_word_mode.
    rewrite !Z.mod_small by lia. rewrite Hcm.
    split; [reflexivity|].
    unfold frame_eq. cbn. repeat split. symmetry. exact Hctx.
Qed.

(** [from_text] reads the three parts of a path back when none of them
    holds a separator. *)
Lemma parse_path_parts (dn an tok : string) :
  path_safe dn = true -> path_safe an = true -> path_safe tok = true ->
  split_char "/" (dn +:+ "." +:+ an +:+ "/" +:+ tok) = [dn +:+ "." +:+ an; tok] ∧
  split_char "." (dn +:+ "." +:+ an) = [dn; an] ∧
  contains_char "?" (dn +:+ "." +:+ an +:+ "/" +:+ tok) = false.
Proof.
  intros Hd Ha Ht.
  apply path_safe_spec in Hd as (Hd1 & Hd2 & Hd3).
  apply path_safe_spec in Ha as (Ha1 & Ha2 & Ha3).
  apply path_safe_spec in Ht as (Ht1 & Ht2 & Ht3).
  split; [|split].
  - replace (dn +:+ "." +:+ an +:+ "/" +:+ tok)
      with ((dn +:+ "." +:+ an) +:+ String "/" tok)
      by (rewrite !append_assoc; reflexivity).
    rewrite split_char_append.
    + rewrite split_char_absent by exact Ht2. reflexivity.
    + rewrite !contains_char_append, Hd2, Ha2. reflexivity.
  - change (dn +:+ "." +:+ an) with (dn +:+ String "." an).
    rewrite split_char_append by exact Hd3.
    rewrite split_char_absent by exact Ha3. reflexivity.
  - rewrite !contains_char_append, Hd1, Ha1, Ht1. reflexivity.
Qed.

Lemma parse_path_to_text (d a g : Z) :
  d ∈ named_domains -> 0 <= a <= 4095 -> g ∈ token_codes ->
  let f := {| domain := d; authority := a; glyph_code := g; context := None |} in
  let path := domain_name d +:+ "." +:+ authority_name a +:+ "/" +:+ to_token f in
  contains_char "?" path = false ∧ parse_path path = Ret (d, a, g).
Proof.
  intros Hd Ha Hg f path.
  pose proof (forallb_elem_of _ _ _ domains_ok Hd) as Hdok.
  pose proof (authority_in_range a Ha) as Haok.
  pose proof (forallb_elem_of _ _ _ tokens_ok Hg) as Hgok.
  unfold domain_ok in Hdok. unfold authority_ok in Haok. unfold token_ok in Hgok.
  rewrite !andb_true_iff in Hdok. rewrite !andb_true_iff in Haok.
  rewrite !andb_true_iff in Hgok.
  destruct Hdok as [Hd1 Hd2], Haok as [[Ha1 Ha2] Ha3], Hgok as [Hg1 Hg2].
  apply bool_decide_eq_true in Hd2, Ha3, Hg2.
  change (to_token {| domain := 0; authority := 0; glyph_code := g; context := None |})
    with (to_token f) in Hg1, Hg2.
  destruct (parse_path_parts _ _ _ Hd1 Ha1 Hg1) as (Hs1 & Hs2 & Hq).
  split; [exact Hq|].
  unfold parse_path. subst path. rewrite Hs1, Hs2.
  cbv zeta. rewrite Hd2, Ha2, Ha3. rewrite Hg2. reflexivity.
Qed.

Lemma fixed_item_facts (kv : string * value) :
  fixed_item kv ->
  contains_char "&" (format_item kv) = false ∧
  split_char "=" (format_item kv) = [kv.1; py_str kv.2] ∧
  match int_of_str 10 (py_str kv.2) with
  | Some z => VInt z
  | None => VStr (py_str kv.2)
  end = kv.2 ∧
  ∃ c rest, format_item kv = String c rest.
Proof.
  destruct kv as [key v]. unfold fixed_item, format_item. cbn [fst snd].
  intros [[Hk (z & -> & Hz)]|[-> (m & -> & Hm)]].
  - pose proof (number_in_range z Hz) as Hok. unfold number_ok in Hok.
    rewrite !andb_true_iff, !negb_true_iff in Hok.
    destruct Hok as [[H1 H2] H3]. apply bool_decide_eq_true in H3.
    change (py_str (VInt z)) with (pretty z).
    rewrite H3.
    rewrite !elem_of_cons, elem_of_nil in Hk.
    destruct Hk as [->|[->|[->|[]]]];
      (split; [rewrite !contains_char_append, H1; reflexivity|]);
      (split; [|split; [reflexivity|eexists _, _; reflexivity]]).
    + change ("zone" +:+ "=" +:+ pretty z) with ("zone" +:+ String "=" (pretty z)).
      rewrite split_char_append by reflexivity.
      rewrite split_char_absent by exact H2. reflexivity.
    + change ("priority" +:+ "=" +:+ pretty z) with ("priority" +:+ String "=" (pretty z)).
      rewrite split_char_append by reflexivity.
      rewrite split_char_absent by exact H2. reflexivity.
    + change ("reserved" +:+ "=" +:+ pretty z) with ("reserved" +:+ String "=" (pretty z)).
      rewrite split_char_append by reflexivity.
      rewrite split_char_absent by exact H2. reflexivity.
  - unfold mode_names in Hm. rewrite !elem_of_cons, elem_of_nil in Hm.
    destruct Hm as [->|[->|[->|[->|[]]]]];
      (repeat split; [reflexivity..|eexists _, _; reflexivity]).
Qed.

(** The loop of [from_text] over the formatted items of a dict rebuilds
    the dict, item by item. *)
Lemma parse_params_items (items acc : list (string * value)) :
  Forall fixed_item items ->
  NoDup (map fst (acc ++ items)%list) ->
  parse_params (map format_item items) acc = Ret (acc ++ items)%list.
Proof.
  revert acc. induction items as [|kv items IH]; intros acc Hall Hnd.
  - cbn. rewrite app_nil_r. reflexivity.
  - inversion Hall as [|? ? Hkv Hrest]; subst.
    destruct (fixed_item_facts kv Hkv) as (_ & Hsplit & Hval & _).
    cbn [map parse_params]. rewrite Hsplit, Hval.
    assert (Habsent : dict_get kv.1 acc = None).
    { apply dict_get_None_iff. rewrite map_app in Hnd.
      apply NoDup_app in Hnd as (_ & Hdisj & _).
      intros Hin. apply (Hdisj _ Hin). cbn. apply elem_of_cons. auto. }
    rewrite dict_get_app_absent by exact Habsent.
    rewrite IH.
    + rewrite <- app_assoc. destruct kv. reflexivity.
    + exact Hrest.
    + rewrite <- app_assoc. destruct kv. exact Hnd.
Qed.

Lemma parse_query_items (ctx : list (string * value)) :
  ctx ≠ [] -> NoDup (map fst ctx) -> Forall fixed_item ctx ->
  let query := join "&" (map format_item ctx) in
  parse_query (Some query) = Ret (Some ctx).
Proof.
  intros Hne Hnd Hall query.
  assert (Hsplit : split_char "&" query = map format_item ctx).
  { apply split_char_join.
    - destruct ctx; [contradiction|discriminate].
    - apply Forall_map. eapply Forall_impl; [exact Hall|].
      intros kv Hkv. apply (fixed_item_facts kv Hkv). }
  assert (Hq : ∃ c rest, query = String c rest).
  { destruct ctx as [|kv rest]; [contradiction|].
    inversion Hall as [|? ? Hkv _]; subst.
    destruct (fixed_item_facts kv Hkv) as (_ & _ & _ & c & r & Hc).
    subst query. cbn [map join]. rewrite Hc.
    destruct (map format_item rest); eexists _, _; reflexivity. }
  destruct Hq as (c & rest & Hq).
  unfold parse_query. rewrite Hq, <- Hq, Hsplit.
  rewrite parse_params_items by assumption. reflexivity.
Qed.



Lemma decode_encode_roundtrip_witness :
  (0 <= 1 <= 15 ∧ 0 <= 0x42 <= 4095 ∧ 0 <= 0x8003 <= 65535) ∧
  (∃ data,
     encode {| domain := 1; authority := 0x42; glyph_code := 0x8003; context := None |}
       = Ret data ∧
     List.length data = 4%nat ∧
     decode data
       = Ret {| domain := 1; authority := 0x42; glyph_code := 0x8003; context := None |}) ∧
  (∃ data f',
     encode {| domain := 1; authority := 0x42; glyph_code := 0x8003;
               context := Some [("mode", VStr "emergency"); ("zone", VInt 7);
                                ("priority", VInt 5)] |} = Ret data ∧
     List.length data = 8%nat ∧
     decode data = Ret f' ∧
     frame_eq f' {| domain := 1; authority := 0x42; glyph_code := 0x8003;
                    context := Some [("mode", VStr "emergency"); ("zone", VInt 7);
                                     ("priority", VInt 5)] |}).
Proof.
  split; [lia|].
  destruct (decode_encode_roundtrip 1 0x42 0x8003 ltac:(lia) ltac:(lia) ltac:(lia))
    as [H4 H8].
  split; [exact H4|].
  apply (H8 _ 7 5 "emergency").
  - unfold fixed_fields.
    apply (Permutation_cons_append [("zone", VInt 7); ("priority", VInt 5)]
             ("mode", VStr "emergency")).
  - lia.
  - lia.
  - unfold mode_names. rewrite !elem_of_cons. auto.
Defined.


End GlyphProps.

(** ** Registry *)

Module RegistryProps.
Import Registry Samples.

Section WithHash.

Variable sha : string -> string.

Lemma register_graph_revocations (r : Registry) (g : ExecutionGraph) :
  revocations (register_graph r g).2 = revocations r.
Proof.
  unfold register_graph.
  destruct (validate g) as [[|e es]|e]; reflexivity.
Qed.

Lemma bind_glyph_revocations (r : Registry) (c : Z) (gid : string) (days : Z)
    (k : clock) :
  revocations (bind_glyph sha r c gid days k).1.2 = revocations r.
Proof.
  unfold bind_glyph.
  destruct (graphs r !! gid); [|reflexivity].
  destruct (negb _); [reflexivity|]. cbn [utcnow].
  destruct (timedelta days) as [delta|err]; [|reflexivity].
  destruct (datetime_add _ delta); reflexivity.
Qed.

(** The end of the window is computed, or [OverflowError] is raised,
    according to whether it is a datetime. *)
Lemma window_end_cases (t days : Z) :
  (RegistrySpec.representable t days ∧
   timedelta days = Ret (timedelta_days days) ∧
   datetime_add t (timedelta_days days) = Ret (t + timedelta_days days)) ∨
  (¬ RegistrySpec.representable t days ∧
   ∃ msg, match timedelta days with
          | Raise e => e = OverflowError msg
          | Ret delta => datetime_add t delta = Raise (OverflowError msg)
          end).
Proof.
  unfold RegistrySpec.representable, timedelta, datetime_add.
  destruct ((-999999999 <=? days) && (days <=? 999999999)) eqn:Hd.
  - apply andb_true_iff in Hd as [D1 D2]. apply Z.leb_le in D1, D2.
    destruct ((datetime_min <=? t + timedelta_days days)
              && (t + timedelta_days days <=? datetime_max)) eqn:Ht.
    + apply andb_true_iff in Ht as [T1 T2]. apply Z.leb_le in T1, T2.
      left. repeat split; assumption.
    + right. split; [|eexists; reflexivity].
      apply andb_false_iff in Ht. intros [_ [T1 T2]].
      destruct Ht as [Ht|Ht]; apply Z.leb_gt in Ht; lia.
  - right. split.
    + apply andb_false_iff in Hd. intros [[D1 D2] _].
      destruct Hd as [Hd|Hd]; apply Z.leb_gt in Hd; lia.
    + destruct ((-2147483648 <=? days) && (days <=? 2147483647));
        eexists; reflexivity.
Qed.

Lemma revoke_revocations (r : Registry) (c : Z) (reason : string) (x : Z) :
  x ∈ revocations r -> x ∈ revocations (revoke r c reason).2.
Proof.
  unfold revoke. destruct (bindings r !! c); cbn; [|auto].
  intros H. apply elem_of_app. auto.
Qed.

(** No operation ever takes a code out of the revocation list. *)
Lemma apply_operation_keeps_revoked (st : Registry * clock) (o : operation) (x : Z) :
  x ∈ revocations st.1 -> x ∈ revocations (apply_operation sha st o).1.
Proof.
  destruct st as [r k]. cbn [fst]. intros H.
  destruct o as [g|c gid days|c reason]; cbn [apply_operation].
  - cbn [fst]. rewrite register_graph_revocations. exact H.
  - pose proof (bind_glyph_revocations r c gid days k) as E.
    destruct (bind_glyph sha r c gid days k) as [[res r'] k'].
    cbn in E |- *. rewrite E. exact H.
  - cbn [fst]. apply revoke_revocations, H.
Qed.

Lemma apply_operations_keep_revoked (os : list operation) (st : Registry * clock)
    (x : Z) :
  x ∈ revocations st.1 -> x ∈ revocations (apply_operations sha st os).1.
Proof.
  revert st. induction os as [|o os IH]; intros st H; [exact H|].
  cbn. apply IH, apply_operation_keeps_revoked, H.
Qed.

Lemma lookup_revoked (r : Registry) (c : Z) (k : clock) :
  c ∈ revocations r -> (lookup r c k).1 = None.
Proof.
  intros H. unfold lookup. rewrite bool_decide_eq_true_2 by exact H. reflexivity.
Qed.

(** C3. Revocation is terminal: once [revoke c] has succeeded on a
    registry, [lookup c] returns [None] in every state that any sequence
    of [register_graph], [bind_glyph] (also of [c] itself) and [revoke]
    calls leads to, at every clock. *)
Theorem revocation_is_terminal
    (r r' : Registry) (c : Z) (reason : string)
    (Hrevoke : revoke r c reason = (Ret tt, r'))
    (os : list operation) (k k' : clock) :
  (lookup (apply_operations sha (r', k) os).1 c k').1 = None.
Proof.
  apply lookup_revoked, apply_operations_keep_revoked. cbn [fst].
  unfold revoke in Hrevoke.
  destruct (bindings r !! c); inversion Hrevoke; subst; cbn.
  apply elem_of_app. right. apply list_elem_of_singleton. reflexivity.
Qed.

(** C8, as the code has it.  With [graph_id] registered, [bind_glyph]
    raises exactly when the code is outside [0x8000, 0xFFFE] or the end
    of the window, [validity_days] days after the second clock reading,
    is not a datetime.  Outside the range the error is the out-of-range
    one, which is not the unknown-graph one; inside the range it is
    [OverflowError]; either way the registry is left as it was.
    Otherwise [bind_glyph] returns a binding and stores it under the
    code; the binding is valid from the first clock reading and until
    [validity_days] days after the second, so that the window is
    [validity_days] days long when the two readings coincide. *)
Theorem bind_glyph_range
    (r : Registry) (g : ExecutionGraph) (c : Z) (gid : string) (days : Z)
    (k : clock)
    (Hgraph : graphs r !! gid = Some g) :
  let '(res, r', _) := bind_glyph sha r c gid days k in
  ((∃ e, res = Raise e) <->
   ¬ (0x8000 <= c <= 0xFFFE) ∨ ¬ RegistrySpec.representable (k 1%nat) days) ∧
  (∀ e, res = Raise e ->
     r' = r ∧
     e ≠ ValueError (graph_not_found_message gid) ∧
     (¬ (0x8000 <= c <= 0xFFFE) -> e = ValueError (out_of_range_message c)) ∧
     (0x8000 <= c <= 0xFFFE -> ∃ msg, e = OverflowError msg)) ∧
  (∀ b, res = Ret b ->
     bindings r' !! c = Some b ∧
     (∀ c', c' ≠ c -> bindings r' !! c' = bindings r !! c') ∧
     glyph_code b = c ∧ b_graph_id b = gid ∧ b_authority b = authority r ∧
     valid_from b = k 0%nat ∧
     valid_until b = k 1%nat + timedelta_days days ∧
     (k 1%nat = k 0%nat -> valid_until b - valid_from b = timedelta_days days)).
Proof.
  unfold bind_glyph. rewrite Hgraph.
  destruct ((0x8000 <=? c) && (c <=? 0xFFFE)) eqn:Hrange; cbn [negb utcnow].
  - apply andb_true_iff in Hrange as [H1 H2].
    apply Z.leb_le in H1, H2.
    destruct (window_end_cases (k 1%nat) days) as [(Hrep & -> & ->)|(Hnrep & msg & Hm)].
    + split; [|split].
      * split; [intros [e He]; discriminate|].
        intros [Hc|Hn]; [lia|contradiction].
      * intros e He; discriminate.
      * intros b Hb. inversion Hb; subst b; clear Hb. cbn.
        rewrite lookup_insert_eq.
        repeat split; try reflexivity.
        -- intros c' Hc'. rewrite lookup_insert_ne by congruence. reflexivity.
        -- intros E. rewrite E. lia.
    + revert Hm.
      destruct (timedelta days) as [delta|err]; intros Hm; [rewrite Hm|subst err].
      all: split; [split; [auto|eauto]|].
      all: split; [|intros b Hb; discriminate].
      all: intros err Herr; inversion Herr; subst err.
      all: split; [reflexivity|]; split; [discriminate|].
      all: split; [intros Hn; lia|]; intros _; eauto.
  - apply andb_false_iff in Hrange.
    assert (Hout : ¬ (0x8000 <= c <= 0xFFFE))
      by (destruct Hrange as [H|H]; apply Z.leb_gt in H; lia).
    split; [|split].
    + split; [auto|eauto].
    + intros e He. inversion He; subst e.
      split; [reflexivity|]. split.
      { unfold out_of_range_message, graph_not_found_message.
        cbv [String.append]. congruence. }
      split; [reflexivity|]. intros Hin. contradiction.
    + intros b Hb; discriminate.
Qed.

(** Without the graph, [bind_glyph] raises the unknown-graph error
    whatever the code is: that check comes first. *)
Lemma bind_glyph_unknown_graph
    (r : Registry) (c : Z) (gid : string) (days : Z) (k : clock) :
  graphs r !! gid = None ->
  bind_glyph sha r c gid days k =
    (Raise (ValueError (graph_not_found_message gid)), r, k).
Proof. intros H. unfold bind_glyph. rewrite H. reflexivity. Qed.

End WithHash.

Example sample_graph_registers :
  (register_graph (new_registry "reg" 1 0x42) sample_graph).1 = Ret "g1".
Proof. reflexivity. Qed.

Example bind_glyph_lower_boundary :
  ∃ b, (bind_glyph sample_sha sample_registry 0x8000 "g1" 365 (const_clock 0)).1.1 = Ret b.
Proof. vm_compute. eauto. Qed.

Example bind_glyph_upper_boundary :
  ∃ b, (bind_glyph sample_sha sample_registry 0xFFFE "g1" 365 (const_clock 0)).1.1 = Ret b.
Proof. vm_compute. eauto. Qed.

Example bind_glyph_below_range :
  ∃ e, (bind_glyph sample_sha sample_registry 0x7FFF "g1" 365 (const_clock 0)).1.1 = Raise e.
Proof. vm_compute. eauto. Qed.

Example bind_glyph_above_range :
  ∃ e, (bind_glyph sample_sha sample_registry 0xFFFF "g1" 365 (const_clock 0)).1.1 = Raise e.
Proof. vm_compute. eauto. Qed.

Lemma revocation_is_terminal_witness :
  revoke bound_registry 0x8001 "" = (Ret tt, (revoke bound_registry 0x8001 "").2) ∧
  (lookup (apply_operations sample_sha
             ((revoke bound_registry 0x8001 "").2, const_clock 0)
             [BindGlyph 0x8001 "g1" 365]).1 0x8001 (const_clock 1)).1 = None.
Proof.
  split; [vm_compute; reflexivity|].
  apply (revocation_is_terminal sample_sha bound_registry _ 0x8001 "").
  vm_compute; reflexivity.
Defined.

Lemma bind_glyph_range_witness :
  graphs sample_registry !! "g1" = Some sample_graph ∧
  ∃ b, (bind_glyph sample_sha sample_registry 0x8001 "g1" 365 (const_clock 7)).1.1
         = Ret b ∧
       valid_from b = 7 ∧ valid_until b - valid_from b = timedelta_days 365.
Proof.
  assert (Hg : graphs sample_registry !! "g1" = Some sample_graph)
    by (vm_compute; reflexivity).
  split; [exact Hg|].
  pose proof (bind_glyph_range sample_sha sample_registry sample_graph 0x8001
                "g1" 365 (const_clock 7) Hg) as H.
  destruct (bind_glyph sample_sha sample_registry 0x8001 "g1" 365 (const_clock 7))
    as [[res r'] k'].
  destruct H as (Hiff & _ & Hok). cbn [fst].
  destruct res as [b|e].
  - exists b. split; [reflexivity|].
    destruct (Hok b eq_refl) as (_ & _ & _ & _ & _ & Hfrom & _ & Hspan).
    split; [exact Hfrom|]. apply Hspan. reflexivity.
  - exfalso. destruct (proj1 Hiff) as [Hc|Hn]; [eauto|lia|].
    apply Hn. unfold RegistrySpec.representable. vm_compute.
    split; split; discriminate.
Defined.

(** A code in the range is refused all the same when the window cannot
    be written down: at 2026-11-04, a validity of 3000000 days ends after
    the year 9999, [datetime] addition raises [OverflowError], and
    nothing is stored. *)
Lemma bind_glyph_overflows :
  graphs sample_registry !! "g1" = Some sample_graph ∧
  0x8000 <= 0x8000 <= 0xFFFE ∧
  bind_glyph sample_sha sample_registry 0x8000 "g1" 3000000 sample_clock
  = (Raise (OverflowError "date value out of range"), sample_registry, sample_clock) ∧
  ¬ ((∃ e, (bind_glyph sample_sha sample_registry 0x8000 "g1" 3000000
              sample_clock).1.1 = Raise e)
     <-> ¬ (0x8000 <= 0x8000 <= 0xFFFE)).
Proof.
  assert (E : bind_glyph sample_sha sample_registry 0x8000 "g1" 3000000 sample_clock
              = (Raise (OverflowError "date value out of range"),
                 sample_registry, sample_clock)) by (vm_compute; reflexivity).
  split; [vm_compute; reflexivity|]. split; [lia|]. split; [exact E|].
  rewrite E. cbn [fst]. intros [H _]. apply H; [eauto|lia].
Qed.

(** What [validate] looks at in a node: [next], [on_true] and [on_false],
    and nothing else. *)
Lemma check_refs_ignores_on_error
    (ns : list (string * dict)) (node_id : string) (node : dict) (target : value)
    (errors : list string) :
  dict_get "on_error" node = None ->
  check_refs ns node_id (node ++ [("on_error", target)])%list validated_ref_keys errors
  = check_refs ns node_id node validated_ref_keys errors.
Proof.
  intros Hnone.
  assert (Hget : ∀ key, String.eqb key "on_error" = false ->
            dict_get key (node ++ [("on_error", target)])%list = dict_get key node).
  { intros key Hkey. induction node as [|[k' v'] node IH]; cbn [dict_get app].
    - rewrite Hkey. reflexivity.
    - cbn [dict_get] in Hnone. destruct (String.eqb key k'); [reflexivity|].
      apply IH. destruct (String.eqb "on_error" k'); [discriminate|exact Hnone]. }
  unfold validated_ref_keys. cbn [check_refs].
  rewrite !Hget by reflexivity. reflexivity.
Qed.

(** C6, at a graph that violates the invariant: the action node [act]
    names the error target [ghost], which is not a node of the graph, yet
    [validate] reports nothing and [register_graph] stores the graph and
    returns its id. *)
Theorem register_graph_accepts_dangling_on_error :
  (∃ node, nodes_get "act" (nodes dangling_on_error_graph) = Some node ∧
           dict_get "on_error" node = Some (VStr "ghost")) ∧
  nodes_get "ghost" (nodes dangling_on_error_graph) = None ∧
  validate dangling_on_error_graph = Ret [] ∧
  (register_graph (new_registry "reg" 1 0x42) dangling_on_error_graph).1 = Ret "g2" ∧
  graphs (register_graph (new_registry "reg" 1 0x42) dangling_on_error_graph).2 !! "g2"
    = Some dangling_on_error_graph.
Proof.
  split; [eexists; split; reflexivity|].
  repeat split; vm_compute; reflexivity.
Qed.

(** The same graph with the dangling name under [next] is rejected. *)
Example register_graph_rejects_dangling_next :
  ∃ msg, (register_graph (new_registry "reg" 1 0x42)
            {| graph_id := "g3"; name := "dangling"; version := "1.0.0";
               domain := "smart_city"; inputs := []; outputs := [];
               nodes := [("start", [("type", VStr "entry"); ("next", VStr "ghost")]);
                         ("done", [("type", VStr "exit")])];
               error_handling := []; constraints := [] |}).1
         = Raise (ValueError msg).
Proof. vm_compute. eauto. Qed.

End RegistryProps.

(** ** Interpreter *)

Module InterpProps.
Import Interp Samples Tactics.

Section WithWorld.

Variable W : Type.
Variable py_eval : string -> list (value * value) -> outcome value.
Variable isoformat : Z -> string.

#[local] Abbreviation loop_body := (loop_body W py_eval).
#[local] Abbreviation walk := (walk W py_eval).
#[local] Abbreviation iterate := (iterate W py_eval).
#[local] Abbreviation _execute_graph := (_execute_graph W py_eval).
#[local] Abbreviation _evaluate_condition := (_evaluate_condition py_eval).
#[local] Abbreviation execute := (execute W py_eval isoformat).

(** *** The graph walk *)

(** An iteration that goes on has recorded exactly one node. *)
Lemma loop_body_continue_trace
    (self : Interpreter W) (graph : Registry.ExecutionGraph)
    (s s' : walk_state W) :
  loop_body self graph s = Continue W s' ->
  trace W s' = (trace W s ++ [py_str (current_node W s)])%list.
Proof.
  unfold Interp.loop_body. intros H.
  destruct (Registry.nodes_lookup _ _) as [[node|]|e]; try discriminate.
  destruct (eq_str _ "entry"); [inversion H; reflexivity|].
  destruct (eq_str _ "exit").
  { destruct (_resolve_outputs _ _); discriminate. }
  destruct (eq_str _ "action").
  { destruct (_execute_action _ _ _ _ _) as [[result|e] w].
    - inversion H; reflexivity.
    - destruct (is_Exception e); [|discriminate].
      destruct (dict_get "on_error" node); [inversion H; reflexivity|discriminate]. }
  destruct (eq_str _ "condition"); [|discriminate].
  destruct (Interp._evaluate_condition _ _ _) as [[|]|e];
    [inversion H; reflexivity..|discriminate].
Qed.

(** An iteration that returns has recorded at most one node. *)
Lemma loop_body_return_trace
    (self : Interpreter W) (graph : Registry.ExecutionGraph)
    (s : walk_state W) (r : walk_result) (w : W) :
  loop_body self graph s = Return W r w ->
  (List.length (w_trace r) <= S (List.length (trace W s)))%nat.
Proof.
  unfold Interp.loop_body. intros H.
  destruct (Registry.nodes_lookup _ _) as [[node|]|e]; try discriminate.
  2:{ inversion H; subst; cbn. lia. }
  destruct (eq_str _ "entry"); [discriminate|].
  destruct (eq_str _ "exit").
  { destruct (_resolve_outputs _ _); inversion H; subst; cbn.
    rewrite length_app. cbn. lia. }
  destruct (eq_str _ "action").
  { destruct (_execute_action _ _ _ _ _) as [[result|e] w0]; [discriminate|].
    destruct (is_Exception e); [|discriminate].
    destruct (dict_get "on_error" node); discriminate. }
  destruct (eq_str _ "condition").
  { destruct (Interp._evaluate_condition _ _ _) as [[|]|e]; discriminate. }
  inversion H; subst; cbn. rewrite length_app. cbn. lia.
Qed.

Lemma iterate_trace_length
    (self : Interpreter W) (graph : Registry.ExecutionGraph) (n : nat) :
  ∀ s s', iterate self graph n s = Some s' ->
          List.length (trace W s') = (List.length (trace W s) + n)%nat.
Proof.
  induction n as [|n IH]; intros s s' H; cbn in H.
  - inversion H; subst. lia.
  - destruct (loop_body self graph s) as [s1| |] eqn:Hb; try discriminate.
    rewrite (IH _ _ H). rewrite (loop_body_continue_trace _ _ _ _ Hb).
    rewrite length_app. cbn. lia.
Qed.

(** The loop is its body iterated: it stops at the first iteration that
    does not go on, and after [n] iterations at the latest. *)
Lemma walk_iterate
    (self : Interpreter W) (graph : Registry.ExecutionGraph) (n : nat) :
  ∀ s,
    (∃ k s', (k < n)%nat ∧ iterate self graph k s = Some s' ∧
       ((∃ r w, loop_body self graph s' = Return W r w ∧
                walk self graph n s = (Ret r, w)) ∨
        (∃ e w, loop_body self graph s' = Throw W e w ∧
                walk self graph n s = (Raise e, w)))) ∨
    (∃ s', iterate self graph n s = Some s' ∧
       walk self graph n s =
         (Ret (walk_failed max_iterations_message (trace W s')), world W s')).
Proof.
  induction n as [|n IH]; intros s.
  - right. exists s. split; reflexivity.
  - cbn [Interp.walk Interp.iterate].
    destruct (loop_body self graph s) as [s1|r w|e w] eqn:Hb.
    + destruct (IH s1) as [(k & s' & Hk & Hit & Hend)|(s' & Hit & Hend)].
      * left. exists (S k), s'. split; [lia|]. split; [cbn; rewrite Hb; exact Hit|].
        exact Hend.
      * right. exists s'. split; assumption.
    + left. exists 0%nat, s. split; [lia|]. split; [reflexivity|].
      left. exists r, w. split; [exact Hb|reflexivity].
    + left. exists 0%nat, s. split; [lia|]. split; [reflexivity|].
      right. exists e, w. split; [exact Hb|reflexivity].
Qed.

(** When the first [n] iterations all go on, the loop ends in the
    max-iterations failure. *)
Lemma walk_exhausted
    (self : Interpreter W) (graph : Registry.ExecutionGraph) (n : nat) :
  ∀ s s', iterate self graph n s = Some s' ->
    walk self graph n s =
      (Ret (walk_failed max_iterations_message (trace W s')), world W s').
Proof.
  induction n as [|n IH]; intros s s' H; cbn in H |- *.
  - inversion H; subst. reflexivity.
  - destruct (Interp.loop_body W py_eval self graph s); try discriminate.
    apply IH, H.
Qed.

Lemma walk_trace_bound
    (self : Interpreter W) (graph : Registry.ExecutionGraph) (n : nat) :
  ∀ s r w, walk self graph n s = (Ret r, w) ->
    (List.length (w_trace r) <= List.length (trace W s) + n)%nat.
Proof.
  induction n as [|n IH]; intros s r w H; cbn in H.
  - inversion H; subst. cbn. lia.
  - destruct (Interp.loop_body W py_eval self graph s) as [s1|r1 w1|e w1] eqn:Hb.
    + apply IH in H. rewrite (loop_body_continue_trace _ _ _ _ Hb) in H.
      rewrite length_app in H. cbn in H. lia.
    + inversion H; subst. apply loop_body_return_trace in Hb. lia.
    + discriminate.
Qed.


(** A walk that never leaves its cycle: the two entry nodes of
    [cyclic_graph] are visited in turn until the cap. *)
Example cyclic_graph_hits_cap (ctx : ExecutionContext) (w : W) :
  ∃ r, _execute_graph (interpreter_for W cyclic_graph 0x8001) cyclic_graph ctx w
         = (Ret r, w) ∧
       w_status r = "failed" ∧ w_error r = Some max_iterations_message ∧
       List.length (w_trace r) = 100%nat.
Proof. eexists. split; [vm_compute; reflexivity|]. repeat split. Qed.

(** *** Conditions *)

(** On a string expression, with an evaluator that raises nothing
    outside [Exception], [_evaluate_condition] returns a boolean. *)
Lemma evaluate_condition_total_on_strings
    (node : list (string * value)) (ctx : ExecutionContext) (e : string) :
  dict_get_default "expression" (VStr "true") node = VStr e ->
  (∀ s env ex, py_eval s env = Raise ex -> is_Exception ex = true) ->
  ∃ b, _evaluate_condition node ctx = Ret b.
Proof.
  intros He Hex. unfold Interp._evaluate_condition. rewrite He.
  destruct (eq_str (VStr e) "true"); [eauto|].
  destruct (eq_str (VStr e) "false"); [eauto|].
  assert (Hrep : ∀ ps x, ∃ x', replace_references ps (VStr x) = Ret (VStr x')).
  { induction ps as [|[param v] ps IH]; intros x; cbn; eauto. }
  destruct (Hrep (parameters ctx) e) as [e' ->].
  destruct (py_eval e' _) as [v|ex] eqn:Hev; [eauto|].
  rewrite (Hex _ _ _ Hev). eauto.
Qed.

(** C10, at a condition whose expression is not a string.  With the
    expression 5 and one parameter in the context, the substitution of
    the parameter references calls [replace] on the number before the
    guarded evaluation is reached: [_evaluate_condition] raises
    [AttributeError] instead of returning [False], and the execution that
    walks into this node ends as failed, not on the [on_false] branch. *)
Theorem evaluate_condition_raises_on_number (w : W) :
  _evaluate_condition numeric_condition_node
    {| parameters := [(VStr "priority", VInt 5)]; system := []; node_results := [] |}
  = Raise (AttributeError "'int' object has no attribute 'replace'") ∧
  (execute (interpreter_for W numeric_condition_graph 0x8001)
     (frame_for 0x8001 (Some [("priority", VInt 5)])) sample_clock w).1.1.1
  = Ret {| status := "failed"; outputs := []; execution_time_ms := 0;
           node_trace := [];
           error := Some "'int' object has no attribute 'replace'" |}.
Proof. split; vm_compute; reflexivity. Qed.

(** Without parameters the same node takes the [on_false] branch. *)
Example numeric_condition_without_parameters (w : W) :
  _evaluate_condition numeric_condition_node
    {| parameters := []; system := []; node_results := [] |} = Ret false.
Proof. reflexivity. Qed.

(** *** The pipeline *)

(** C4, at a graph with an input declaration that has no name.  The
    lookup [input_def['name']] raises [KeyError], the context stage
    catches [ValueError] only, and the exception leaves [execute]: no
    [ExecutionResult] is returned. *)
Theorem execute_raises_on_nameless_input (w : W) :
  (Registry.register_graph (Registry.new_registry "reg" 1 0x42) nameless_input_graph).1
    = Ret "g4" ∧
  (execute (interpreter_for W nameless_input_graph 0x8001)
     (frame_for 0x8001 None) sample_clock w).1.1.1
  = Raise (KeyError "name").
Proof. split; vm_compute; reflexivity. Qed.

(** The same frame on a graph whose declarations are named runs to
    success. *)
Example execute_sample_graph (w : W) :
  ∃ r, (execute (interpreter_for W sample_graph 0x8001)
          (frame_for 0x8001 None) sample_clock w).1.1.1 = Ret r ∧
       status r = "success" ∧ node_trace r = ["start"; "done"].
Proof. eexists. split; [vm_compute; reflexivity|]. split; reflexivity. Qed.


End WithWorld.


End InterpProps.

(** * Further properties *)

(** ** Trust store *)

Module TrustMore.
Import Trust.

Lemma trust_operation_keeps_revoked (tv : TrustVerifier) (o : operation) (p : Z * Z) :
  p ∈ revoked_authorities tv -> p ∈ revoked_authorities (apply_operation tv o).
Proof.
  intros H. destruct o as [cert|cert|d a]; cbn; [exact H..|].
  apply elem_of_union. right. exact H.
Qed.

Lemma trust_operations_keep_revoked (os : list operation) (tv : TrustVerifier)
    (p : Z * Z) :
  p ∈ revoked_authorities tv -> p ∈ revoked_authorities (apply_operations tv os).
Proof.
  revert tv. induction os as [|o os IH]; intros tv H; [exact H|].
  cbn. apply IH, trust_operation_keeps_revoked, H.
Qed.

(** X1. Revoking an authority is final: whatever certificates are added and
    whatever else is revoked afterwards, [verify] refuses the pair with
    the reason "Authority has been revoked", without reading the clock. *)
Theorem authority_revocation_is_terminal
    (tv : TrustVerifier) (d a : Z) (os : list operation) (sig : string) (k : clock) :
  verify (apply_operations (revoke_authority tv d a) os) d a sig k
  = (invalid "Authority has been revoked", k).
Proof.
  unfold verify.
  destruct (decide _) as [_|Hn]; [reflexivity|].
  exfalso. apply Hn, trust_operations_keep_revoked. cbn.
  apply elem_of_union. left. apply elem_of_singleton. reflexivity.
Qed.

(** X2. The mock chain accepts its own authority, with any signature that
    is not empty, while the clock is inside the two certificate windows
    (2024-01-01 to 2028-12-31 for the authority, to 2030-12-31 for the
    domain), and reports the authority's name; it knows no other
    authority of the domain. *)
Theorem mock_chain_accepts_its_authority
    (d a : Z) (authority_name : string) (sig : string) (k : clock)
    (Hsig : sig ≠ "")
    (Hauth : date_2024_01_01 <= k 0%nat <= date_2028_12_31)
    (Hdom : date_2024_01_01 <= k 1%nat <= date_2030_12_31) :
  (verify (create_mock_trust_chain d a authority_name) d a sig k).1
  = {| valid := true; reason := "Trust chain verified";
       authority_name := authority_name; chain_length := 2 |} ∧
  ∀ a', a' ≠ a ->
    (verify (create_mock_trust_chain d a authority_name) d a' sig k).1
    = invalid (unknown_authority_reason d a').
Proof.
  unfold create_mock_trust_chain, verify, add_authority_certificate,
    add_domain_certificate, new_verifier.
  cbn [revoked_authorities authority_certs domain_certs].
  split.
  - destruct (decide _) as [Hin|_]; [apply elem_of_empty in Hin; contradiction|].
    cbn [domain authority_id]. rewrite !lookup_insert_eq.
    unfold is_valid, utcnow.
    cbn [valid_from valid_until issuer_id authority_id name].
    destruct Hauth as [H1 H2], Hdom as [H3 H4].
    apply Z.leb_le in H1, H2, H3, H4. rewrite H1, H2, H3, H4. cbn.
    apply TrustProps.eqb_empty_false in Hsig. rewrite Hsig. reflexivity.
  - intros a' Ha'.
    destruct (decide _) as [Hin|_]; [apply elem_of_empty in Hin; contradiction|].
    cbn [domain authority_id]. rewrite lookup_insert_ne by congruence.
    rewrite lookup_empty. reflexivity.
Qed.

Lemma mock_chain_accepts_its_authority_witness :
  ("sig" ≠ "" ∧
   date_2024_01_01 <= const_clock 1793750400000000 0%nat <= date_2028_12_31 ∧
   date_2024_01_01 <= const_clock 1793750400000000 1%nat <= date_2030_12_31) ∧
  (verify (create_mock_trust_chain 1 0x42 "City Traffic Authority") 1 0x42 "sig"
     (const_clock 1793750400000000)).1
  = {| valid := true; reason := "Trust chain verified";
       authority_name := "City Traffic Authority"; chain_length := 2 |}.
Proof.
  assert (H1 : "sig" ≠ "") by discriminate.
  assert (H2 : date_2024_01_01 <= const_clock 1793750400000000 0%nat <= date_2028_12_31)
    by (vm_compute; split; discriminate).
  assert (H3 : date_2024_01_01 <= const_clock 1793750400000000 1%nat <= date_2030_12_31)
    by (vm_compute; split; discriminate).
  split; [auto|].
  exact (proj1 (mock_chain_accepts_its_authority 1 0x42 "City Traffic Authority"
                  "sig" (const_clock 1793750400000000) H1 H2 H3)).
Defined.

(** A valid result has both certificates behind it. *)
Lemma verify_valid_certificates
    (tv : TrustVerifier) (d a : Z) (sig : string) (k : clock) :
  valid (verify tv d a sig k).1 = true ->
  ∃ ac dc, authority_certs tv !! (d, a) = Some ac ∧ domain_certs tv !! d = Some dc ∧
           issuer_id ac = authority_id dc ∧ issuer_id dc = 0 ∧
           chain_length (verify tv d a sig k).1 = 2.
Proof.
  unfold verify, is_valid, is_expired, utcnow.
  destruct (decide _); [discriminate|].
  destruct (authority_certs tv !! (d, a)) as [ac|]; [|discriminate].
  destruct (negb _).
  { destruct (valid_until ac <? _); discriminate. }
  destruct (domain_certs tv !! d) as [dc|]; [|discriminate].
  destruct (negb _); [discriminate|].
  destruct (issuer_id ac =? authority_id dc) eqn:H1; cbn [negb]; [|discriminate].
  destruct (issuer_id dc =? 0) eqn:H2; cbn [negb]; [|discriminate].
  destruct (String.eqb sig ""); [discriminate|].
  intros _. exists ac, dc. apply Z.eqb_eq in H1, H2. auto.
Qed.

(** What a valid result says about the verifier and the clock: two
    readings were taken, one for each window. *)
Lemma verify_valid_facts
    (tv : TrustVerifier) (d a : Z) (sig : string) (k : clock) :
  valid (verify tv d a sig k).1 = true ->
  ((d, a) ∉ revoked_authorities tv) ∧ sig ≠ "" ∧
  (verify tv d a sig k).2 = (fun n => k (S (S n))) ∧
  ∃ ac dc, authority_certs tv !! (d, a) = Some ac ∧ domain_certs tv !! d = Some dc ∧
           valid_from ac <= k 0%nat <= valid_until ac ∧
           valid_from dc <= k 1%nat <= valid_until dc.
Proof.
  unfold verify, is_valid, is_expired, utcnow.
  destruct (decide _) as [|Hnr]; [discriminate|].
  destruct (authority_certs tv !! (d, a)) as [ac|]; [|discriminate].
  destruct ((valid_from ac <=? k 0%nat) && (k 0%nat <=? valid_until ac)) eqn:Ha;
    cbn [negb].
  2:{ destruct (valid_until ac <? _); discriminate. }
  destruct (domain_certs tv !! d) as [dc|]; [|discriminate].
  destruct ((valid_from dc <=? k 1%nat) && (k 1%nat <=? valid_until dc)) eqn:Hd;
    cbn [negb]; [|discriminate].
  repeat (destruct (negb _); [discriminate|]).
  destruct (String.eqb sig "") eqn:Hs; [discriminate|].
  intros _. apply andb_true_iff in Ha as [A1 A2], Hd as [D1 D2].
  apply Z.leb_le in A1, A2, D1, D2.
  split; [exact Hnr|]. split; [apply TrustProps.eqb_empty_false, Hs|].
  split; [reflexivity|]. exists ac, dc. auto.
Qed.

Lemma verify_revoked (tv : TrustVerifier) (d a : Z) (sig : string) (k : clock) :
  (d, a) ∈ revoked_authorities tv ->
  verify tv d a sig k = (invalid "Authority has been revoked", k).
Proof.
  intros H. unfold verify. destruct (decide _); [reflexivity|contradiction].
Qed.

(** X3. When [verify] accepts, [get_authority_chain] returns exactly the two
    certificates that were checked, the authority's first, linked by
    issuer, and the chain length of the result is the length of that
    chain. *)
Theorem valid_result_matches_chain
    (tv : TrustVerifier) (d a : Z) (sig : string) (k : clock)
    (Hvalid : valid (verify tv d a sig k).1 = true) :
  ∃ ac dc,
    get_authority_chain tv d a = [ac; dc] ∧
    authority_certs tv !! (d, a) = Some ac ∧ domain_certs tv !! d = Some dc ∧
    issuer_id ac = authority_id dc ∧ issuer_id dc = 0 ∧
    chain_length (verify tv d a sig k).1
      = Z.of_nat (List.length (get_authority_chain tv d a)).
Proof.
  destruct (verify_valid_certificates tv d a sig k Hvalid)
    as (ac & dc & Hac & Hdc & Hl & Hr & Hlen).
  exists ac, dc. unfold get_authority_chain. rewrite Hac, Hdc, Hlen.
  repeat split; assumption.
Qed.

Lemma valid_result_matches_chain_witness :
  valid (verify (create_mock_trust_chain 1 0x42 "City Traffic Authority") 1 0x42
           "sig" (const_clock 1793750400000000)).1 = true ∧
  List.length (get_authority_chain
                 (create_mock_trust_chain 1 0x42 "City Traffic Authority") 1 0x42)
  = 2%nat.
Proof.
  assert (H : valid (verify (create_mock_trust_chain 1 0x42 "City Traffic Authority")
                       1 0x42 "sig" (const_clock 1793750400000000)).1 = true)
    by (vm_compute; reflexivity).
  split; [exact H|].
  destruct (valid_result_matches_chain _ _ _ _ _ H) as (ac & dc & -> & _).
  reflexivity.
Defined.

(** X4. Certificates and revocations of other pairs do not matter: adding an
    authority certificate for another (domain, authority) pair, adding a
    domain certificate for another domain, or revoking another pair
    leaves the result of [verify] for this pair as it was. *)
Theorem verify_ignores_other_pairs
    (tv : TrustVerifier) (d a : Z) (sig : string) (k : clock) (o : operation)
    (Hother :
       match o with
       | AddDomainCertificate cert => domain cert ≠ d
       | AddAuthorityCertificate cert => (domain cert, authority_id cert) ≠ (d, a)
       | RevokeAuthority d' a' => (d', a') ≠ (d, a)
       end) :
  verify (apply_operation tv o) d a sig k = verify tv d a sig k.
Proof.
  destruct o as [cert|cert|d' a']; unfold verify; cbn.
  - rewrite lookup_insert_ne by exact Hother. reflexivity.
  - rewrite lookup_insert_ne by exact Hother. reflexivity.
  - destruct (decide ((d, a) ∈ {[(d', a')]} ∪ revoked_authorities tv)) as [H1|H1],
             (decide ((d, a) ∈ revoked_authorities tv)) as [H2|H2];
      try reflexivity; exfalso.
    + apply elem_of_union in H1 as [H1|H1]; [|contradiction].
      apply elem_of_singleton in H1. congruence.
    + apply H1, elem_of_union. right. exact H2.
Qed.

Lemma verify_ignores_other_pairs_witness :
  (1, 0x99) ≠ (1, 0x42) ∧
  (verify (apply_operation (create_mock_trust_chain 1 0x42 "City Traffic Authority")
             (RevokeAuthority 1 0x99)) 1 0x42 "sig" (const_clock 1793750400000000)).1
  = (verify (create_mock_trust_chain 1 0x42 "City Traffic Authority") 1 0x42 "sig"
       (const_clock 1793750400000000)).1.
Proof.
  assert (H : (1, 0x99) ≠ (1, 0x42)) by discriminate.
  split; [exact H|].
  rewrite (verify_ignores_other_pairs
             (create_mock_trust_chain 1 0x42 "City Traffic Authority") 1 0x42 "sig"
             (const_clock 1793750400000000) (RevokeAuthority 1 0x99) H).
  reflexivity.
Defined.

(** X5. With a steady clock and an authority certificate on file for a pair
    that is not revoked, the two window reasons tell the two sides of
    the window apart: "expired" is reported exactly after [valid_until],
    "not yet valid" exactly before [valid_from] (and not after
    [valid_until]). *)
Theorem window_reasons
    (tv : TrustVerifier) (d a : Z) (sig : string) (t : Z) (ac : Certificate)
    (Hrev : (d, a) ∉ revoked_authorities tv)
    (Hac : authority_certs tv !! (d, a) = Some ac) :
  let r := (verify tv d a sig (const_clock t)).1 in
  (reason r = "Authority certificate expired" <-> valid_until ac < t) ∧
  (reason r = "Authority certificate not yet valid"
     <-> t < valid_from ac ∧ t <= valid_until ac).
Proof.
  cbv zeta. unfold verify, is_valid, is_expired, utcnow, const_clock.
  destruct (decide _) as [Hin|_]; [contradiction|]. rewrite Hac.
  destruct ((valid_from ac <=? t) && (t <=? valid_until ac)) eqn:Hw; cbn [negb].
  - apply andb_true_iff in Hw as [H1 H2]. apply Z.leb_le in H1, H2.
    destruct (domain_certs tv !! d) as [dc|].
    2:{ cbn. unfold unknown_domain_reason. cbv [String.append].
        split; (split; [intros H; discriminate H|lia]). }
    repeat (destruct (negb _);
            [cbn; split; (split; [intros H; discriminate H|lia])|]).
    destruct (String.eqb sig "");
      cbn; split; (split; [intros H; discriminate H|lia]).
  - apply andb_false_iff in Hw.
    destruct (valid_until ac <? t) eqn:He; cbn.
    + apply Z.ltb_lt in He. split; (split; [intros H; try discriminate H; lia|]).
      * reflexivity.
      * lia.
    + apply Z.ltb_ge in He.
      assert (t < valid_from ac)
        by (destruct Hw as [Hw|Hw]; apply Z.leb_gt in Hw; lia).
      split; (split; [intros H'; try discriminate H'; lia|]).
      * lia.
      * reflexivity.
Qed.

Lemma window_reasons_witness :
  let tv := create_mock_trust_chain 1 0x42 "City Traffic Authority" in
  (((1, 0x42) ∉ revoked_authorities tv) ∧
   is_Some (authority_certs tv !! (1, 0x42))) ∧
  reason (verify tv 1 0x42 "sig" (const_clock 0)).1
  = "Authority certificate not yet valid".
Proof.
  cbv zeta.
  assert (H1 : (1, 0x42) ∉ revoked_authorities
                 (create_mock_trust_chain 1 0x42 "City Traffic Authority"))
    by (cbn; apply not_elem_of_empty).
  assert (H2 : ∃ ac, authority_certs
                       (create_mock_trust_chain 1 0x42 "City Traffic Authority")
                     !! (1, 0x42) = Some ac ∧ 0 < valid_from ac ∧ 0 <= valid_until ac).
  { eexists. split; [cbn; apply lookup_insert_eq|]. cbn. split; [reflexivity|discriminate]. }
  destruct H2 as (ac & Hac & Hfrom & Huntil).
  split; [split; [exact H1|rewrite Hac; eauto]|].
  apply (window_reasons _ 1 0x42 "sig" 0 ac H1 Hac). split; assumption.
Defined.

End TrustMore.

(** ** Hexadecimal digits: what [format_X] writes, [int(_, 16)] reads *)

Module HexProps.
Import Readback StringProps.

Lemma digits_ok : forallb digit_facts (seqZ 0 16) = true.
Proof. vm_compute. reflexivity. Qed.

Lemma digit_ok (d : Z) : 0 <= d < 16 -> digit_facts d = true.
Proof.
  intros H. apply (GlyphProps.forallb_elem_of _ _ _ digits_ok).
  apply elem_of_seqZ. lia.
Qed.

Lemma upper_hex_digit (c : ascii) :
  is_upper_hex c = true -> ∃ d, 0 <= d < 16 ∧ c = hex_digit d ∧ digit_value c = Some d.
Proof.
  unfold is_upper_hex. destruct (digit_value c) as [d|] eqn:E; [|discriminate].
  rewrite andb_true_iff. intros [H1 H2].
  apply Z.ltb_lt in H1. apply Ascii.eqb_eq in H2.
  exists d. split; [|auto].
  split; [|exact H1].
  unfold digit_value in E.
  repeat match type of E with
         | (if ?b then _ else _) = _ => destruct b eqn:?; [inversion E; lia|]
         end.
  discriminate.
Qed.

Lemma digit_unpack (d : Z) :
  0 <= d < 16 ->
  let c := hex_digit d in
  is_upper_hex c = true ∧ digit_value c = Some d ∧ is_space c = false ∧
  Ascii.eqb c "-" = false ∧ Ascii.eqb c "+" = false ∧ Ascii.eqb c "_" = false ∧
  Ascii.eqb c "x" = false ∧ Ascii.eqb c "X" = false ∧ Ascii.eqb c "." = false.
Proof.
  intros H. pose proof (digit_ok d H) as F. unfold digit_facts in F.
  rewrite !andb_true_iff, !negb_true_iff in F.
  destruct F as [[[[[[[[F1 F2] F3] F4] F5] F6] F7] F8] F9].
  apply bool_decide_eq_true in F2. cbv zeta. tauto.
Qed.

Lemma all_chars_app (p : ascii -> bool) (s t : string) :
  all_chars p (s +:+ t) = all_chars p s && all_chars p t.
Proof.
  induction s as [|c s IH]; [reflexivity|].
  rewrite append_cons. cbn [all_chars]. rewrite IH, andb_assoc. reflexivity.
Qed.

Lemma all_chars_impl (p q : ascii -> bool) (s : string) :
  (∀ c, p c = true -> q c = true) -> all_chars p s = true -> all_chars q s = true.
Proof.
  intros Hpq. induction s as [|c s IH]; [reflexivity|].
  cbn. rewrite !andb_true_iff. intros [H1 H2]. auto.
Qed.

Lemma all_chars_absent (p : ascii -> bool) (c : ascii) (s : string) :
  p c = false -> all_chars p s = true -> contains_char c s = false.
Proof.
  intros Hc. induction s as [|a s IH]; [reflexivity|].
  cbn. rewrite andb_true_iff. intros [H1 H2].
  destruct (Ascii.eqb a c) eqn:E; [|auto].
  apply Ascii.eqb_eq in E. congruence.
Qed.

Lemma lstrip_no_space (s : string) :
  all_chars (fun c => negb (is_space c)) s = true -> lstrip s = s.
Proof.
  destruct s as [|c s]; [reflexivity|]. cbn. rewrite andb_true_iff, negb_true_iff.
  intros [-> _]. reflexivity.
Qed.

Lemma rstrip_no_space (s : string) :
  all_chars (fun c => negb (is_space c)) s = true -> rstrip s = s.
Proof.
  induction s as [|c s IH]; [reflexivity|].
  cbn. rewrite andb_true_iff, negb_true_iff. intros [Hc Hs].
  rewrite (IH Hs), Hc. destruct s; reflexivity.
Qed.

Lemma hex_go_app (fuel : nat) (n : Z) (acc : string) :
  hex_go fuel n acc = hex_go fuel n "" +:+ acc.
Proof.
  revert n acc. induction fuel as [|fuel IH]; intros n acc; [reflexivity|].
  cbn [hex_go]. destruct (n <? 16); [reflexivity|].
  rewrite IH, (IH _ (String _ "")), append_assoc. reflexivity.
Qed.

Lemma hex_go_hex (fuel : nat) (n : Z) (acc : string) :
  hex_string acc = true -> hex_string (hex_go fuel n acc) = true.
Proof.
  revert n acc. induction fuel as [|fuel IH]; intros n acc Hacc; [exact Hacc|].
  cbn [hex_go].
  assert (Hc : hex_string (String (hex_digit (n mod 16)) acc) = true).
  { unfold hex_string. cbn [all_chars]. apply andb_true_iff. split; [|exact Hacc].
    apply digit_unpack. apply Z.mod_pos_bound. lia. }
  destruct (n <? 16); [exact Hc|]. apply IH, Hc.
Qed.

Lemma hex_go_nonempty (fuel : nat) (n : Z) : hex_go (S fuel) n "" ≠ "".
Proof.
  cbn [hex_go]. destruct (n <? 16); [discriminate|].
  rewrite hex_go_app. destruct (hex_go fuel (n / 16) ""); discriminate.
Qed.

Lemma hex_value_app (s t : string) (a : Z) :
  hex_value (s +:+ t) a = hex_value t (hex_value s a).
Proof.
  revert a. induction s as [|c s IH]; intros a; [reflexivity|].
  rewrite append_cons. cbn [hex_value]. apply IH.
Qed.

Lemma hex_value_go (fuel : nat) (n : Z) :
  0 <= n < 16 ^ Z.of_nat fuel -> hex_value (hex_go fuel n "") 0 = n.
Proof.
  revert n. induction fuel as [|fuel IH]; intros n Hn.
  - cbn in Hn. cbn. lia.
  - cbn [hex_go].
    pose proof (digit_unpack (n mod 16) ltac:(apply Z.mod_pos_bound; lia))
      as (_ & Hv & _).
    cbv zeta in Hv.
    destruct (n <? 16) eqn:E.
    + apply Z.ltb_lt in E. cbn [hex_value]. rewrite Hv, Z.mod_small by lia. lia.
    + apply Z.ltb_ge in E. rewrite hex_go_app, hex_value_app.
      rewrite IH.
      * cbn [hex_value]. rewrite Hv. pose proof (Z.div_mod n 16 ltac:(lia)). lia.
      * split; [apply Z.div_pos; lia|].
        apply Z.div_lt_upper_bound; [lia|].
        rewrite Nat2Z.inj_succ, Z.pow_succ_r in Hn by lia. lia.
Qed.

Lemma hex_upper_value (n : Z) : 0 <= n -> hex_value (hex_upper n) 0 = n.
Proof.
  intros Hn. unfold hex_upper. apply hex_value_go. split; [exact Hn|].
  destruct (Z.eq_dec n 0) as [->|Hne].
  - cbn. lia.
  - pose proof (Z.log2_spec n ltac:(lia)) as [_ Hs].
    pose proof (Z.log2_nonneg n) as Hl.
    rewrite Nat2Z.inj_succ, Z2Nat.id by lia.
    eapply Z.lt_le_trans; [exact Hs|].
    apply Z.pow_le_mono_l. lia.
Qed.

Lemma zeros_hex (j : nat) : hex_string (zeros j) = true.
Proof. induction j as [|j IH]; [reflexivity|]. cbn. exact IH. Qed.

Lemma zeros_value (j : nat) : hex_value (zeros j) 0 = 0.
Proof. induction j as [|j IH]; [reflexivity|]. cbn. exact IH. Qed.

Lemma parse_hex (s : string) (a : Z) (may_us ended : bool) :
  hex_string s = true -> s ≠ "" ∨ ended = true ->
  parse_digits 16 s a may_us ended = Some (hex_value s a).
Proof.
  revert a may_us ended. induction s as [|c s IH]; intros a m e Hs Hne.
  - cbn. destruct Hne as [Hne| ->]; [contradiction|reflexivity].
  - unfold hex_string in Hs. cbn [all_chars] in Hs.
    apply andb_true_iff in Hs as [Hc Hs].
    destruct (upper_hex_digit c Hc) as (d & Hd & -> & Hv).
    pose proof (digit_unpack d Hd) as (_ & _ & _ & _ & _ & Hus & _).
    cbv zeta in Hus.
    cbn [parse_digits hex_value]. rewrite Hus, Hv.
    destruct (d <? 16) eqn:E; [|apply Z.ltb_ge in E; lia].
    apply IH; [exact Hs|auto].
Qed.

Lemma hex_no_space (s : string) :
  hex_string s = true -> all_chars (fun c => negb (is_space c)) s = true.
Proof.
  apply all_chars_impl. intros c Hc.
  destruct (upper_hex_digit c Hc) as (d & Hd & -> & _).
  apply negb_true_iff, digit_unpack, Hd.
Qed.

(** Neither a sign nor a [0x] in front of hexadecimal digits *)
Lemma hex_prefix (s : string) :
  hex_string s = true ->
  match s with
  | String "-" s' => (true, s')
  | String "+" s' => (false, s')
  | _ => (false, s)
  end = (false, s) ∧
  match s with
  | String "0" (String "x" s') | String "0" (String "X" s') => (true, s')
  | _ => (false, s)
  end = (false, s).
Proof.
  intros Hs. destruct s as [|c1 s1]; [split; reflexivity|].
  unfold hex_string in Hs. cbn [all_chars] in Hs.
  apply andb_true_iff in Hs as [Hc1 Hs1].
  destruct (upper_hex_digit c1 Hc1) as (d1 & Hd1 & -> & _).
  assert (C : d1 = 0 ∨ d1 = 1 ∨ d1 = 2 ∨ d1 = 3 ∨ d1 = 4 ∨ d1 = 5 ∨ d1 = 6 ∨ d1 = 7 ∨
              d1 = 8 ∨ d1 = 9 ∨ d1 = 10 ∨ d1 = 11 ∨ d1 = 12 ∨ d1 = 13 ∨ d1 = 14 ∨
              d1 = 15) by lia.
  repeat (destruct C as [->|C]); try subst d1; try (split; reflexivity).
  destruct s1 as [|c2 s2]; [split; reflexivity|].
  cbn [all_chars] in Hs1. apply andb_true_iff in Hs1 as [Hc2 _].
  destruct (upper_hex_digit c2 Hc2) as (d2 & Hd2 & -> & _).
  assert (C : d2 = 0 ∨ d2 = 1 ∨ d2 = 2 ∨ d2 = 3 ∨ d2 = 4 ∨ d2 = 5 ∨ d2 = 6 ∨ d2 = 7 ∨
              d2 = 8 ∨ d2 = 9 ∨ d2 = 10 ∨ d2 = 11 ∨ d2 = 12 ∨ d2 = 13 ∨ d2 = 14 ∨
              d2 = 15) by lia.
  repeat (destruct C as [->|C]); try subst d2; split; reflexivity.
Qed.

(** [int(s, 16)] on hexadecimal digits, and on a minus sign before them *)
Lemma int_of_hex (s : string) :
  hex_string s = true -> s ≠ "" ->
  int_of_str 16 s = Some (hex_value s 0) ∧
  int_of_str 16 (String "-" s) = Some (- hex_value s 0).
Proof.
  intros Hs Hne. pose proof (hex_no_space s Hs) as Hsp.
  destruct (hex_prefix s Hs) as [P1 P2].
  split.
  - unfold int_of_str. rewrite lstrip_no_space, rstrip_no_space by exact Hsp.
    rewrite P1. change (16 =? 16) with true. cbv iota. rewrite P2.
    rewrite parse_hex by auto. reflexivity.
  - unfold int_of_str.
    assert (Hsp' : all_chars (fun c => negb (is_space c)) (String "-" s) = true)
      by (cbn [all_chars]; rewrite Hsp; reflexivity).
    rewrite lstrip_no_space, rstrip_no_space by exact Hsp'.
    change (16 =? 16) with true. cbv iota. rewrite P2.
    rewrite parse_hex by auto. reflexivity.
Qed.

(** How [format_X] writes a number *)
Lemma format_X_shape (w : nat) (z : Z) :
  ∃ digits, hex_string digits = true ∧ digits ≠ "" ∧ hex_value digits 0 = Z.abs z ∧
            format_X w z = (if z <? 0 then String "-" digits else digits) ∧
            (w - (if (z <? 0)%Z then 1 else 0) <= String.length digits)%nat.
Proof.
  unfold format_X.
  set (sign := if z <? 0 then "-" else "").
  set (j := (w - String.length sign - String.length (hex_upper (Z.abs z)))%nat).
  exists (zeros j +:+ hex_upper (Z.abs z)).
  assert (Hu : hex_string (hex_upper (Z.abs z)) = true)
    by (apply hex_go_hex; reflexivity).
  split; [|split; [|split; [|split]]].
  - unfold hex_string. rewrite all_chars_app. apply andb_true_iff.
    split; [apply zeros_hex|exact Hu].
  - intros E. pose proof (hex_go_nonempty (Z.to_nat (Z.log2 (Z.abs z))) (Z.abs z)) as Hn.
    fold (hex_upper (Z.abs z)) in Hn.
    destruct (zeros j); [|discriminate E].
    rewrite append_nil_l in E. contradiction.
  - rewrite hex_value_app, zeros_value. apply hex_upper_value. lia.
  - subst sign. destruct (z <? 0); [|apply append_nil_l].
    reflexivity.
  - assert (L : ∀ a b, String.length (a +:+ b) = (String.length a + String.length b)%nat).
    { intros a b. induction a as [|c a IH]; [reflexivity|].
      rewrite append_cons. cbn. rewrite IH. reflexivity. }
    assert (Z' : ∀ k, String.length (zeros k) = k)
      by (intros k; induction k as [|k IH]; [reflexivity|cbn; rewrite IH; reflexivity]).
    rewrite L, Z'. subst j sign. destruct (z <? 0); cbn [String.length]; lia.
Qed.

(** A number written by [format_X] reads back with [int(_, 16)]. *)
Lemma int_of_format_X (w : nat) (z : Z) : int_of_str 16 (format_X w z) = Some z.
Proof.
  destruct (format_X_shape w z) as (digits & Hh & Hne & Hv & -> & _).
  destruct (int_of_hex digits Hh Hne) as [H1 H2].
  destruct (z <? 0) eqn:E.
  - apply Z.ltb_lt in E. rewrite H2, Hv. f_equal. lia.
  - apply Z.ltb_ge in E. rewrite H1, Hv. f_equal. lia.
Qed.

Lemma format_X_no_dot (w : nat) (z : Z) : contains_char "." (format_X w z) = false.
Proof.
  destruct (format_X_shape w z) as (digits & Hh & _ & _ & -> & _).
  assert (Hd : contains_char "." digits = false).
  { apply (all_chars_absent is_upper_hex); [reflexivity|exact Hh]. }
  destruct (z <? 0); [cbn; exact Hd|exact Hd].
Qed.

Lemma format_X_length (w : nat) (z : Z) : (w <= String.length (format_X w z))%nat.
Proof.
  destruct (format_X_shape w z) as (digits & _ & _ & _ & -> & Hl).
  destruct (z <? 0); cbn [String.length]; lia.
Qed.

End HexProps.

(** ** Glyph codec: the wire side and the text side *)

Module GlyphMore.
Import Glyph GlyphSpec Readback Tactics.

Lemma Z_of_byte_range (b : byte) : 0 <= Z_of_byte b < 256.
Proof. unfold Z_of_byte. pose proof (Byte.to_N_bounded b). lia. Qed.

Lemma byte_of_Z_of_byte (b : byte) : byte_of_Z (Z_of_byte b) = b.
Proof.
  unfold byte_of_Z. rewrite Z.mod_small by apply Z_of_byte_range.
  unfold Z_of_byte. rewrite N2Z.id, Byte.of_to_N. reflexivity.
Qed.

Lemma byte_of_Z_mod (z : Z) : byte_of_Z (z mod 256) = byte_of_Z z.
Proof. unfold byte_of_Z. rewrite Z.mod_mod by lia. reflexivity. Qed.

Lemma land_ones_range (x n : Z) : 0 <= n -> 0 <= Z.land x (Z.ones n) < 2 ^ n.
Proof.
  intros Hn. rewrite Z.land_ones by exact Hn. apply Z.mod_pos_bound. lia.
Qed.

(** Four bytes as a word, with the bytes as numbers below 256 *)
Lemma word_bytes (z0 z1 z2 z3 : Z) :
  0 <= z0 < 256 -> 0 <= z1 < 256 -> 0 <= z2 < 256 -> 0 <= z3 < 256 ->
  let x := Z.lor (Z.shiftl z0 24)
             (Z.lor (Z.shiftl z1 16) (Z.lor (Z.shiftl z2 8) z3)) in
  0 <= x <= 4294967295 ∧
  Z.shiftr x 24 mod 256 = z0 ∧ Z.shiftr x 16 mod 256 = z1 ∧
  Z.shiftr x 8 mod 256 = z2 ∧ x mod 256 = z3.
Proof.
  intros H0 H1 H2 H3 x. subst x.
  rewrite <- (Z.mod_small z0 (2 ^ 8)) by lia.
  rewrite <- (Z.mod_small z1 (2 ^ 8)) by lia.
  rewrite <- (Z.mod_small z2 (2 ^ 8)) by lia.
  rewrite <- (Z.mod_small z3 (2 ^ 8)) by lia.
  change 256 with (2 ^ 8).
  repeat split.
  - apply Z.lor_nonneg. split; [apply Z.shiftl_nonneg, Z.mod_pos_bound; lia|].
    apply Z.lor_nonneg. split; [apply Z.shiftl_nonneg, Z.mod_pos_bound; lia|].
    apply Z.lor_nonneg. split; [apply Z.shiftl_nonneg|]; apply Z.mod_pos_bound; lia.
  - match goal with |- ?w <= _ =>
      assert (E : w = w mod 2 ^ 32) by bits;
      pose proof (Z.mod_pos_bound w (2 ^ 32) ltac:(lia)); lia
    end.
  - bits.
  - bits.
  - bits.
  - bits.
Qed.

Lemma unpack_I_range (b0 b1 b2 b3 : byte) :
  0 <= unpack_I b0 b1 b2 b3 <= 4294967295.
Proof.
  apply (word_bytes (Z_of_byte b0) (Z_of_byte b1) (Z_of_byte b2) (Z_of_byte b3));
    apply Z_of_byte_range.
Qed.

(** [struct.pack] undoes [struct.unpack]. *)
Lemma pack_unpack_I (b0 b1 b2 b3 : byte) :
  pack_I (unpack_I b0 b1 b2 b3) = Ret [b0; b1; b2; b3].
Proof.
  pose proof (word_bytes (Z_of_byte b0) (Z_of_byte b1) (Z_of_byte b2) (Z_of_byte b3)
                (Z_of_byte_range b0) (Z_of_byte_range b1)
                (Z_of_byte_range b2) (Z_of_byte_range b3))
    as ([Hl Hu] & E0 & E1 & E2 & E3).
  cbv zeta in Hl, Hu, E0, E1, E2, E3. fold (unpack_I b0 b1 b2 b3) in *.
  unfold pack_I. apply Z.leb_le in Hl, Hu. rewrite Hl, Hu. cbn [andb].
  rewrite <- (byte_of_Z_mod (Z.shiftr _ 24)), <- (byte_of_Z_mod (Z.shiftr _ 16)),
    <- (byte_of_Z_mod (Z.shiftr _ 8)), <- (byte_of_Z_mod (unpack_I b0 b1 b2 b3)).
  rewrite E0, E1, E2, E3, !byte_of_Z_of_byte. reflexivity.
Qed.

(** The three fields [decode] cuts out of a word make up the word. *)
Lemma header_of_fields (p : Z) :
  0 <= p <= 4294967295 ->
  header (Z.land (Z.shiftr p 28) 0xF) (Z.land (Z.shiftr p 16) 0xFFF) (Z.land p 0xFFFF)
  = p.
Proof.
  intros Hp. rewrite <- (Z.mod_small p (2 ^ 32)) at 4 by lia.
  unfold header.
  change 0xF with (Z.ones 4). change 0xFFF with (Z.ones 12).
  change 0xFFFF with (Z.ones 16). rewrite !Z.land_ones by lia. bits.
Qed.

(** What [_encode_context] returns fits in 32 bits. *)
Lemma encode_context_range (ctx : dict) (cw : Z) :
  _encode_context ctx = Ret cw -> 0 <= cw <= 4294967295.
Proof.
  assert (Hstep : ∀ packed z s, 0 <= packed <= 4294967295 -> s ∈ [8; 16; 24] ->
            0 <= Z.lor packed (Z.shiftl (Z.land z 0xFF) s) <= 4294967295).
  { intros packed z s Hp Hs.
    rewrite <- (Z.mod_small packed (2 ^ 32)) by lia.
    change 0xFF with (Z.ones 8). rewrite Z.land_ones by lia.
    assert (E : Z.lor (packed mod 2 ^ 32) (Z.shiftl (z mod 2 ^ 8) s)
                = Z.lor (packed mod 2 ^ 32) (Z.shiftl (z mod 2 ^ 8) s) mod 2 ^ 32).
    { rewrite !elem_of_cons, elem_of_nil in Hs.
      destruct Hs as [->|[->|[->|[]]]]; bits. }
    pose proof (Z.mod_pos_bound
                  (Z.lor (packed mod 2 ^ 32) (Z.shiftl (z mod 2 ^ 8) s)) (2 ^ 32)
                  ltac:(lia)).
    lia. }
  assert (H8 : 8 ∈ [8; 16; 24]) by (rewrite !elem_of_cons; auto).
  assert (H16 : 16 ∈ [8; 16; 24]) by (rewrite !elem_of_cons; auto).
  assert (H24 : 24 ∈ [8; 16; 24]) by (rewrite !elem_of_cons; auto).
  unfold _encode_context.
  destruct (dict_get "zone" ctx) as [vz|];
    [destruct (py_int vz) as [z|]; [|discriminate]|];
    (destruct (dict_get "priority" ctx) as [vp|];
     [destruct (py_int vp) as [p|]; [|discriminate]|]);
    (destruct (dict_get "mode" ctx) as [vm|];
     [destruct (mode_code vm) as [m|]; [|discriminate]|]);
    intros E; inversion E; subst cw;
    repeat (apply Hstep; [|assumption]); lia.
Qed.

Lemma mode_name_in_names (c : Z) : mode_name c ∈ mode_names.
Proof.
  unfold mode_name, mode_names.
  repeat (destruct (_ =? _); [rewrite !elem_of_cons; auto|]).
  rewrite !elem_of_cons; auto.
Qed.

Lemma decode_context_fields (y : Z) :
  _decode_context y
  = fixed_fields (Z.land (Z.shiftr y 24) 0xFF) (Z.land (Z.shiftr y 16) 0xFF)
      (mode_name (Z.land (Z.shiftr y 8) 0xFF)).
Proof. reflexivity. Qed.

(** A frame as [decode] builds it from a header word *)
Lemma decode_four (b0 b1 b2 b3 : byte) (rest : list byte) :
  (List.length rest < 4)%nat ->
  decode (b0 :: b1 :: b2 :: b3 :: rest)
  = Ret {| domain := Z.land (Z.shiftr (unpack_I b0 b1 b2 b3) 28) 0xF;
           authority := Z.land (Z.shiftr (unpack_I b0 b1 b2 b3) 16) 0xFFF;
           glyph_code := Z.land (unpack_I b0 b1 b2 b3) 0xFFFF;
           context := None |}.
Proof.
  intros H. destruct rest as [|b4 [|b5 [|b6 [|b7 tl]]]]; try reflexivity.
  cbn in H. lia.
Qed.

Lemma has_context_decoded (d a g y : Z) :
  has_context {| domain := d; authority := a; glyph_code := g;
                 context := Some (_decode_context y) |}
  = Some (_decode_context y).
Proof. reflexivity. Qed.

Lemma decode_eight (b0 b1 b2 b3 b4 b5 b6 b7 : byte) (tl : list byte) :
  decode (b0 :: b1 :: b2 :: b3 :: b4 :: b5 :: b6 :: b7 :: tl)
  = Ret {| domain := Z.land (Z.shiftr (unpack_I b0 b1 b2 b3) 28) 0xF;
           authority := Z.land (Z.shiftr (unpack_I b0 b1 b2 b3) 16) 0xFFF;
           glyph_code := Z.land (unpack_I b0 b1 b2 b3) 0xFFFF;
           context := Some (_decode_context (unpack_I b4 b5 b6 b7)) |}.
Proof. reflexivity. Qed.

(** X6. [decode] fails on fewer than four bytes and on nothing else, and
    what it returns is always in range: the domain in [0,15], the
    authority in [0,4095], the glyph code in [0,65535]; there is a
    context exactly when there are at least eight bytes, and it holds
    the three fixed fields with [zone] and [priority] in [0,255] and
    [mode] one of the four mode names. *)
Theorem decode_in_range (data : list byte) :
  match decode data with
  | Raise e =>
      e = ValueError "Frame too short: minimum 4 bytes required" ∧
      (List.length data < 4)%nat
  | Ret f =>
      (4 <= List.length data)%nat ∧
      0 <= domain f <= 15 ∧ 0 <= authority f <= 4095 ∧ 0 <= glyph_code f <= 65535 ∧
      match context f with
      | None => (List.length data < 8)%nat
      | Some ctx =>
          (8 <= List.length data)%nat ∧
          ∃ z p m, ctx = fixed_fields z p m ∧
                   0 <= z <= 255 ∧ 0 <= p <= 255 ∧ m ∈ mode_names
      end
  end.
Proof.
  assert (R4 : ∀ x, 0 <= Z.land x 0xF <= 15)
    by (intros x; pose proof (land_ones_range x 4 ltac:(lia)) as H;
        change (Z.ones 4) with 0xF in H; lia).
  assert (R12 : ∀ x, 0 <= Z.land x 0xFFF <= 4095)
    by (intros x; pose proof (land_ones_range x 12 ltac:(lia)) as H;
        change (Z.ones 12) with 0xFFF in H; lia).
  assert (R16 : ∀ x, 0 <= Z.land x 0xFFFF <= 65535)
    by (intros x; pose proof (land_ones_range x 16 ltac:(lia)) as H;
        change (Z.ones 16) with 0xFFFF in H; lia).
  assert (R8 : ∀ x, 0 <= Z.land x 0xFF <= 255)
    by (intros x; pose proof (land_ones_range x 8 ltac:(lia)) as H;
        change (Z.ones 8) with 0xFF in H; lia).
  destruct data as [|b0 [|b1 [|b2 [|b3 rest]]]];
    try (cbn; split; [reflexivity|lia]).
  destruct (le_lt_dec 4 (List.length rest)) as [Hlen|Hlen].
  - destruct rest as [|b4 [|b5 [|b6 [|b7 tl]]]]; try (cbn in Hlen; lia).
    rewrite decode_eight. cbn [domain authority glyph_code context List.length].
    split; [lia|]. split; [apply R4|]. split; [apply R12|]. split; [apply R16|].
    split; [lia|]. rewrite decode_context_fields.
    eexists _, _, _. split; [reflexivity|].
    split; [apply R8|]. split; [apply R8|]. apply mode_name_in_names.
  - rewrite decode_four by exact Hlen.
    cbn [domain authority glyph_code context List.length].
    split; [lia|]. split; [apply R4|]. split; [apply R12|]. split; [apply R16|]. lia.
Qed.

(** [encode] on a frame without context, and the frame its bytes decode
    to *)
Lemma encode_plain (d a g : Z) (ctx : option dict) :
  has_context {| domain := d; authority := a; glyph_code := g; context := ctx |} = None ->
  ∃ data,
    encode {| domain := d; authority := a; glyph_code := g; context := ctx |} = Ret data ∧
    List.length data = 4%nat ∧
    decode data = Ret {| domain := d mod 16; authority := a mod 4096;
                         glyph_code := g mod 65536; context := None |}.
Proof.
  intros Hc. unfold encode. rewrite Hc. cbn [domain authority glyph_code].
  fold (header d a g). rewrite GlyphProps.pack_I_header.
  eexists. split; [reflexivity|]. split; [reflexivity|].
  unfold decode. rewrite GlyphProps.unpack_pack_I.
  rewrite GlyphProps.header_domain, GlyphProps.header_authority,
    GlyphProps.header_glyph_code.
  reflexivity.
Qed.

(** X7. [encode] never fails in [struct.pack], and it cuts every field to
    its width.  Without a context (or with an empty one) it returns four
    bytes, which decode to the frame with the domain modulo 16, the
    authority modulo 4096 and the glyph code modulo 65536.  With a
    context it fails exactly when [_encode_context] does, with the same
    exception; otherwise it returns eight bytes, which decode to the cut
    fields and the context [_decode_context] reads from the context
    word. *)
Theorem encode_cuts_to_width (f : GlyphFrame) :
  let cut ctx :=
    {| domain := domain f mod 16; authority := authority f mod 4096;
       glyph_code := glyph_code f mod 65536; context := ctx |} in
  match has_context f with
  | None =>
      ∃ data, encode f = Ret data ∧ List.length data = 4%nat ∧
              decode data = Ret (cut None)
  | Some ctx =>
      match _encode_context ctx with
      | Raise e => encode f = Raise e
      | Ret cw =>
          ∃ data, encode f = Ret data ∧ List.length data = 8%nat ∧
                  decode data = Ret (cut (Some (_decode_context cw)))
      end
  end.
Proof.
  cbv zeta. destruct f as [d a g ctx].
  destruct (has_context _) as [c|] eqn:Hc.
  - cbn [domain authority glyph_code].
    destruct (_encode_context c) as [cw|e] eqn:Hcw.
    + unfold encode. rewrite Hc, Hcw. cbn [domain authority glyph_code].
      fold (header d a g). rewrite GlyphProps.pack_I_header.
      pose proof (encode_context_range c cw Hcw) as [H1 H2].
      unfold pack_I. pose proof H1 as H1'. pose proof H2 as H2'.
      apply Z.leb_le in H1', H2'. rewrite H1', H2'. cbn [andb app].
      eexists. split; [reflexivity|]. split; [reflexivity|].
      rewrite decode_eight, !GlyphProps.unpack_pack_I.
      rewrite GlyphProps.header_domain, GlyphProps.header_authority,
        GlyphProps.header_glyph_code.
      rewrite (Z.mod_small cw) by lia. reflexivity.
    + unfold encode. rewrite Hc, Hcw. reflexivity.
  - apply encode_plain. exact Hc.
Qed.

(** The codes of the mode names [_decode_context] produces *)
Lemma mode_code_name (c : Z) :
  0 <= c <= 255 ->
  mode_code (VStr (mode_name c)) = Ret (if c <=? 3 then c else 0).
Proof.
  intros Hc. unfold mode_name.
  destruct (c =? 0) eqn:E0; [apply Z.eqb_eq in E0; subst; reflexivity|].
  destruct (c =? 1) eqn:E1; [apply Z.eqb_eq in E1; subst; reflexivity|].
  destruct (c =? 2) eqn:E2; [apply Z.eqb_eq in E2; subst; reflexivity|].
  destruct (c =? 3) eqn:E3; [apply Z.eqb_eq in E3; subst; reflexivity|].
  apply Z.eqb_neq in E0, E1, E2, E3.
  destruct (c <=? 3) eqn:E; [apply Z.leb_le in E; lia|reflexivity].
Qed.

(** The bytes of a context word *)
Lemma context_word_bytes (z p m : Z) :
  0 <= z <= 255 -> 0 <= p <= 255 -> 0 <= m <= 255 ->
  pack_I (context_word z p m)
  = Ret [byte_of_Z z; byte_of_Z p; byte_of_Z m; Byte.x00].
Proof.
  intros Hz Hp Hm.
  pose proof (GlyphProps.context_word_range z p m) as [H1 H2].
  unfold pack_I. apply Z.leb_le in H1, H2. rewrite H1, H2. cbn [andb].
  rewrite <- (byte_of_Z_mod (Z.shiftr _ 24)), <- (byte_of_Z_mod (Z.shiftr _ 16)),
    <- (byte_of_Z_mod (Z.shiftr _ 8)), <- (byte_of_Z_mod (context_word z p m)).
  assert (E0 : Z.shiftr (context_word z p m) 24 mod 256 = z).
  { rewrite <- (Z.mod_small z (2 ^ 8)) at 2 by lia. unfold context_word.
    change 0xFF with (Z.ones 8). rewrite !Z.land_ones by lia.
    change 256 with (2 ^ 8). bits. }
  assert (E1 : Z.shiftr (context_word z p m) 16 mod 256 = p).
  { rewrite <- (Z.mod_small p (2 ^ 8)) at 2 by lia. unfold context_word.
    change 0xFF with (Z.ones 8). rewrite !Z.land_ones by lia.
    change 256 with (2 ^ 8). bits. }
  assert (E2 : Z.shiftr (context_word z p m) 8 mod 256 = m).
  { rewrite <- (Z.mod_small m (2 ^ 8)) at 2 by lia. unfold context_word.
    change 0xFF with (Z.ones 8). rewrite !Z.land_ones by lia.
    change 256 with (2 ^ 8). bits. }
  assert (E3 : context_word z p m mod 256 = 0).
  { unfold context_word.
    change 0xFF with (Z.ones 8). rewrite !Z.land_ones by lia.
    change 256 with (2 ^ 8). bits. }
  rewrite E0, E1, E2, E3. reflexivity.
Qed.

(** The fields [_decode_context] cuts out of a word of four bytes *)
Lemma unpack_I_fields (b4 b5 b6 b7 : byte) :
  Z.land (Z.shiftr (unpack_I b4 b5 b6 b7) 24) 0xFF = Z_of_byte b4 ∧
  Z.land (Z.shiftr (unpack_I b4 b5 b6 b7) 16) 0xFF = Z_of_byte b5 ∧
  Z.land (Z.shiftr (unpack_I b4 b5 b6 b7) 8) 0xFF = Z_of_byte b6.
Proof.
  pose proof (word_bytes (Z_of_byte b4) (Z_of_byte b5) (Z_of_byte b6) (Z_of_byte b7)
                (Z_of_byte_range b4) (Z_of_byte_range b5)
                (Z_of_byte_range b6) (Z_of_byte_range b7))
    as (_ & E0 & E1 & E2 & _).
  cbv zeta in E0, E1, E2. fold (unpack_I b4 b5 b6 b7) in *.
  change 0xFF with (Z.ones 8). rewrite !Z.land_ones by lia.
  change (2 ^ 8) with 256. auto.
Qed.

(** X8. Every frame [decode] returns can be encoded again, and decodes to
    itself.  The new bytes repeat the four header bytes; of the context
    bytes they repeat the zone and the priority, keep a mode byte up to
    3 and put 0 for any other, and put 0 for the last byte; bytes after
    the eighth are dropped. *)
Theorem decode_reencodes (data : list byte) (f : GlyphFrame)
    (Hdec : decode data = Ret f) :
  ∃ data',
    encode f = Ret data' ∧ decode data' = Ret f ∧
    take 4 data' = take 4 data ∧
    drop 4 data' =
      match drop 4 data with
      | b4 :: b5 :: b6 :: b7 :: _ =>
          [b4; b5; if Z_of_byte b6 <=? 3 then b6 else Byte.x00; Byte.x00]
      | _ => []
      end.
Proof.
  destruct data as [|b0 [|b1 [|b2 [|b3 rest]]]]; try discriminate Hdec.
  pose proof (unpack_I_range b0 b1 b2 b3) as Hp.
  destruct (le_lt_dec 4 (List.length rest)) as [Hlen|Hlen].
  - destruct rest as [|b4 [|b5 [|b6 [|b7 tl]]]]; try (cbn in Hlen; lia).
    rewrite decode_eight in Hdec. injection Hdec as <-.
    destruct (unpack_I_fields b4 b5 b6 b7) as (Ez & Ep & Em).
    pose proof (Z_of_byte_range b4) as Rz. pose proof (Z_of_byte_range b5) as Rp.
    pose proof (Z_of_byte_range b6) as Rm.
    assert (Hcw : _encode_context (_decode_context (unpack_I b4 b5 b6 b7))
                  = Ret (context_word (Z_of_byte b4) (Z_of_byte b5)
                           (if Z_of_byte b6 <=? 3 then Z_of_byte b6 else 0))).
    { rewrite decode_context_fields, Ez, Ep, Em.
      unfold _encode_context, fixed_fields.
      cbn [dict_get String.eqb Ascii.eqb Bool.eqb py_int].
      rewrite mode_code_name by lia. reflexivity. }
    assert (Rm' : 0 <= (if Z_of_byte b6 <=? 3 then Z_of_byte b6 else 0) <= 255)
      by (destruct (Z_of_byte b6 <=? 3); lia).
    unfold encode. rewrite has_context_decoded.
    cbn [domain authority glyph_code].
    rewrite Hcw.
    fold (header (Z.land (Z.shiftr (unpack_I b0 b1 b2 b3) 28) 0xF)
            (Z.land (Z.shiftr (unpack_I b0 b1 b2 b3) 16) 0xFFF)
            (Z.land (unpack_I b0 b1 b2 b3) 0xFFFF)).
    rewrite header_of_fields by exact Hp.
    rewrite pack_unpack_I, context_word_bytes by lia.
    cbn [app]. eexists. split; [reflexivity|].
    split; [|split].
    + rewrite decode_eight. f_equal. f_equal. f_equal.
      rewrite !decode_context_fields.
      destruct (unpack_I_fields (byte_of_Z (Z_of_byte b4)) (byte_of_Z (Z_of_byte b5))
                  (byte_of_Z (if Z_of_byte b6 <=? 3 then Z_of_byte b6 else 0)) Byte.x00)
        as (Ez' & Ep' & Em').
      rewrite Ez', Ep', Em', Ez, Ep, Em.
      rewrite !GlyphProps.Z_of_byte_of_Z, !Z.mod_small by lia.
      f_equal. unfold mode_name.
      destruct (Z_of_byte b6 <=? 3) eqn:E; [reflexivity|].
      apply Z.leb_gt in E.
      destruct (Z_of_byte b6 =? 0) eqn:E0; [apply Z.eqb_eq in E0; lia|].
      destruct (Z_of_byte b6 =? 1) eqn:E1; [apply Z.eqb_eq in E1; lia|].
      destruct (Z_of_byte b6 =? 2) eqn:E2; [apply Z.eqb_eq in E2; lia|].
      destruct (Z_of_byte b6 =? 3) eqn:E3; [apply Z.eqb_eq in E3; lia|].
      reflexivity.
    + reflexivity.
    + cbn [drop]. rewrite !byte_of_Z_of_byte.
      destruct (Z_of_byte b6 <=? 3); [rewrite byte_of_Z_of_byte|]; reflexivity.
  - rewrite decode_four in Hdec by exact Hlen. injection Hdec as <-.
    unfold encode. cbn [has_context context domain authority glyph_code].
    fold (header (Z.land (Z.shiftr (unpack_I b0 b1 b2 b3) 28) 0xF)
            (Z.land (Z.shiftr (unpack_I b0 b1 b2 b3) 16) 0xFFF)
            (Z.land (unpack_I b0 b1 b2 b3) 0xFFFF)).
    rewrite header_of_fields by exact Hp. rewrite pack_unpack_I.
    eexists. split; [reflexivity|]. split; [reflexivity|]. split; [reflexivity|].
    destruct rest as [|b4 [|b5 [|b6 [|b7 tl]]]]; try reflexivity.
    cbn in Hlen. lia.
Qed.

Lemma decode_reencodes_witness :
  let data := [Byte.x10; Byte.x42; Byte.x80; Byte.x03;
               Byte.x07; Byte.x05; Byte.x09; Byte.xff; Byte.xaa] in
  ∃ f data',
    decode data = Ret f ∧ encode f = Ret data' ∧
    data' = [Byte.x10; Byte.x42; Byte.x80; Byte.x03;
             Byte.x07; Byte.x05; Byte.x00; Byte.x00].
Proof.
  cbv zeta.
  assert (H : decode [Byte.x10; Byte.x42; Byte.x80; Byte.x03;
                      Byte.x07; Byte.x05; Byte.x09; Byte.xff; Byte.xaa]
              = Ret {| domain := 1; authority := 0x42; glyph_code := 0x8003;
                       context := Some [("zone", VInt 7); ("priority", VInt 5);
                                        ("mode", VStr "normal")] |})
    by (vm_compute; reflexivity).
  destruct (decode_reencodes _ _ H) as (data' & Henc & _ & Htake & Hdrop).
  eexists _, data'. split; [exact H|]. split; [exact Henc|].
  rewrite <- (take_drop 4 data'), Htake, Hdrop. reflexivity.
Defined.

(** *** The text side *)

Lemma name_get_values {A : Type} (key : string) (t : list (string * A)) (v : A) :
  name_get key t = Some v -> v ∈ map snd t.
Proof.
  induction t as [|[k' v'] t IH]; [discriminate|].
  cbn. destruct (String.eqb key k').
  - intros E. inversion E. apply elem_of_cons. auto.
  - intros E. apply elem_of_cons. right. exact (IH E).
Qed.

Lemma parse_path_results (path : string) :
  match parse_path path with
  | Ret (d, a, g) => d ∈ named_domains ∧ g ∈ token_codes
  | Raise e => is_ValueError e = true
  end.
Proof.
  unfold parse_path.
  destruct (split_char "/" path) as [|x [|y [|z l]]]; try reflexivity.
  destruct (split_char "." x) as [|ds [|as_ [|z l]]]; try reflexivity.
  cbv zeta.
  assert (Hd : match name_get ds (map (fun kv => (lower kv.1, kv.2)) Domain_members) with
               | Some d => d | None => Domain_RESERVED end ∈ named_domains).
  { destruct (name_get ds _) as [d|] eqn:E.
    - apply name_get_values in E. exact E.
    - unfold named_domains. cbn. rewrite !elem_of_cons. auto. }
  assert (Hg : match name_get y (map (fun kv => (kv.2, kv.1)) GLYPH_TOKENS) with
               | Some c => c | None => 0xFFFF end ∈ token_codes).
  { destruct (name_get y _) as [c|] eqn:E.
    - apply name_get_values in E. unfold token_codes.
      apply elem_of_app. left. exact E.
    - unfold token_codes. apply elem_of_app. right. apply elem_of_cons. auto. }
  destruct (startswith "auth_" as_).
  - destruct (int_of_str 16 _); [split; assumption|reflexivity].
  - split; assumption.
Qed.

Lemma dict_set_nonempty (key : string) (v : value) (d : dict) :
  dict_set key v d ≠ [].
Proof. destruct d as [|[k' v'] d]; cbn; [|destruct (String.eqb key k')]; discriminate. Qed.

Lemma parse_params_results (ps : list string) (acc : dict) :
  match parse_params ps acc with
  | Ret ctx => (acc ≠ [] ∨ ps ≠ []) -> ctx ≠ []
  | Raise e => is_ValueError e = true
  end.
Proof.
  revert acc. induction ps as [|p ps IH]; intros acc.
  - cbn. intros [H|H]; [exact H|contradiction].
  - cbn [parse_params].
    destruct (split_char "=" p) as [|key [|val [|z l]]]; try reflexivity.
    specialize (IH (dict_set key
                      (match int_of_str 10 val with
                       | Some z => VInt z | None => VStr val end) acc)).
    destruct (parse_params ps _) as [ctx|e]; [|exact IH].
    intros _. apply IH. left. apply dict_set_nonempty.
Qed.

(** The glyph code [from_text] returns is one of the token table, or
    0xFFFF. *)
Lemma from_text_glyph_code (uri : string) (f : GlyphFrame) :
  from_text uri = Ret f -> glyph_code f ∈ token_codes.
Proof.
  unfold from_text.
  destruct (startswith "UASC://" uri); [|discriminate]. cbn [negb].
  destruct (if contains_char "?" (drop_chars 7 uri)
            then let '(p, q) := split_first "?" (drop_chars 7 uri) in (p, Some q)
            else (drop_chars 7 uri, None)) as [path query].
  pose proof (parse_path_results path) as Hp.
  destruct (parse_path path) as [[[d a] g]|e]; [|discriminate].
  destruct (parse_query query) as [ctx|e]; [|discriminate].
  intros E. inversion E. cbn. apply Hp.
Qed.

(** X9. [from_text] raises nothing but [ValueError], and it returns only
    frames of the text vocabulary: the URI starts with [UASC://], the
    domain is a member of [Domain] ([RESERVED] for an unknown name), the
    glyph code is an entry of [GLYPH_TOKENS] or 0xFFFF for an unknown
    token, and the context is [None] or a dict that is not empty. *)
Theorem from_text_vocabulary (uri : string) :
  match from_text uri with
  | Ret f =>
      startswith "UASC://" uri = true ∧
      domain f ∈ named_domains ∧ glyph_code f ∈ token_codes ∧
      context f ≠ Some []
  | Raise e => is_ValueError e = true
  end.
Proof.
  unfold from_text.
  destruct (startswith "UASC://" uri); [|reflexivity]. cbn [negb].
  destruct (contains_char "?" (drop_chars 7 uri)).
  - destruct (split_first "?" (drop_chars 7 uri)) as [p q].
    pose proof (parse_path_results p) as Hp.
    destruct (parse_path p) as [[[d a] g]|e]; [|exact Hp].
    unfold parse_query. destruct q as [|c q].
    + cbn. destruct Hp. repeat split; try assumption. discriminate.
    + pose proof (parse_params_results (split_char "&" (String c q)) []) as Hq.
      destruct (parse_params _ _) as [ctx|e]; [|exact Hq].
      cbn. destruct Hp. repeat split; try assumption.
      intros E. inversion E as [E']. revert E'. apply Hq. right.
      apply StringProps.split_char_nonempty.
  - pose proof (parse_path_results (drop_chars 7 uri)) as Hp.
    destruct (parse_path _) as [[[d a] g]|e]; [|exact Hp].
    cbn. destruct Hp. repeat split; try assumption. discriminate.
Qed.

Lemma table_get_in {A : Type} (key : Z) (t : list (Z * A)) (v : A) :
  table_get key t = Some v -> (key, v) ∈ t.
Proof.
  induction t as [|[k' v'] t IH]; [discriminate|].
  cbn. destruct (key =? k') eqn:E.
  - apply Z.eqb_eq in E. subst. intros H. inversion H. apply elem_of_cons. auto.
  - intros H. apply elem_of_cons. right. exact (IH H).
Qed.

Lemma name_get_other_length {A : Type} (key : string) (t : list (string * A)) :
  Forall (fun kv => String.length kv.1 ≠ String.length key) t ->
  name_get key t = None.
Proof.
  induction 1 as [|[k v] t Hk _ IH]; [reflexivity|].
  cbn. destruct (String.eqb key k) eqn:E; [|exact IH].
  apply String.eqb_eq in E. subst. contradiction Hk. reflexivity.
Qed.

(** A code outside a table is written as one character and the number;
    that reads back as the code. *)
Lemma fallback_reads_back (c : ascii) (g : Z) (t : list (string * Z)) :
  Forall (fun kv => (String.length kv.1 <= 4)%nat) t ->
  match name_get (String c (format_X 4 g)) t with
  | Some code => Some code
  | None => int_of_str 16 (drop_chars 1 (String c (format_X 4 g)))
  end = Some g.
Proof.
  intros Ht. rewrite name_get_other_length.
  - cbn [drop_chars]. apply HexProps.int_of_format_X.
  - eapply Forall_impl; [exact Ht|]. intros kv Hkv. cbn beta in *.
    pose proof (HexProps.format_X_length 4 g). cbn [String.length]. lia.
Qed.

Lemma token_code_to_token (f : GlyphFrame) :
  token_code (to_token f) = Some (glyph_code f).
Proof.
  unfold to_token. destruct (table_get (glyph_code f) GLYPH_TOKENS) as [t|] eqn:E.
  - apply table_get_in in E. unfold GLYPH_TOKENS in E.
    rewrite !elem_of_cons, elem_of_nil in E.
    repeat (destruct E as [E|E]; [injection E as Hg Ht; rewrite Hg; subst t; reflexivity|]).
    contradiction.
  - change ("@" +:+ format_X 4 (glyph_code f))
      with (String "@" (format_X 4 (glyph_code f))).
    apply fallback_reads_back.
    repeat (constructor; [cbn; lia|]). constructor.
Qed.

Lemma name_code_to_name (f : GlyphFrame) :
  name_code (to_name f) = Some (glyph_code f).
Proof.
  unfold to_name. destruct (table_get (glyph_code f) GLYPH_NAMES) as [t|] eqn:E.
  - apply table_get_in in E. unfold GLYPH_NAMES in E.
    rewrite !elem_of_cons, elem_of_nil in E.
    repeat (destruct E as [E|E]; [injection E as Hg Ht; rewrite Hg; subst t; reflexivity|]).
    contradiction.
  - change ("G" +:+ format_X 4 (glyph_code f))
      with (String "G" (format_X 4 (glyph_code f))).
    apply fallback_reads_back.
    repeat (constructor; [cbn; lia|]). constructor.
Qed.

(** X10. The token of a frame tells its glyph code, and so does its name,
    whatever integer the code is: the table entry, or the hexadecimal
    number after the first character, is the code.  So two frames with
    the same token, or with the same name, have the same glyph code. *)
Theorem token_tells_glyph_code (f f' : GlyphFrame) :
  token_code (to_token f) = Some (glyph_code f) ∧
  name_code (to_name f) = Some (glyph_code f) ∧
  (to_token f = to_token f' -> glyph_code f = glyph_code f') ∧
  (to_name f = to_name f' -> glyph_code f = glyph_code f').
Proof.
  pose proof (token_code_to_token f) as Ht.
  pose proof (token_code_to_token f') as Ht'.
  pose proof (name_code_to_name f) as Hn.
  pose proof (name_code_to_name f') as Hn'.
  repeat split; try assumption.
  - intros E. rewrite E in Ht. congruence.
  - intros E. rewrite E in Hn. congruence.
Qed.

Lemma address_fields_full_address (f : GlyphFrame) :
  address_fields (full_address f) = Some (domain f, authority f, glyph_code f).
Proof.
  unfold address_fields, full_address.
  change (format_X 1 (domain f) +:+ "." +:+ format_X 3 (authority f) +:+ "."
            +:+ format_X 4 (glyph_code f))
    with (format_X 1 (domain f)
            +:+ String "." (format_X 3 (authority f)
                              +:+ String "." (format_X 4 (glyph_code f)))).
  rewrite !StringProps.split_char_append by apply HexProps.format_X_no_dot.
  rewrite StringProps.split_char_absent by apply HexProps.format_X_no_dot.
  rewrite !HexProps.int_of_format_X. reflexivity.
Qed.

(** X11. The full address of a frame reads back as its domain, its authority
    and its glyph code, whatever integers they are; so two frames with
    the same address agree on all three. *)
Theorem address_tells_fields (f f' : GlyphFrame) :
  address_fields (full_address f) = Some (domain f, authority f, glyph_code f) ∧
  (full_address f = full_address f' ->
   domain f = domain f' ∧ authority f = authority f' ∧ glyph_code f = glyph_code f').
Proof.
  pose proof (address_fields_full_address f) as H.
  pose proof (address_fields_full_address f') as H'.
  split; [exact H|].
  intros E. rewrite E in H. rewrite H in H'. inversion H'. auto.
Qed.

End GlyphMore.

(** ** Registry: validation, binding, revocation *)

Module RegistryMore.
Import Registry RegistrySpec.

Lemma check_refs_grows (ns : list (string * dict)) (node_id : string) (node : dict)
    (ref_keys : list string) (errors errors' : list string) :
  check_refs ns node_id node ref_keys errors = Ret errors' ->
  ∃ extra, errors' = (errors ++ extra)%list ∧
           (extra = [] -> refs_resolve ns node ref_keys).
Proof.
  revert errors. induction ref_keys as [|key rest IH]; intros errors H.
  - cbn in H. inversion H. exists []. rewrite app_nil_r. split; [reflexivity|].
    intros _ key target Hin. apply elem_of_nil in Hin. contradiction.
  - cbn [check_refs] in H.
    destruct (dict_get key node) as [target|] eqn:Hget.
    + destruct (nodes_lookup target ns) as [[n|]|e] eqn:Hl; [| |discriminate].
      * destruct (IH _ H) as (extra & -> & Hres). exists extra.
        split; [reflexivity|]. intros He key' target' Hin Hget'.
        apply elem_of_cons in Hin as [->|Hin]; [|exact (Hres He _ _ Hin Hget')].
        rewrite Hget in Hget'. inversion Hget'. subst target'.
        destruct target; try discriminate Hl.
        cbn in Hl. inversion Hl as [Hn]. eauto.
      * destruct (IH _ H) as (extra & -> & _).
        exists (unknown_reference node_id target :: extra).
        split; [rewrite <- app_assoc; reflexivity|discriminate].
    + destruct (IH _ H) as (extra & -> & Hres). exists extra.
      split; [reflexivity|]. intros He key' target' Hin Hget'.
      apply elem_of_cons in Hin as [->|Hin]; [|exact (Hres He _ _ Hin Hget')].
      rewrite Hget in Hget'. discriminate.
Qed.

Lemma check_refs_resolved (ns : list (string * dict)) (node_id : string) (node : dict)
    (ref_keys : list string) (errors : list string) :
  refs_resolve ns node ref_keys ->
  check_refs ns node_id node ref_keys errors = Ret errors.
Proof.
  induction ref_keys as [|key rest IH]; intros Hres; [reflexivity|].
  cbn [check_refs].
  assert (Hrest : refs_resolve ns node rest).
  { intros key' target' Hin. apply Hres. apply elem_of_cons. auto. }
  destruct (dict_get key node) as [target|] eqn:Hget; [|exact (IH Hrest)].
  destruct (Hres key target) as (s & -> & [n Hn]); [apply elem_of_cons; auto|exact Hget|].
  cbn [nodes_lookup]. rewrite Hn. exact (IH Hrest).
Qed.

Lemma check_nodes_grows (ns todo : list (string * dict)) (errors errors' : list string) :
  check_nodes ns todo errors = Ret errors' ->
  ∃ extra, errors' = (errors ++ extra)%list ∧
           (extra = [] ->
            Forall (fun kn => refs_resolve ns kn.2 validated_ref_keys) todo).
Proof.
  revert errors. induction todo as [|[node_id node] rest IH]; intros errors H.
  - cbn in H. inversion H. exists []. rewrite app_nil_r. split; [reflexivity|].
    intros _. constructor.
  - cbn [check_nodes] in H.
    destruct (check_refs ns node_id node validated_ref_keys errors) as [errs1|e] eqn:Hr;
      [|discriminate].
    destruct (check_refs_grows _ _ _ _ _ _ Hr) as (x1 & -> & Hres1).
    destruct (IH _ H) as (x2 & -> & Hres2).
    exists (x1 ++ x2)%list. split; [rewrite app_assoc; reflexivity|].
    intros He. apply app_eq_nil in He as [-> ->]. constructor; auto.
Qed.

Lemma check_nodes_resolved (ns todo : list (string * dict)) (errors : list string) :
  Forall (fun kn => refs_resolve ns kn.2 validated_ref_keys) todo ->
  check_nodes ns todo errors = Ret errors.
Proof.
  induction 1 as [|[node_id node] rest Hn _ IH]; [reflexivity|].
  cbn [check_nodes]. rewrite check_refs_resolved by exact Hn. exact IH.
Qed.

(** [validate] returns no error exactly for the well-formed graphs. *)
Lemma validate_nil_iff (g : ExecutionGraph) :
  validate g = Ret [] <-> well_formed g.
Proof.
  unfold validate, well_formed. split.
  - intros H.
    destruct (check_nodes (nodes g) (nodes g) _) as [errs|e] eqn:Hc; [|discriminate].
    destruct (check_nodes_grows _ _ _ _ Hc) as (extra & -> & Hres).
    destruct (negb (has_exit (nodes g))) eqn:Hx.
    { inversion H as [E]. apply app_eq_nil in E as [_ E]. discriminate. }
    inversion H as [E]. apply app_eq_nil in E as [E1 E2].
    destruct (nodes_get "start" (nodes g)) as [n|]; [|discriminate E1].
    split; [eauto|]. split; [exact (Hres E2)|].
    apply negb_false_iff in Hx. exact Hx.
  - intros ([n Hs] & Hres & Hx). rewrite Hs.
    rewrite check_nodes_resolved by exact Hres. rewrite Hx. reflexivity.
Qed.

(** X12. [register_graph] accepts exactly the well-formed graphs: a [start]
    node, every [next], [on_true] and [on_false] naming a node of the
    graph, and a node of type [exit].  An accepted graph is stored under
    its id, replacing what was there, and nothing else changes; a
    refused graph leaves the registry as it was. *)
Theorem register_graph_accepts_well_formed (r : Registry) (g : ExecutionGraph) :
  (well_formed g <-> (register_graph r g).1 = Ret (graph_id g)) ∧
  (well_formed g ->
   (register_graph r g).2 = set_graphs r (<[graph_id g := g]> (graphs r))) ∧
  (¬ well_formed g -> (register_graph r g).2 = r).
Proof.
  rewrite <- validate_nil_iff. unfold register_graph.
  destruct (validate g) as [[|e errs]|e]; cbn [fst snd].
  - split; [tauto|]. split; [reflexivity|]. intros H. contradiction H. reflexivity.
  - split; [split; discriminate|]. split; [discriminate|reflexivity].
  - split; [split; discriminate|]. split; [discriminate|reflexivity].
Qed.

Section WithHash.

Variable sha256_hexdigest : string -> string.

#[local] Abbreviation bind_glyph := (bind_glyph sha256_hexdigest).
#[local] Abbreviation apply_operation := (apply_operation sha256_hexdigest).
#[local] Abbreviation apply_operations := (apply_operations sha256_hexdigest).

(** X13. Binding a code in range to a registered graph, for a validity
    whose end is a datetime, makes [lookup] return that graph for the
    code, from the first clock reading of the call until [validity_days]
    days after the second, unless the code was revoked; [get_binding]
    returns the new binding, and the lookups of every other code are as
    before. *)
Theorem bind_then_lookup
    (r : Registry) (c : Z) (gid : string) (days : Z) (k : clock) (g : ExecutionGraph)
    (Hg : graphs r !! gid = Some g) (Hc : 0x8000 <= c <= 0xFFFE)
    (Hdays : representable (k 1%nat) days)
    (Hr : c ∉ revocations r) :
  ∃ b r',
    bind_glyph r c gid days k = (Ret b, r', fun n => k (S (S n))) ∧
    get_binding r' c = Some b ∧
    glyph_code b = c ∧ b_graph_id b = gid ∧ b_authority b = authority r ∧
    (∀ k2, lookup r' c k2
           = (if (k 0%nat <=? k2 0%nat) && (k2 0%nat <=? k 1%nat + timedelta_days days)
              then Some g else None, fun n => k2 (S n))) ∧
    (∀ c' k2, c' ≠ c -> lookup r' c' k2 = lookup r c' k2).
Proof.
  unfold Registry.bind_glyph. rewrite Hg.
  destruct Hc as [H1 H2]. apply Z.leb_le in H1, H2. rewrite H1, H2. cbn [andb negb].
  unfold utcnow.
  destruct (RegistryProps.window_end_cases (k 1%nat) days)
    as [(_ & -> & ->)|(Hn & _)]; [|contradiction].
  eexists _, _. split; [reflexivity|].
  split; [apply lookup_insert_eq|]. do 3 (split; [reflexivity|]).
  split.
  - intros k2. unfold lookup. cbn [revocations bindings set_bindings graphs].
    rewrite bool_decide_eq_false_2 by exact Hr.
    rewrite lookup_insert_eq. unfold is_valid, utcnow. cbn [valid_from valid_until].
    destruct (_ && _); cbn [negb b_graph_id]; [rewrite Hg|]; reflexivity.
  - intros c' k2 Hne. unfold lookup. cbn [revocations bindings set_bindings graphs].
    rewrite lookup_insert_ne by congruence. reflexivity.
Qed.

(** X14. [revoke] raises when the code has no binding, and changes nothing
    then.  Otherwise the code is revoked from then on, its binding stays
    on file, and nothing changes for any other code. *)
Theorem revoke_only_its_code (r : Registry) (c : Z) (reason : string) :
  match get_binding r c with
  | None => revoke r c reason = (Raise (ValueError (no_binding_message c)), r)
  | Some b =>
      ∃ r', revoke r c reason = (Ret tt, r') ∧
            is_revoked r' c = true ∧ get_binding r' c = Some b ∧
            (∀ k, lookup r' c k = (None, k)) ∧
            graphs r' = graphs r ∧
            ∀ c', c' ≠ c ->
                  is_revoked r' c' = is_revoked r c' ∧
                  get_binding r' c' = get_binding r c' ∧
                  ∀ k, lookup r' c' k = lookup r c' k
  end.
Proof.
  unfold get_binding, revoke.
  destruct (bindings r !! c) as [b|] eqn:Hb; [|reflexivity].
  eexists. split; [reflexivity|].
  assert (Hin : c ∈ (revocations r ++ [c])%list)
    by (apply elem_of_app; right; apply elem_of_cons; auto).
  split; [apply bool_decide_eq_true_2, Hin|].
  split; [exact Hb|].
  split; [intros k; unfold lookup; cbn [revocations set_revocations];
          rewrite bool_decide_eq_true_2 by exact Hin; reflexivity|].
  split; [reflexivity|].
  intros c' Hne.
  assert (E : bool_decide (c' ∈ (revocations r ++ [c])%list)
              = bool_decide (c' ∈ revocations r)).
  { apply bool_decide_ext. rewrite elem_of_app, elem_of_cons, elem_of_nil. tauto. }
  split; [exact E|]. split; [reflexivity|].
  intros k. unfold lookup. cbn [revocations set_revocations bindings graphs].
  rewrite E. reflexivity.
Qed.

Lemma new_registry_consistent (registry_id : string) (d a : Z) :
  consistent (new_registry registry_id d a).
Proof.
  split; [|split].
  - intros c b H. cbn in H. rewrite lookup_empty in H. discriminate.
  - intros c H. cbn in H. apply elem_of_nil in H. contradiction.
  - intros gid g H. cbn in H. rewrite lookup_empty in H. discriminate.
Qed.

Lemma apply_operation_consistent (st : Registry * clock) (o : operation) :
  consistent st.1 -> consistent (apply_operation st o).1.
Proof.
  destruct st as [r k]. cbn [fst]. intros (Hb & Hrev & Hgr).
  destruct o as [g|c gid days|c reason]; cbn [Registry.apply_operation].
  - unfold register_graph.
    destruct (validate g) as [[|e errs]|e] eqn:Hv; cbn [fst snd];
      try (split; [|split]; assumption).
    split; [|split].
    + intros c b H. cbn in H. destruct (Hb c b H) as (H1 & H2 & H3 & H4).
      repeat split; try assumption; try lia.
      cbn. apply lookup_insert_is_Some.
      destruct (decide (graph_id g = b_graph_id b)); auto.
    + exact Hrev.
    + intros gid g' H. cbn in H.
      destruct (decide (graph_id g = gid)) as [<-|Hne].
      * rewrite lookup_insert_eq in H. inversion H. subst g'. auto.
      * rewrite lookup_insert_ne in H by exact Hne. exact (Hgr _ _ H).
  - unfold Registry.bind_glyph.
    destruct (graphs r !! gid) as [g|] eqn:Hg; cbn [fst];
      [|split; [|split]; assumption].
    destruct (negb _) eqn:Hrange; cbn [fst]; [split; [|split]; assumption|].
    apply negb_false_iff, andb_true_iff in Hrange as [H1 H2].
    apply Z.leb_le in H1, H2.
    unfold utcnow.
    destruct (timedelta days) as [delta|err]; cbn [fst];
      [|split; [|split]; assumption].
    destruct (datetime_add (k 1%nat) delta) as [t_end|err]; cbn [fst];
      [|split; [|split]; assumption].
    split; [|split].
    + intros c' b H. cbn in H.
      destruct (decide (c = c')) as [<-|Hne].
      * rewrite lookup_insert_eq in H. inversion H. cbn.
        rewrite Hg. repeat split; eauto.
      * rewrite lookup_insert_ne in H by exact Hne. exact (Hb _ _ H).
    + intros c' H. cbn in H. cbn. apply lookup_insert_is_Some.
      destruct (decide (c = c')); auto.
    + exact Hgr.
  - unfold revoke.
    destruct (bindings r !! c) as [b|] eqn:Hc; cbn [fst snd];
      [|split; [|split]; assumption].
    split; [exact Hb|]. split; [|exact Hgr].
    intros c' H. cbn in H. cbn.
    apply elem_of_app in H as [H|H]; [exact (Hrev _ H)|].
    apply elem_of_cons in H as [->|H]; [eauto|].
    apply elem_of_nil in H. contradiction.
Qed.

Lemma apply_operations_consistent (os : list operation) (st : Registry * clock) :
  consistent st.1 -> consistent (apply_operations st os).1.
Proof.
  revert st. induction os as [|o os IH]; intros st H; [exact H|].
  cbn. apply IH, apply_operation_consistent, H.
Qed.

Lemma apply_operation_identity (st : Registry * clock) (o : operation) :
  registry_id (apply_operation st o).1 = registry_id st.1 ∧
  r_domain (apply_operation st o).1 = r_domain st.1 ∧
  authority (apply_operation st o).1 = authority st.1.
Proof.
  destruct st as [r k]. destruct o as [g|c gid days|c reason];
    cbn [Registry.apply_operation fst].
  - unfold register_graph. destruct (validate g) as [[|e errs]|e]; auto.
  - unfold Registry.bind_glyph. destruct (graphs r !! gid); [|auto].
    destruct (negb _); [auto|]. cbn [utcnow].
    destruct (timedelta days) as [delta|err]; [|auto].
    destruct (datetime_add _ delta); auto.
  - unfold revoke. destruct (bindings r !! c); auto.
Qed.

Lemma apply_operations_identity (os : list operation) (st : Registry * clock) :
  registry_id (apply_operations st os).1 = registry_id st.1 ∧
  r_domain (apply_operations st os).1 = r_domain st.1 ∧
  authority (apply_operations st os).1 = authority st.1.
Proof.
  unfold Registry.apply_operations.
  revert st. induction os as [|o os IH]; intros st; [auto|].
  cbn [fold_left]. destruct (IH (apply_operation st o)) as (E1 & E2 & E3).
  destruct (apply_operation_identity st o) as (F1 & F2 & F3).
  rewrite E1, E2, E3. auto.
Qed.

(** X15. Whatever graphs are registered, codes bound and codes revoked, in
    any order and whether the calls succeed or raise, the registry built
    from a new one is consistent: every binding sits under its own code,
    which is in [0x8000, 0xFFFE], carries the registry's authority and
    names a registered graph; every revoked code has a binding; every
    graph sits under its own id and validates without error.  The
    registry keeps its id, its domain and its authority. *)
Theorem operations_build_consistent_registries
    (registry_id0 : string) (d a : Z) (k : clock) (os : list operation) :
  let r := (apply_operations (new_registry registry_id0 d a, k) os).1 in
  consistent r ∧ registry_id r = registry_id0 ∧ r_domain r = d ∧ authority r = a.
Proof.
  cbv zeta. split.
  - apply apply_operations_consistent, new_registry_consistent.
  - apply (apply_operations_identity os (new_registry registry_id0 d a, k)).
Qed.

(** X16. In a consistent registry, a graph that [lookup] returns for a code
    is one that validates without error, the code is in [0x8000, 0xFFFE]
    and not revoked, and its binding names the graph and is inside its
    validity window at the clock reading of the call. *)
Theorem lookup_returns_validated_graphs
    (r : Registry) (c : Z) (k : clock) (g : ExecutionGraph)
    (Hcons : consistent r) (Hlook : (lookup r c k).1 = Some g) :
  0x8000 <= c <= 0xFFFE ∧ validate g = Ret [] ∧ is_revoked r c = false ∧
  ∃ b, get_binding r c = Some b ∧ b_graph_id b = graph_id g ∧
       b_authority b = authority r ∧
       valid_from b <= k 0%nat <= valid_until b.
Proof.
  destruct Hcons as (Hb & _ & Hgr).
  unfold lookup in Hlook. unfold is_revoked, get_binding.
  destruct (bool_decide (c ∈ revocations r)); [discriminate Hlook|].
  destruct (bindings r !! c) as [b|] eqn:Hbc; [|discriminate Hlook].
  unfold is_valid, utcnow in Hlook.
  destruct ((valid_from b <=? k 0%nat) && (k 0%nat <=? valid_until b)) eqn:Hw;
    cbn [negb fst] in Hlook; [|discriminate Hlook].
  apply andb_true_iff in Hw as [W1 W2]. apply Z.leb_le in W1, W2.
  destruct (Hb c b Hbc) as (_ & Hrange & Hauth & _).
  destruct (Hgr _ _ Hlook) as [Hid Hval].
  split; [exact Hrange|]. split; [exact Hval|]. split; [reflexivity|].
  exists b. auto.
Qed.

End WithHash.

Lemma bind_then_lookup_witness :
  representable (const_clock 0 1%nat) 365 ∧
  ∃ b r',
    bind_glyph Samples.sample_sha Samples.sample_registry 0x8001 "g1" 365
      (const_clock 0) = (Ret b, r', const_clock 0) ∧
    (lookup r' 0x8001 (const_clock 0)).1 = Some Samples.sample_graph.
Proof.
  assert (Hg : graphs Samples.sample_registry !! "g1" = Some Samples.sample_graph)
    by (vm_compute; reflexivity).
  assert (Hc : 0x8000 <= 0x8001 <= 0xFFFE) by lia.
  assert (Hr : 0x8001 ∉ revocations Samples.sample_registry)
    by (cbn; apply not_elem_of_nil).
  assert (Hdays : representable (const_clock 0 1%nat) 365)
    by (unfold representable; vm_compute; split; split; discriminate).
  destruct (bind_then_lookup Samples.sample_sha Samples.sample_registry 0x8001 "g1" 365
              (const_clock 0) Samples.sample_graph Hg Hc Hdays Hr)
    as (b & r' & Hbind & _ & _ & _ & _ & Hlook & _).
  split; [exact Hdays|].
  exists b, r'. split; [exact Hbind|].
  rewrite Hlook. reflexivity.
Defined.

Lemma lookup_returns_validated_graphs_witness :
  (consistent Samples.bound_registry ∧
   (lookup Samples.bound_registry 0x8001 (const_clock 0)).1
   = Some Samples.sample_graph) ∧
  validate Samples.sample_graph = Ret [] ∧
  is_revoked Samples.bound_registry 0x8001 = false.
Proof.
  assert (Hcons : consistent Samples.bound_registry).
  { change Samples.bound_registry
      with (apply_operations Samples.sample_sha
              (new_registry "reg" 1 0x42, const_clock 0)
              [RegisterGraph Samples.sample_graph; BindGlyph 0x8001 "g1" 365]).1.
    apply apply_operations_consistent, new_registry_consistent. }
  assert (Hlook : (lookup Samples.bound_registry 0x8001 (const_clock 0)).1
                  = Some Samples.sample_graph) by (vm_compute; reflexivity).
  split; [auto|].
  destruct (lookup_returns_validated_graphs _ _ _ _ Hcons Hlook) as (_ & Hv & Hr & _).
  auto.
Defined.

End RegistryMore.

(** ** Interpreter: the gates, the walk, the log *)

Module InterpMore.
Import Interp InterpSpec Samples.

Section WithWorld.

Variable W : Type.
Variable py_eval : string -> list (value * value) -> outcome value.
Variable isoformat : Z -> string.

#[local] Abbreviation loop_body := (loop_body W py_eval).
#[local] Abbreviation walk := (walk W py_eval).
#[local] Abbreviation _execute_graph := (_execute_graph W py_eval).
#[local] Abbreviation execute := (execute W py_eval isoformat).
#[local] Abbreviation run := (run W py_eval isoformat).

(** *** The action registry *)

(** X17. A registered handler is the one [execute] calls for its operation,
    with the resolved parameters and the world as they are; registering
    it changes nothing for any other operation; an operation without a
    handler raises [ValueError] and leaves the world alone. *)
Theorem registered_handler_is_dispatched
    (a : ActionRegistry W) (op : string) (h : handler W) (ps : dict) (w : W) :
  actions_execute W (register W a op h) (VStr op) ps w = h ps w ∧
  has_handler W (register W a op h) op = true ∧
  (∀ op', op' ≠ op ->
     actions_execute W (register W a op h) (VStr op') ps w
       = actions_execute W a (VStr op') ps w ∧
     has_handler W (register W a op h) op' = has_handler W a op') ∧
  (∀ op', has_handler W a op' = false ->
     actions_execute W a (VStr op') ps w
       = (Raise (ValueError ("Unknown operation: " +:+ op')), w)).
Proof.
  unfold actions_execute, has_handler, register. cbn [handlers].
  split; [rewrite lookup_insert_eq; reflexivity|].
  split; [rewrite lookup_insert_eq; apply bool_decide_eq_true_2; eauto|].
  split.
  - intros op' Hne. split.
    + rewrite lookup_insert_ne by congruence. reflexivity.
    + apply bool_decide_ext. rewrite lookup_insert_ne by congruence. reflexivity.
  - intros op' H. apply bool_decide_eq_false in H.
    destruct (handlers W a !! op') as [h'|]; [|reflexivity].
    contradiction H. eauto.
Qed.

(** *** The gates of [execute] *)

Lemma reject_result (reason : string) (start_time : Z) (k : clock) :
  _reject reason start_time k
  = ({| status := "rejected"; outputs := [];
        execution_time_ms := Z.quot (k 0%nat - start_time) 1000;
        node_trace := []; error := Some reason |}, fun n => k (S n)).
Proof. reflexivity. Qed.

Lemma execute_without_binding
    (self : Interpreter W) (frame : Glyph.GlyphFrame) (k : clock) (w : W) :
  Registry.get_binding (registry W self) (Glyph.glyph_code frame) = None ->
  execute self frame k w
  = (Ret {| status := "rejected"; outputs := [];
            execution_time_ms := Z.quot (k 1%nat - k 0%nat) 1000;
            node_trace := [];
            error := Some (Registry.no_binding_message (Glyph.glyph_code frame)) |},
     self, fun n => k (S (S n)), w).
Proof.
  intros H. unfold Interp.execute. cbn [utcnow]. rewrite H, reject_result. reflexivity.
Qed.

(** X18. A frame whose glyph code has no binding, or whose authority is
    revoked, or whose glyph code is revoked, is rejected: [execute]
    returns a result with status rejected, without outputs and without
    trace, and the interpreter and the world are as before.  Without a
    binding the error names the glyph; with a binding and a revoked
    authority it is the trust failure. *)
Theorem unbound_or_revoked_is_rejected
    (self : Interpreter W) (frame : Glyph.GlyphFrame) (k : clock) (w : W)
    (H : Registry.get_binding (registry W self) (Glyph.glyph_code frame) = None ∨
         (Glyph.domain frame, Glyph.authority frame)
           ∈ Trust.revoked_authorities (trust W self) ∨
         Glyph.glyph_code frame ∈ Registry.revocations (registry W self)) :
  ∃ r k',
    execute self frame k w = (Ret r, self, k', w) ∧
    status r = "rejected" ∧ outputs r = [] ∧ node_trace r = [] ∧
    (Registry.get_binding (registry W self) (Glyph.glyph_code frame) = None ->
     error r = Some (Registry.no_binding_message (Glyph.glyph_code frame))) ∧
    (Registry.get_binding (registry W self) (Glyph.glyph_code frame) ≠ None ->
     (Glyph.domain frame, Glyph.authority frame)
       ∈ Trust.revoked_authorities (trust W self) ->
     error r = Some "Trust verification failed: Authority has been revoked").
Proof.
  unfold Interp.execute. cbn [utcnow].
  destruct (Registry.get_binding _ _) as [binding|] eqn:Hb.
  2:{ rewrite reject_result. eexists _, _. split; [reflexivity|].
      cbn. repeat split; try reflexivity. intros Hn. contradiction Hn. reflexivity. }
  destruct (decide ((Glyph.domain frame, Glyph.authority frame)
                      ∈ Trust.revoked_authorities (trust W self))) as [Hrev|Hnrev].
  { rewrite TrustMore.verify_revoked by exact Hrev. cbn [Trust.valid Trust.invalid negb].
    rewrite reject_result. eexists _, _. split; [reflexivity|].
    cbn. repeat split; try reflexivity. discriminate. }
  destruct H as [H|[H|H]]; [discriminate H|contradiction|].
  destruct (Trust.verify _ _ _ _ _) as [trust_result k1].
  destruct (Trust.valid trust_result); cbn [negb].
  - unfold Registry.lookup. rewrite bool_decide_eq_true_2 by exact H.
    rewrite reject_result. eexists _, _. split; [reflexivity|].
    cbn. repeat split; try reflexivity; [discriminate|contradiction].
  - rewrite reject_result. eexists _, _. split; [reflexivity|].
    cbn. repeat split; try reflexivity; [discriminate|contradiction].
Qed.

(** X19. A rejected call has no effect: when [execute] returns a result with
    status rejected, the interpreter (its log included) and the world
    are as before, and the result has no outputs, no trace and an
    error. *)
Theorem rejected_call_changes_nothing
    (self : Interpreter W) (frame : Glyph.GlyphFrame) (k : clock) (w : W)
    (r : ExecutionResult)
    (Hres : (execute self frame k w).1.1.1 = Ret r)
    (Hrej : status r = "rejected") :
  (execute self frame k w).1.1.2 = self ∧ (execute self frame k w).2 = w ∧
  outputs r = [] ∧ node_trace r = [] ∧ is_Some (error r).
Proof.
  revert Hres. unfold Interp.execute. cbn [utcnow].
  destruct (Registry.get_binding _ _) as [binding|].
  2:{ rewrite reject_result. cbn. intros E. inversion E. cbn. eauto 6. }
  destruct (Trust.verify _ _ _ _ _) as [trust_result k1].
  destruct (Trust.valid trust_result); cbn [negb].
  2:{ rewrite reject_result. cbn. intros E. inversion E. cbn. eauto 6. }
  destruct (Registry.lookup _ _ _) as [[graph|] k2].
  2:{ rewrite reject_result. cbn. intros E. inversion E. cbn. eauto 6. }
  destruct (_build_context _ _ _ _) as [[ctx|e] k3].
  2:{ destruct (is_ValueError e); [|discriminate].
      rewrite reject_result. cbn. intros E. inversion E. cbn. eauto 6. }
  destruct (Interp._execute_graph _ _ _ _ _ _) as [[result|e] w1].
  - cbn. intros E. inversion E as [Hr]. subst r. cbn in Hrej.
    destruct (String.eqb (w_status result) "completed"); discriminate Hrej.
  - destruct (is_Exception e); [|discriminate].
    cbn. intros E. inversion E as [Hr]. subst r. discriminate Hrej.
Qed.

(** X20. A frame that got past rejection passed every gate.  When [execute]
    returns a result that is not a rejection, the glyph code has a
    binding with a signature, the authority is not revoked and has a
    certificate whose window holds the second clock reading, the domain
    has one whose window holds the third, the glyph code is not revoked,
    the binding's window holds the fourth reading, and the graph the
    binding names is registered. *)
Theorem executed_frame_passed_every_gate
    (self : Interpreter W) (frame : Glyph.GlyphFrame) (k : clock) (w : W)
    (r : ExecutionResult)
    (Hres : (execute self frame k w).1.1.1 = Ret r)
    (Hrun : status r ≠ "rejected") :
  ∃ b g ac dc,
    Registry.get_binding (registry W self) (Glyph.glyph_code frame) = Some b ∧
    Registry.signature b ≠ "" ∧
    ((Glyph.domain frame, Glyph.authority frame)
       ∉ Trust.revoked_authorities (trust W self)) ∧
    Trust.authority_certs (trust W self)
      !! (Glyph.domain frame, Glyph.authority frame) = Some ac ∧
    Trust.domain_certs (trust W self) !! Glyph.domain frame = Some dc ∧
    Trust.valid_from ac <= k 1%nat <= Trust.valid_until ac ∧
    Trust.valid_from dc <= k 2%nat <= Trust.valid_until dc ∧
    Registry.is_revoked (registry W self) (Glyph.glyph_code frame) = false ∧
    Registry.valid_from b <= k 3%nat <= Registry.valid_until b ∧
    Registry.graphs (registry W self) !! Registry.b_graph_id b = Some g.
Proof.
  revert Hres. unfold Interp.execute. cbn [utcnow].
  destruct (Registry.get_binding _ _) as [binding|] eqn:Hb.
  2:{ rewrite reject_result. cbn. intros E. inversion E as [Hr]. subst r.
      contradiction Hrun. reflexivity. }
  pose proof (TrustMore.verify_valid_facts (trust W self)
                (Glyph.domain frame) (Glyph.authority frame)
                (Registry.signature binding) (λ n : nat, k (S n))) as Hv.
  destruct (Trust.verify _ _ _ _ _) as [trust_result k1].
  cbn [fst snd] in Hv.
  destruct (Trust.valid trust_result); cbn [negb].
  2:{ rewrite reject_result. cbn. intros E. inversion E as [Hr]. subst r.
      contradiction Hrun. reflexivity. }
  destruct (Hv eq_refl) as (Hnr & Hsig & -> & ac & dc & Hac & Hdc & Wa & Wd).
  unfold Registry.lookup, Registry.is_revoked.
  destruct (bool_decide _).
  { rewrite reject_result. cbn. intros E. inversion E as [Hr]. subst r.
    contradiction Hrun. reflexivity. }
  unfold Registry.get_binding in Hb. rewrite Hb.
  unfold Registry.is_valid, utcnow.
  destruct ((Registry.valid_from binding <=? k 3%nat)
            && (k 3%nat <=? Registry.valid_until binding)) eqn:Hw; cbn [negb].
  2:{ rewrite reject_result. cbn. intros E. inversion E as [Hr]. subst r.
      contradiction Hrun. reflexivity. }
  destruct (Registry.graphs (registry W self) !! Registry.b_graph_id binding)
    as [graph|] eqn:Hg.
  2:{ rewrite reject_result. cbn. intros E. inversion E as [Hr]. subst r.
      contradiction Hrun. reflexivity. }
  intros _. apply andb_true_iff in Hw as [W1 W2]. apply Z.leb_le in W1, W2.
  exists binding, graph, ac, dc. repeat split; try assumption; try lia.
Qed.

(** *** The walk *)

Lemma eq_str_true (v : value) (s : string) : eq_str v s = true -> v = VStr s.
Proof.
  destruct v; cbn; try discriminate. intros H. apply String.eqb_eq in H. congruence.
Qed.

Lemma lookup_node (graph : Registry.ExecutionGraph) (v : value) (node : dict) :
  Registry.nodes_lookup v (Registry.nodes graph) = Ret (Some node) ->
  ∃ id, v = VStr id ∧ Registry.nodes_get id (Registry.nodes graph) = Some node.
Proof.
  destruct v; cbn; intros H; try discriminate. inversion H. eauto.
Qed.

(** An iteration that goes on was at a node of the graph. *)
Lemma loop_body_continue_node
    (self : Interpreter W) (graph : Registry.ExecutionGraph) (s s' : walk_state W) :
  loop_body self graph s = Continue W s' ->
  ∃ id node, current_node W s = VStr id ∧
             Registry.nodes_get id (Registry.nodes graph) = Some node ∧
             trace W s' = (trace W s ++ [id])%list.
Proof.
  intros H. pose proof (InterpProps.loop_body_continue_trace W py_eval _ _ _ _ H) as Ht.
  unfold Interp.loop_body in H.
  destruct (Registry.nodes_lookup _ _) as [[node|]|e] eqn:Hl; try discriminate.
  destruct (lookup_node _ _ _ Hl) as (id & Hid & Hnode).
  exists id, node. rewrite Hid in Ht. auto.
Qed.

(** What an iteration that returns has recorded, and with what status *)
Lemma loop_body_return_facts
    (self : Interpreter W) (graph : Registry.ExecutionGraph) (s : walk_state W)
    (r : walk_result) (w : W) :
  loop_body self graph s = Return W r w ->
  ∃ more,
    w_trace r = (trace W s ++ more)%list ∧
    Forall (fun id => is_Some (Registry.nodes_get id (Registry.nodes graph))) more ∧
    (more = [] ∨ more = [py_str (current_node W s)]) ∧
    ((w_status r = "completed" ∧ is_Some (w_outputs r) ∧ w_error r = None ∧
      ∃ id node, more = [id] ∧
                 Registry.nodes_get id (Registry.nodes graph) = Some node ∧
                 dict_get "type" node = Some (VStr "exit")) ∨
     (w_status r = "failed" ∧ is_Some (w_error r) ∧ w_outputs r = None)).
Proof.
  unfold Interp.loop_body. intros H.
  destruct (Registry.nodes_lookup _ _) as [[node|]|e] eqn:Hl; try discriminate.
  2:{ inversion H; subst. exists []. cbn. rewrite app_nil_r.
      split; [reflexivity|]. split; [constructor|]. split; [auto|]. right. eauto. }
  destruct (lookup_node _ _ _ Hl) as (id & Hid & Hnode). rewrite Hid in *.
  cbn [py_str] in *.
  assert (Hone : Forall (fun id => is_Some (Registry.nodes_get id (Registry.nodes graph)))
                   [id]) by (constructor; [eauto|constructor]).
  destruct (eq_str _ "entry"); [discriminate|].
  destruct (eq_str _ "exit") eqn:Hexit.
  { destruct (_resolve_outputs _ _) as [outs|e]; [|discriminate].
    inversion H; subst. exists [id]. cbn.
    split; [reflexivity|]. split; [exact Hone|]. split; [auto|]. left.
    split; [reflexivity|]. split; [eauto|]. split; [reflexivity|].
    exists id, node. split; [reflexivity|]. split; [exact Hnode|].
    apply eq_str_true in Hexit. unfold dict_get_default in Hexit.
    destruct (dict_get "type" node); [congruence|discriminate]. }
  destruct (eq_str _ "action").
  { destruct (_execute_action _ _ _ _ _) as [[result|e] w0]; [discriminate|].
    destruct (is_Exception e); [|discriminate].
    destruct (dict_get "on_error" node); discriminate. }
  destruct (eq_str _ "condition").
  { destruct (Interp._evaluate_condition _ _ _) as [[|]|e]; discriminate. }
  inversion H; subst. exists [id]. cbn.
  split; [reflexivity|]. split; [exact Hone|]. split; [auto|]. right. eauto.
Qed.

Lemma walk_trace_facts
    (self : Interpreter W) (graph : Registry.ExecutionGraph) (n : nat) :
  ∀ s r w, walk self graph n s = (Ret r, w) ->
    ∃ more,
      w_trace r = (trace W s ++ more)%list ∧
      Forall (fun id => is_Some (Registry.nodes_get id (Registry.nodes graph))) more ∧
      (more = [] ∨ ∃ rest, more = py_str (current_node W s) :: rest) ∧
      ((w_status r = "completed" ∧ is_Some (w_outputs r) ∧ w_error r = None ∧
        ∃ pre id node, more = (pre ++ [id])%list ∧
                       Registry.nodes_get id (Registry.nodes graph) = Some node ∧
                       dict_get "type" node = Some (VStr "exit")) ∨
       (w_status r = "failed" ∧ is_Some (w_error r) ∧ w_outputs r = None)).
Proof.
  induction n as [|n IH]; intros s r w H; cbn [Interp.walk] in H.
  - inversion H; subst. exists []. cbn. rewrite app_nil_r.
    split; [reflexivity|]. split; [constructor|]. split; [auto|]. right. eauto.
  - destruct (Interp.loop_body W py_eval self graph s) as [s1|r1 w1|e w1] eqn:Hb.
    + destruct (loop_body_continue_node _ _ _ _ Hb) as (id & node & Hid & Hnode & Ht).
      destruct (IH _ _ _ H) as (more & Htr & Hall & _ & Hst).
      exists (id :: more). rewrite Htr, Ht, <- app_assoc.
      split; [reflexivity|]. split; [constructor; eauto|].
      split; [right; rewrite Hid; eauto|].
      destruct Hst as [(S1 & S2 & S3 & pre & id' & node' & -> & Hn' & Hx)|Hst];
        [left|right; exact Hst].
      split; [exact S1|]. split; [exact S2|]. split; [exact S3|].
      exists (id :: pre), id', node'. auto.
    + inversion H; subst.
      destruct (loop_body_return_facts _ _ _ _ _ Hb) as (more & Htr & Hall & Hm & Hst).
      exists more. split; [exact Htr|]. split; [exact Hall|].
      split; [destruct Hm as [->| ->]; eauto|].
      destruct Hst as [(S1 & S2 & S3 & id' & node' & -> & Hn' & Hx)|Hst];
        [left|right; exact Hst].
      split; [exact S1|]. split; [exact S2|]. split; [exact S3|].
      exists [], id', node'. auto.
    + discriminate.
Qed.

(** X21. The trace of a walk follows the graph.  Every entry of the trace
    [_execute_graph] returns is a node of the graph, and the first one,
    if there is one, is [start].  A completed walk has outputs and no
    error, and the last entry of its trace is a node of type [exit];
    any other walk is failed, with an error and without outputs. *)
Theorem walk_trace_follows_graph
    (self : Interpreter W) (graph : Registry.ExecutionGraph)
    (ctx : ExecutionContext) (w : W) (r : walk_result)
    (H : (_execute_graph self graph ctx w).1 = Ret r) :
  Forall (fun id => is_Some (Registry.nodes_get id (Registry.nodes graph)))
    (w_trace r) ∧
  (w_trace r = [] ∨ ∃ rest, w_trace r = "start" :: rest) ∧
  ((w_status r = "completed" ∧ is_Some (w_outputs r) ∧ w_error r = None ∧
    ∃ pre id node, w_trace r = (pre ++ [id])%list ∧
                   Registry.nodes_get id (Registry.nodes graph) = Some node ∧
                   dict_get "type" node = Some (VStr "exit")) ∨
   (w_status r = "failed" ∧ is_Some (w_error r) ∧ w_outputs r = None)).
Proof.
  unfold Interp._execute_graph in H.
  destruct (Interp.walk _ _ _ _ _ _) as [res w'] eqn:Hw. cbn [fst] in H. subst res.
  destruct (walk_trace_facts _ _ _ _ _ _ Hw) as (more & Htr & Hall & Hm & Hst).
  cbn in Htr, Hm. rewrite Htr. auto.
Qed.

(** *** The log *)

Lemma loop_body_same_actions
    (self1 self2 : Interpreter W) (graph : Registry.ExecutionGraph) (s : walk_state W) :
  actions W self1 = actions W self2 ->
  loop_body self1 graph s = loop_body self2 graph s.
Proof.
  intros H. unfold Interp.loop_body, _execute_action. rewrite H. reflexivity.
Qed.

Lemma walk_same_actions
    (self1 self2 : Interpreter W) (graph : Registry.ExecutionGraph) (n : nat) :
  actions W self1 = actions W self2 ->
  ∀ s, walk self1 graph n s = walk self2 graph n s.
Proof.
  intros H. induction n as [|n IH]; intros s; [reflexivity|].
  cbn [Interp.walk]. rewrite (loop_body_same_actions _ _ _ _ H).
  destruct (Interp.loop_body W py_eval self2 graph s); [apply IH|reflexivity..].
Qed.

(** X22. The log is written, never read: two interpreters that differ in
    their logs at most return the same outcome for the same frame, clock
    and world, leave the same clock and the same world, append the same
    entries to their logs, and still differ in their logs at most. *)
Theorem log_does_not_influence_execution
    (self1 self2 : Interpreter W) (frame : Glyph.GlyphFrame) (k : clock) (w : W)
    (Hsame : same_but_log W self1 self2) :
  (execute self1 frame k w).1.1.1 = (execute self2 frame k w).1.1.1 ∧
  (execute self1 frame k w).1.2 = (execute self2 frame k w).1.2 ∧
  (execute self1 frame k w).2 = (execute self2 frame k w).2 ∧
  same_but_log W (execute self1 frame k w).1.1.2 (execute self2 frame k w).1.1.2 ∧
  ∃ new,
    execution_log W (execute self1 frame k w).1.1.2
      = (execution_log W self1 ++ new)%list ∧
    execution_log W (execute self2 frame k w).1.1.2
      = (execution_log W self2 ++ new)%list.
Proof.
  pose proof Hsame as (Hr & Ht & Ha & Hm).
  assert (Hnil : ∀ l : list log_entry, l = (l ++ [])%list)
    by (intros l; rewrite app_nil_r; reflexivity).
  unfold Interp.execute. cbn [utcnow]. rewrite <- Hr, <- Ht.
  destruct (Registry.get_binding _ _) as [binding|].
  2:{ rewrite reject_result. cbn. repeat split; try assumption. exists []. auto. }
  destruct (Trust.verify _ _ _ _ _) as [trust_result k1].
  destruct (Trust.valid trust_result); cbn [negb].
  2:{ rewrite reject_result. cbn. repeat split; try assumption. exists []. auto. }
  destruct (Registry.lookup _ _ _) as [[graph|] k2].
  2:{ rewrite reject_result. cbn. repeat split; try assumption. exists []. auto. }
  destruct (_build_context _ _ _ _) as [[ctx|e] k3].
  2:{ destruct (is_ValueError e); [rewrite reject_result|]; cbn;
        repeat split; try assumption; exists []; auto. }
  unfold Interp._execute_graph. rewrite <- Hm.
  rewrite (walk_same_actions self1 self2 graph _ Ha).
  destruct (Interp.walk _ _ _ _ _ _) as [[result|e] w1].
  - cbn. repeat split; try assumption. eexists. split; reflexivity.
  - destruct (is_Exception e); cbn; repeat split; try assumption; exists []; auto.
Qed.

(** One call, as the log sees it *)
Lemma execute_log_step
    (self : Interpreter W) (frame : Glyph.GlyphFrame) (k : clock) (w : W) :
  same_but_log W (execute self frame k w).1.1.2 self ∧
  ((execution_log W (execute self frame k w).1.1.2 = execution_log W self ∧
    ∀ r, (execute self frame k w).1.1.1 = Ret r -> status r ≠ "success") ∨
   (∃ r entry,
      (execute self frame k w).1.1.1 = Ret r ∧
      execution_log W (execute self frame k w).1.1.2
        = (execution_log W self ++ [entry])%list ∧
      l_status entry = status r ∧
      (status r = "success" ∨ status r = "failed"))).
Proof.
  assert (Hrefl : same_but_log W self self) by (repeat split).
  unfold Interp.execute. cbn [utcnow].
  destruct (Registry.get_binding _ _) as [binding|].
  2:{ rewrite reject_result. cbn. split; [exact Hrefl|]. left.
      split; [reflexivity|]. intros r E. inversion E. discriminate. }
  destruct (Trust.verify _ _ _ _ _) as [trust_result k1].
  destruct (Trust.valid trust_result); cbn [negb].
  2:{ rewrite reject_result. cbn. split; [exact Hrefl|]. left.
      split; [reflexivity|]. intros r E. inversion E. discriminate. }
  destruct (Registry.lookup _ _ _) as [[graph|] k2].
  2:{ rewrite reject_result. cbn. split; [exact Hrefl|]. left.
      split; [reflexivity|]. intros r E. inversion E. discriminate. }
  destruct (_build_context _ _ _ _) as [[ctx|e] k3].
  2:{ destruct (is_ValueError e); [rewrite reject_result|]; cbn;
        (split; [exact Hrefl|]); left; (split; [reflexivity|]);
        intros r E; inversion E; discriminate. }
  destruct (Interp._execute_graph _ _ _ _ _ _) as [[result|e] w1].
  - cbn. split; [repeat split|]. right. eexists _, _.
    split; [reflexivity|]. split; [reflexivity|]. split; [reflexivity|].
    cbn. destruct (String.eqb (w_status result) "completed"); auto.
  - destruct (is_Exception e); cbn; (split; [exact Hrefl|]); left;
      (split; [reflexivity|]); intros r E; inversion E; discriminate.
Qed.

(** X23. Over a run of calls on one interpreter the log only grows, by
    entries with status success or failed: one success entry for each
    successful result, in all no more entries than results that are not
    rejections.  The registry, the trust store, the handlers and the
    iteration cap of the interpreter stay as they were. *)
Theorem run_log_counts_successes
    (frames : list Glyph.GlyphFrame) (self : Interpreter W) (k : clock) (w : W) :
  let results := (run self frames k w).1.1.1 in
  let self' := (run self frames k w).1.1.2 in
  same_but_log W self' self ∧
  ∃ new,
    execution_log W self' = (execution_log W self ++ new)%list ∧
    Forall (fun e => l_status e = "success" ∨ l_status e = "failed") new ∧
    List.length (filter (fun e => l_status e = "success") new)
      = List.length (filter (fun r => status r = "success") results) ∧
    (List.length new
       <= List.length (filter (fun r => status r ≠ "rejected") results))%nat.
Proof.
  cbv zeta. revert self k w.
  induction frames as [|frame rest IH]; intros self k w.
  - cbn. split; [repeat split|]. exists []. rewrite app_nil_r.
    split; [reflexivity|]. split; [constructor|]. split; reflexivity.
  - cbn [InterpSpec.run].
    destruct (execute_log_step self frame k w) as [Hsame Hlog].
    destruct (Interp.execute W py_eval isoformat self frame k w)
      as [[[res self1] k1] w1].
    cbn [fst snd] in Hsame, Hlog.
    destruct res as [r|e].
    + specialize (IH self1 k1 w1).
      destruct (InterpSpec.run W py_eval isoformat self1 rest k1 w1)
        as [[[rs self2] k2] w2].
      cbn [fst snd] in IH |- *.
      destruct IH as [Hsame2 (new2 & Hlog2 & Hall2 & Hsucc2 & Hlen2)].
      split.
      { destruct Hsame as (A1 & A2 & A3 & A4), Hsame2 as (B1 & B2 & B3 & B4).
        repeat split; congruence. }
      destruct Hlog as [[Hlog Hns]|(r' & entry & Hr' & Hlog & Hst & Hsf)].
      * exists new2. rewrite Hlog2, Hlog. split; [reflexivity|].
        split; [exact Hall2|].
        specialize (Hns r eq_refl).
        rewrite filter_cons. destruct (decide (status r = "success")); [contradiction|].
        split; [exact Hsucc2|].
        rewrite (filter_cons (fun r => status r ≠ "rejected")).
        destruct (decide (status r ≠ "rejected")); cbn [List.length]; lia.
      * inversion Hr'; subst r'.
        exists (entry :: new2). rewrite Hlog2, Hlog, <- app_assoc.
        split; [reflexivity|].
        split; [constructor; [rewrite Hst; exact Hsf|exact Hall2]|].
        rewrite !filter_cons, Hst.
        assert (Hnr : status r ≠ "rejected") by (destruct Hsf as [-> | ->]; discriminate).
        destruct (decide (status r ≠ "rejected")); [|contradiction].
        destruct (decide (status r = "success")); cbn [List.length]; split; lia.
    + cbn [fst snd]. split; [exact Hsame|].
      destruct Hlog as [[Hlog _]|(r' & entry & Hr' & _)]; [|discriminate Hr'].
      exists []. rewrite app_nil_r. split; [exact Hlog|].
      split; [constructor|]. split; reflexivity.
Qed.

(** *** The codec, the registry and the interpreter together *)

(** X24. A consistent registry binds glyph codes in [0x8000, 0xFFFE] only, so
    its interpreter rejects every frame with a glyph code outside that
    range for want of a binding, leaving itself and the world as they
    were.  A token that [from_text] does not know is read as 0xFFFF:
    such a URI is never executed. *)
Theorem unknown_token_is_never_executed
    (self : Interpreter W) (k : clock) (w : W)
    (Hcons : RegistrySpec.consistent (registry W self)) :
  (∀ frame,
     ¬ (0x8000 <= Glyph.glyph_code frame <= 0xFFFE) ->
     ∃ r k', execute self frame k w = (Ret r, self, k', w) ∧
             status r = "rejected" ∧
             error r = Some (Registry.no_binding_message (Glyph.glyph_code frame))) ∧
  (∀ uri frame,
     Glyph.from_text uri = Ret frame ->
     Glyph.glyph_code frame ∉ map fst Glyph.GLYPH_TOKENS ->
     ∃ r k', execute self frame k w = (Ret r, self, k', w) ∧
             status r = "rejected" ∧
             error r = Some "No binding for glyph 0xFFFF").
Proof.
  assert (Hout : ∀ frame,
            ¬ (0x8000 <= Glyph.glyph_code frame <= 0xFFFE) ->
            Registry.get_binding (registry W self) (Glyph.glyph_code frame) = None).
  { intros frame Hr. unfold Registry.get_binding.
    destruct (Registry.bindings (registry W self) !! Glyph.glyph_code frame)
      as [b|] eqn:Hb; [|reflexivity].
    destruct Hcons as (Hbind & _). destruct (Hbind _ _ Hb) as (_ & Hrange & _).
    contradiction. }
  split.
  - intros frame Hr. rewrite (execute_without_binding _ _ _ _ (Hout frame Hr)).
    eexists _, _. split; [reflexivity|]. split; reflexivity.
  - intros uri frame Hf Htok.
    pose proof (GlyphMore.from_text_glyph_code uri frame Hf) as Hg.
    unfold GlyphSpec.token_codes in Hg.
    apply elem_of_app in Hg as [Hg|Hg]; [contradiction|].
    apply elem_of_cons in Hg as [Hg|Hg]; [|apply elem_of_nil in Hg; contradiction].
    assert (Hr : ¬ (0x8000 <= Glyph.glyph_code frame <= 0xFFFE)) by (rewrite Hg; lia).
    rewrite (execute_without_binding _ _ _ _ (Hout frame Hr)), Hg.
    eexists _, _. split; [reflexivity|]. split; reflexivity.
Qed.

End WithWorld.

(** *** At the sample interpreter *)

Lemma sample_registry_consistent :
  RegistrySpec.consistent (registry unit (interpreter_for unit sample_graph 0x8001)).
Proof.
  change (registry unit (interpreter_for unit sample_graph 0x8001))
    with (Registry.apply_operations sample_sha
            (Registry.new_registry "reg" 1 0x42, sample_clock)
            [Registry.RegisterGraph sample_graph;
             Registry.BindGlyph 0x8001 "g1" 365]).1.
  apply RegistryMore.apply_operations_consistent,
    RegistryMore.new_registry_consistent.
Qed.

Lemma unbound_or_revoked_is_rejected_witness :
  let self := interpreter_for unit sample_graph 0x8001 in
  Registry.get_binding (registry unit self) 0x8002 = None ∧
  ∃ r k',
    execute unit no_eval pretty self (frame_for 0x8002 None) sample_clock tt
      = (Ret r, self, k', tt) ∧
    status r = "rejected" ∧ error r = Some "No binding for glyph 0x8002".
Proof.
  cbv zeta.
  assert (H : Registry.get_binding
                (registry unit (interpreter_for unit sample_graph 0x8001))
                (Glyph.glyph_code (frame_for 0x8002 None)) = None)
    by (vm_compute; reflexivity).
  split; [exact H|].
  destruct (unbound_or_revoked_is_rejected unit no_eval pretty
              (interpreter_for unit sample_graph 0x8001) (frame_for 0x8002 None)
              sample_clock tt (or_introl H))
    as (r & k' & Hex & Hst & _ & _ & Herr & _).
  exists r, k'. split; [exact Hex|]. split; [exact Hst|].
  rewrite (Herr H). vm_compute. reflexivity.
Defined.

Lemma rejected_call_changes_nothing_witness :
  let self := interpreter_for unit sample_graph 0x8001 in
  let call := execute unit no_eval pretty self (frame_for 0x8002 None) sample_clock tt in
  ∃ r, call.1.1.1 = Ret r ∧ status r = "rejected" ∧ call.1.1.2 = self ∧ call.2 = tt.
Proof.
  cbv zeta.
  assert (Hres : (execute unit no_eval pretty (interpreter_for unit sample_graph 0x8001)
                    (frame_for 0x8002 None) sample_clock tt).1.1.1
                 = Ret {| status := "rejected"; outputs := []; execution_time_ms := 0;
                          node_trace := [];
                          error := Some "No binding for glyph 0x8002" |})
    by (vm_compute; reflexivity).
  eexists. split; [exact Hres|]. split; [reflexivity|].
  destruct (rejected_call_changes_nothing unit no_eval pretty _ _ _ _ _ Hres eq_refl)
    as (Hself & Hw & _).
  split; [exact Hself|exact Hw].
Defined.

Lemma executed_frame_passed_every_gate_witness :
  let self := interpreter_for unit sample_graph 0x8001 in
  ∃ r b,
    (execute unit no_eval pretty self (frame_for 0x8001 None) sample_clock tt).1.1.1
      = Ret r ∧
    status r = "success" ∧
    Registry.get_binding (registry unit self) 0x8001 = Some b ∧
    Registry.valid_from b <= sample_clock 3%nat <= Registry.valid_until b.
Proof.
  cbv zeta.
  assert (Hres : (execute unit no_eval pretty (interpreter_for unit sample_graph 0x8001)
                    (frame_for 0x8001 None) sample_clock tt).1.1.1
                 = Ret {| status := "success"; outputs := []; execution_time_ms := 0;
                          node_trace := ["start"; "done"]; error := None |})
    by (vm_compute; reflexivity).
  assert (Hrun : status {| status := "success"; outputs := []; execution_time_ms := 0;
                           node_trace := ["start"; "done"]; error := None |}
                 ≠ "rejected") by discriminate.
  destruct (executed_frame_passed_every_gate unit no_eval pretty _ _ _ _ _ Hres Hrun)
    as (b & g & ac & dc & Hb & _ & _ & _ & _ & _ & _ & _ & Hw & _).
  eexists _, b. split; [exact Hres|]. split; [reflexivity|].
  split; [exact Hb|exact Hw].
Defined.

Lemma walk_trace_follows_graph_witness :
  ∃ r,
    (_execute_graph unit no_eval (interpreter_for unit sample_graph 0x8001) sample_graph
       {| parameters := []; system := []; node_results := [] |} tt).1 = Ret r ∧
    w_trace r = ["start"; "done"] ∧
    Forall (fun id => is_Some (Registry.nodes_get id (Registry.nodes sample_graph)))
      (w_trace r).
Proof.
  assert (H : (_execute_graph unit no_eval (interpreter_for unit sample_graph 0x8001)
                 sample_graph
                 {| parameters := []; system := []; node_results := [] |} tt).1
              = Ret (walk_completed [] ["start"; "done"]))
    by (vm_compute; reflexivity).
  eexists. split; [exact H|]. split; [reflexivity|].
  exact (proj1 (walk_trace_follows_graph unit no_eval _ _ _ _ _ H)).
Defined.

Lemma log_does_not_influence_execution_witness :
  let self := interpreter_for unit sample_graph 0x8001 in
  let logged :=
    (execute unit no_eval pretty self (frame_for 0x8001 None) sample_clock tt).1.1.2 in
  same_but_log unit logged (clear_execution_log unit logged) ∧
  (execute unit no_eval pretty logged (frame_for 0x8001 None) sample_clock tt).1.1.1
  = (execute unit no_eval pretty (clear_execution_log unit logged)
       (frame_for 0x8001 None) sample_clock tt).1.1.1.
Proof.
  cbv zeta.
  assert (H : same_but_log unit
                (execute unit no_eval pretty (interpreter_for unit sample_graph 0x8001)
                   (frame_for 0x8001 None) sample_clock tt).1.1.2
                (clear_execution_log unit
                   (execute unit no_eval pretty
                      (interpreter_for unit sample_graph 0x8001)
                      (frame_for 0x8001 None) sample_clock tt).1.1.2))
    by (repeat split).
  split; [exact H|].
  exact (proj1 (log_does_not_influence_execution unit no_eval pretty _ _
                  (frame_for 0x8001 None) sample_clock tt H)).
Defined.

Lemma unknown_token_is_never_executed_witness :
  let self := interpreter_for unit sample_graph 0x8001 in
  RegistrySpec.consistent (registry unit self) ∧
  ∃ frame r k',
    Glyph.from_text "UASC://smart_city.auth_042/@ZZ" = Ret frame ∧
    execute unit no_eval pretty self frame sample_clock tt = (Ret r, self, k', tt) ∧
    status r = "rejected" ∧ error r = Some "No binding for glyph 0xFFFF".
Proof.
  cbv zeta. split; [exact sample_registry_consistent|].
  assert (Hf : Glyph.from_text "UASC://smart_city.auth_042/@ZZ"
               = Ret (frame_for 0xFFFF None)) by (vm_compute; reflexivity).
  assert (Htok : Glyph.glyph_code (frame_for 0xFFFF None)
                   ∉ map fst Glyph.GLYPH_TOKENS).
  { cbn. rewrite !elem_of_cons, elem_of_nil. intuition discriminate. }
  destruct (unknown_token_is_never_executed unit no_eval pretty
              (interpreter_for unit sample_graph 0x8001) sample_clock tt
              sample_registry_consistent) as [_ Huri].
  destruct (Huri _ _ Hf Htok) as (r & k' & Hex & Hst & Herr).
  exists (frame_for 0xFFFF None), r, k'. auto.
Defined.

End InterpMore.

(** ** Interpreter: the execution context *)

Module ContextMore.
Import Interp InterpSpec.

Lemma key_eqb_sym (a b : value) : key_eqb a b = key_eqb b a.
Proof.
  destruct a as [|x|x|x|x|x], b as [|y|y|y|y|y]; cbn; try reflexivity.
  - destruct x, y; reflexivity.
  - apply Z.eqb_sym.
  - apply String.eqb_sym.
Qed.

Lemma key_eqb_trans (a b c : value) :
  key_eqb a b = true -> key_eqb b c = true -> key_eqb a c = true.
Proof.
  destruct a, b, c; cbn; try discriminate; try (intros; reflexivity);
    intros H1 H2;
    repeat match goal with
           | H : Z.eqb _ _ = true |- _ => apply Z.eqb_eq in H
           | H : String.eqb _ _ = true |- _ => apply String.eqb_eq in H
           | H : Bool.eqb _ _ = true |- _ => apply Bool.eqb_prop in H
           end;
    subst;
    first [apply Z.eqb_eq | apply String.eqb_eq | apply Bool.eqb_true_iff];
    try reflexivity;
    repeat match goal with b : bool |- _ => destruct b end;
    first [lia | congruence].
Qed.

Lemma key_eqb_refl (a : value) : hashable a = true -> key_eqb a a = true.
Proof.
  destruct a; cbn; try discriminate; intros _; try reflexivity.
  - apply Bool.eqb_reflx.
  - apply Z.eqb_refl.
  - apply String.eqb_refl.
Qed.

Lemma params_get_equiv (k1 k2 : value) (d : list (value * value)) :
  key_eqb k1 k2 = true -> params_get k1 d = params_get k2 d.
Proof.
  intros H. induction d as [|[k0 v0] d IH]; [reflexivity|].
  cbn. destruct (key_eqb k1 k0) eqn:E1, (key_eqb k2 k0) eqn:E2; try reflexivity.
  - rewrite key_eqb_sym in H. rewrite (key_eqb_trans _ _ _ H E1) in E2. discriminate.
  - rewrite (key_eqb_trans _ _ _ H E2) in E1. discriminate.
  - exact IH.
Qed.

Lemma params_get_set_eq (k v : value) (d : list (value * value)) :
  key_eqb k k = true -> params_get k (params_set k v d) = Some v.
Proof.
  intros H. induction d as [|[k0 v0] d IH]; cbn; [rewrite H; reflexivity|].
  destruct (key_eqb k k0) eqn:E; cbn; rewrite E; [reflexivity|exact IH].
Qed.

Lemma params_get_set_ne (k k2 v : value) (d : list (value * value)) :
  key_eqb k k2 = false -> params_get k (params_set k2 v d) = params_get k d.
Proof.
  intros H. induction d as [|[k0 v0] d IH]; cbn; [rewrite H; reflexivity|].
  destruct (key_eqb k2 k0) eqn:E; cbn.
  - destruct (key_eqb k k0) eqn:E'; [|reflexivity].
    rewrite key_eqb_sym in E. rewrite (key_eqb_trans _ _ _ E' E) in H. discriminate.
  - destruct (key_eqb k k0); [reflexivity|exact IH].
Qed.

(** The parameters a frame context gives are its items. *)
Lemma frame_parameters_items (c : dict) (key : string) (acc : list (value * value)) :
  NoDup (map fst c) ->
  params_get (VStr key) (params_update acc (params_of_dict c))
  = match dict_get key c with
    | Some v => Some v
    | None => params_get (VStr key) acc
    end.
Proof.
  unfold params_update. revert acc.
  induction c as [|[k0 v0] c IH]; intros acc Hnd; [reflexivity|].
  cbn [params_of_dict map fold_left fst snd dict_get].
  apply NoDup_cons in Hnd as [Hk0 Hnd].
  change (map (fun kv : string * value => (VStr kv.1, kv.2)) c)
    with (params_of_dict c).
  rewrite (IH _ Hnd).
  destruct (String.eqb key k0) eqn:E.
  - apply String.eqb_eq in E. subst k0.
    rewrite (proj2 (StringProps.dict_get_None_iff key c) Hk0).
    apply params_get_set_eq. cbn. apply String.eqb_refl.
  - destruct (dict_get key c); [reflexivity|].
    apply params_get_set_ne. cbn. exact E.
Qed.

(** What the loop over the input declarations does to the parameters *)
Lemma apply_inputs_facts (defs : list dict) :
  ∀ ps : list (value * value),
    match apply_inputs defs ps with
    | Ret ps' =>
        (∀ key v, params_get key ps = Some v -> params_get key ps' = Some v) ∧
        (∀ key v, params_get key ps' = Some v ->
           params_get key ps = Some v ∨
           ∃ def name, def ∈ defs ∧ dict_get "name" def = Some name ∧
                       key_eqb key name = true ∧ dict_get "default" def = Some v) ∧
        Forall (fun def =>
                  ∃ name, dict_get "name" def = Some name ∧ hashable name = true ∧
                    (is_Some (dict_get "default" def) ∨
                     truthy (dict_get_default "required" (VBool false) def) = true ->
                     is_Some (params_get name ps'))) defs
    | Raise e =>
        is_ValueError e = true ->
        ∃ def name, def ∈ defs ∧ dict_get "name" def = Some name ∧
                    dict_get "default" def = None ∧
                    truthy (dict_get_default "required" (VBool false) def) = true ∧
                    params_get name ps = None ∧
                    e = ValueError ("Missing required parameter: " +:+ py_str name)
    end.
Proof.
  induction defs as [|def rest IH]; intros ps.
  - cbn. split; [auto|]. split; [auto|constructor].
  - cbn [apply_inputs].
    destruct (dict_get "name" def) as [name|] eqn:Hname; [|discriminate].
    destruct (hashable name) eqn:Hhash; cbn [negb]; [|discriminate].
    destruct (params_get name ps) as [x|] eqn:Hget.
    + specialize (IH ps). destruct (apply_inputs rest ps) as [ps'|e].
      * destruct IH as (Hkeep & Hfrom & Hall).
        split; [exact Hkeep|]. split.
        { intros key v Hv. destruct (Hfrom key v Hv) as [?|(d & n & Hin & ?)]; [auto|].
          right. exists d, n. split; [apply elem_of_cons; auto|assumption]. }
        constructor; [|exact Hall].
        exists name. split; [exact Hname|]. split; [exact Hhash|].
        intros _. rewrite (Hkeep _ _ Hget). eauto.
      * intros He. destruct (IH He) as (d & n & Hin & Hrest).
        exists d, n. split; [apply elem_of_cons; auto|exact Hrest].
    + destruct (dict_get "default" def) as [dflt|] eqn:Hdef.
      * specialize (IH (params_set name dflt ps)).
        assert (Hstep : ∀ key v, params_get key ps = Some v ->
                          params_get key (params_set name dflt ps) = Some v).
        { intros key v Hv. destruct (key_eqb key name) eqn:E.
          - rewrite (params_get_equiv _ _ _ E), Hget in Hv. discriminate.
          - rewrite params_get_set_ne by exact E. exact Hv. }
        destruct (apply_inputs rest (params_set name dflt ps)) as [ps'|e].
        -- destruct IH as (Hkeep & Hfrom & Hall).
           split; [auto|]. split.
           { intros key v Hv.
             destruct (Hfrom key v Hv) as [Hv1|(d & n & Hin & Hrest)].
             - destruct (key_eqb key name) eqn:E.
               + right. exists def, name.
                 rewrite (params_get_equiv _ _ _ E),
                   (params_get_set_eq _ _ _ (key_eqb_refl _ Hhash)) in Hv1.
                 inversion Hv1. subst v.
                 split; [apply elem_of_cons; auto|]. auto.
               + rewrite params_get_set_ne in Hv1 by exact E. auto.
             - right. exists d, n. split; [apply elem_of_cons; auto|exact Hrest]. }
           constructor; [|exact Hall].
           exists name. split; [exact Hname|]. split; [exact Hhash|].
           intros _. erewrite Hkeep; [eauto|].
           apply params_get_set_eq, key_eqb_refl, Hhash.
        -- intros He. destruct (IH He) as (d & n & Hin & H1 & H2 & H3 & H4 & H5).
           exists d, n. split; [apply elem_of_cons; auto|].
           repeat split; try assumption.
           destruct (key_eqb n name) eqn:E.
           ++ rewrite (params_get_equiv _ _ _ E),
                (params_get_set_eq _ _ _ (key_eqb_refl _ Hhash)) in H4. discriminate.
           ++ rewrite params_get_set_ne in H4 by exact E. exact H4.
      * destruct (truthy (dict_get_default "required" (VBool false) def)) eqn:Hreq.
        -- intros _. exists def, name. split; [apply elem_of_cons; auto|].
           repeat split; assumption.
        -- specialize (IH ps). destruct (apply_inputs rest ps) as [ps'|e].
           ++ destruct IH as (Hkeep & Hfrom & Hall).
              split; [exact Hkeep|]. split.
              { intros key v Hv.
                destruct (Hfrom key v Hv) as [?|(d & n & Hin & ?)]; [auto|].
                right. exists d, n. split; [apply elem_of_cons; auto|assumption]. }
              constructor; [|exact Hall].
              exists name. split; [exact Hname|]. split; [exact Hhash|].
              intros [[? Hd]|Ht]; congruence.
           ++ intros He. destruct (IH He) as (d & n & Hin & Hrest).
              exists d, n. split; [apply elem_of_cons; auto|exact Hrest].
Qed.

Lemma resolve_fold (ctx : ExecutionContext) (d acc : dict) :
  NoDup (map fst (acc ++ d)%list) ->
  fold_left (fun resolved kv => dict_set kv.1 (resolve_value kv.2 ctx) resolved) d acc
  = (acc ++ map (fun kv => (kv.1, resolve_value kv.2 ctx)) d)%list.
Proof.
  revert acc. induction d as [|[key v] d IH]; intros acc Hnd.
  - cbn. rewrite app_nil_r. reflexivity.
  - cbn [fold_left fst snd map].
    assert (Habsent : dict_get key acc = None).
    { apply StringProps.dict_get_None_iff. rewrite map_app in Hnd.
      apply NoDup_app in Hnd as (_ & Hdisj & _).
      intros Hin. apply (Hdisj _ Hin). cbn. apply elem_of_cons. auto. }
    rewrite StringProps.dict_get_app_absent by exact Habsent.
    rewrite IH.
    + rewrite <- app_assoc. reflexivity.
    + rewrite <- app_assoc. rewrite map_app in Hnd |- *. exact Hnd.
Qed.

Lemma startswith_contains (c : ascii) (p s : string) :
  startswith p s = true -> contains_char c p = true -> contains_char c s = true.
Proof.
  revert s. induction p as [|a p IH]; intros s Hs Hc; [discriminate Hc|].
  destruct s as [|b s]; [discriminate Hs|].
  cbn in Hs, Hc |- *. destruct (Ascii.eqb a b) eqn:E; [|discriminate Hs].
  apply Ascii.eqb_eq in E. subst b.
  destruct (Ascii.eqb a c); [reflexivity|]. exact (IH _ Hs Hc).
Qed.

(** X25. [_resolve_params] on a dict never raises: it returns a dict with the
    same keys in the same order, each value resolved on its own, and
    [_resolve_outputs] does the same.  A value that is not a string, or
    a string without a dot, is passed on as it is; [inputs.x] is the
    parameter [x], or [None] when the context has none. *)
Theorem resolve_params_resolves_each_value
    (d : dict) (ctx : ExecutionContext) (Hnd : NoDup (map fst d)) :
  _resolve_params (VDict d) ctx
  = Ret (map (fun kv => (kv.1, resolve_value kv.2 ctx)) d) ∧
  _resolve_outputs (VDict d) ctx = _resolve_params (VDict d) ctx ∧
  (∀ v, (∀ s, v = VStr s -> contains_char "." s = false) ->
        resolve_value v ctx = v) ∧
  (∀ x, resolve_value (VStr ("inputs." +:+ x)) ctx
        = match params_get (VStr x) (parameters ctx) with
          | Some v => v
          | None => VNone
          end).
Proof.
  split; [|split; [reflexivity|split]].
  - unfold _resolve_params. rewrite resolve_fold by exact Hnd. reflexivity.
  - intros v Hv. destruct v as [| | |s| |]; try reflexivity.
    specialize (Hv s eq_refl). unfold resolve_value.
    destruct (startswith "inputs." s) eqn:E.
    + rewrite (startswith_contains "." _ _ E eq_refl) in Hv. discriminate.
    + rewrite Hv. reflexivity.
  - intros x. reflexivity.
Qed.

Lemma resolve_params_resolves_each_value_witness :
  let ctx := {| parameters := [(VStr "zone", VInt 7)]; system := [];
                node_results := [("read", VDict [("level", VInt 3)])] |} in
  NoDup (map fst [("z", VStr "inputs.zone"); ("l", VStr "read.level");
                  ("m", VStr "fast"); ("n", VInt 1)]) ∧
  _resolve_params (VDict [("z", VStr "inputs.zone"); ("l", VStr "read.level");
                          ("m", VStr "fast"); ("n", VInt 1)]) ctx
  = Ret [("z", VInt 7); ("l", VInt 3); ("m", VStr "fast"); ("n", VInt 1)].
Proof.
  cbv zeta.
  assert (Hnd : NoDup (map fst [("z", VStr "inputs.zone"); ("l", VStr "read.level");
                                ("m", VStr "fast"); ("n", VInt 1)])).
  { cbn. repeat constructor; rewrite ?elem_of_cons, ?elem_of_nil; intuition discriminate. }
  split; [exact Hnd|].
  rewrite (proj1 (resolve_params_resolves_each_value _ _ Hnd)). reflexivity.
Defined.

Section WithClock.

Variable isoformat : Z -> string.

(** X26. The parameters of a context come from the frame first and from the
    declared defaults second.  When [_build_context] returns, every
    parameter the frame context gives is kept as given; every parameter
    of the context is one the frame gave or the default of an input
    declaration of that name; every declaration with a default, or
    required, has its parameter; the node results are empty and the
    system dict names the glyph.  When it raises a [ValueError], some
    declaration is required, has no default and the frame gave no value
    for it, and the message names it.  A frame context with distinct
    keys gives exactly its items. *)
Theorem build_context_parameters
    (frame : Glyph.GlyphFrame) (graph : Registry.ExecutionGraph) (k : clock) :
  let given := frame_parameters frame in
  match (_build_context isoformat frame graph k).1 with
  | Ret ctx =>
      (∀ key v, params_get key given = Some v ->
                params_get key (parameters ctx) = Some v) ∧
      (∀ key v, params_get key (parameters ctx) = Some v ->
         params_get key given = Some v ∨
         ∃ def name, def ∈ Registry.inputs graph ∧ dict_get "name" def = Some name ∧
                     key_eqb key name = true ∧ dict_get "default" def = Some v) ∧
      Forall (fun def =>
                ∃ name, dict_get "name" def = Some name ∧ hashable name = true ∧
                  (is_Some (dict_get "default" def) ∨
                   truthy (dict_get_default "required" (VBool false) def) = true ->
                   is_Some (params_get name (parameters ctx))))
        (Registry.inputs graph) ∧
      node_results ctx = [] ∧
      dict_get "glyph" (system ctx) = Some (VStr (Glyph.to_token frame)) ∧
      dict_get "domain" (system ctx) = Some (VInt (Glyph.domain frame)) ∧
      dict_get "authority" (system ctx) = Some (VInt (Glyph.authority frame))
  | Raise e =>
      is_ValueError e = true ->
      ∃ def name, def ∈ Registry.inputs graph ∧ dict_get "name" def = Some name ∧
                  dict_get "default" def = None ∧
                  truthy (dict_get_default "required" (VBool false) def) = true ∧
                  params_get name given = None ∧
                  e = ValueError ("Missing required parameter: " +:+ py_str name)
  end ∧
  ∀ c key, Glyph.has_context frame = Some c -> NoDup (map fst c) ->
           params_get (VStr key) given = dict_get key c.
Proof.
  cbv zeta. split.
  - unfold _build_context. fold (frame_parameters frame).
    pose proof (apply_inputs_facts (Registry.inputs graph) (frame_parameters frame))
      as H.
    destruct (apply_inputs _ _) as [ps|e]; cbn [fst utcnow]; [|exact H].
    destruct H as (H1 & H2 & H3).
    split; [exact H1|]. split; [exact H2|]. split; [exact H3|].
    repeat split.
  - intros c key Hc Hnd. unfold frame_parameters. rewrite Hc.
    rewrite frame_parameters_items by exact Hnd.
    destruct (dict_get key c); reflexivity.
Qed.

End WithClock.

End ContextMore.
